(** * Winery Board auth service: a shallow embedding and its properties

    The development follows the Express backend of the repository
    (the server file with [requireAuth], [ensureSeedAdmin] and the
    [/api/...] routes).  Durable state is the pair of JSON files
    [users.json] / [admins.json]; the session registry is the in-process
    [Map].  Every route is embedded as a function from the state the
    handler observes to an [Outcome]: the HTTP response, the partition
    write it issues (if any) and the session it registers (if any).

    What the server takes from libraries (zod's e-mail pattern,
    bcryptjs) is the interface [Externals]; the results of [randomUUID]
    and [Date.now] come with every event in an [Env] record.  Strings
    are sequences of code units below 256. *)

From Stdlib Require Import ZArith Lia Bool Ascii String List.
From stdpp Require Import base option list gmap strings fin_maps.
Import ListNotations.

Local Open Scope Z_scope.
Set Warnings "-register-all".

(* ===================================================================== *)
(** * JavaScript strings *)
(* ===================================================================== *)

Module Js.

(** Code unit of a character. *)
Definition code (c : ascii) : N := N_of_ascii c.

(** [String.prototype.toLowerCase] on one code unit below 256: the
    letters [A]..[Z] (65..90) and the capitals 192..222 other than the
    multiplication sign 215 move up by 32; every other code unit is its
    own lower case. *)
Definition lower_char (c : ascii) : ascii :=
  let n := code c in
  if (((65 <=? n) && (n <=? 90))
      || ((192 <=? n) && (n <=? 222) && negb (n =? 215)))%N
  then ascii_of_N (n + 32)
  else c.

Fixpoint toLowerCase (s : string) : string :=
  match s with
  | EmptyString => EmptyString
  | String c r => String (lower_char c) (toLowerCase r)
  end.

(** White space and line terminators stripped by [String.prototype.trim]:
    TAB, LF, VT, FF, CR, SPACE and NBSP. *)
Definition is_space (c : ascii) : bool :=
  let n := code c in
  ((n =? 9) || (n =? 10) || (n =? 11) || (n =? 12) || (n =? 13)
   || (n =? 32) || (n =? 160))%N.

Fixpoint trimStart (s : string) : string :=
  match s with
  | EmptyString => EmptyString
  | String c r => if is_space c then trimStart r else s
  end.

Fixpoint trimEnd (s : string) : string :=
  match s with
  | EmptyString => EmptyString
  | String c r =>
      match trimEnd r with
      | EmptyString => if is_space c then EmptyString else String c EmptyString
      | r' => String c r'
      end
  end.

Definition trim (s : string) : string := trimEnd (trimStart s).

(** [s.startsWith(p)]. *)
Fixpoint startsWith (p s : string) : bool :=
  match p, s with
  | EmptyString, _ => true
  | String a p', String b s' => bool_decide (a = b) && startsWith p' s'
  | String _ _, EmptyString => false
  end.

Fixpoint drop (n : nat) (s : string) : string :=
  match n, s with
  | O, _ => s
  | S n', String _ r => drop n' r
  | S _, EmptyString => EmptyString
  end.

(** [s.replace(pat, rep)] with a string pattern: only the first
    occurrence is replaced. *)
Fixpoint replace (pat rep s : string) : string :=
  if startsWith pat s then String.append rep (drop (String.length pat) s)
  else match s with
       | EmptyString => EmptyString
       | String c r => String c (replace pat rep r)
       end.

(** [s.length], as an integer. *)
Definition length (s : string) : Z := Z.of_nat (String.length s).

(** Strict equality of two strings. *)
Definition seq (a b : string) : bool := bool_decide (a = b).

(** [a || b] on strings: the empty string is falsy. *)
Definition or_str (a : option string) (b : string) : string :=
  match a with
  | Some EmptyString | None => b
  | Some s => s
  end.

End Js.

(* ===================================================================== *)
(** * JSON values, request and response shapes *)
(* ===================================================================== *)

(** A parsed JSON value; [JUndef] is JavaScript's [undefined] (a missing
    property).  The fields of an object are kept in insertion order. *)
Inductive JVal : Type :=
| JUndef
| JNull
| JBool (b : bool)
| JNum (z : Z)
| JStr (s : string)
| JArr (items : list JVal)
| JObj (fields : list (string * JVal)).

(** [o.k] on the field list of an object. *)
Fixpoint field (k : string) (fs : list (string * JVal)) : JVal :=
  match fs with
  | [] => JUndef
  | (k', v) :: r => if Js.seq k' k then v else field k r
  end.

(** [body.k], also when [body] is not an object ([req.body?.k]). *)
Definition prop (k : string) (v : JVal) : JVal :=
  match v with
  | JObj fs => field k fs
  | _ => JUndef
  end.

(** [{...o, k: v}]: an existing key keeps its place and takes the new
    value, a new key goes last. *)
Fixpoint set_field (k : string) (v : JVal) (fs : list (string * JVal))
  : list (string * JVal) :=
  match fs with
  | [] => [(k, v)]
  | (k', v') :: r =>
      if Js.seq k' k then (k', v) :: r else (k', v') :: set_field k v r
  end.

(** [const { k, ...rest } = o]: the fields of [o] other than [k]. *)
Fixpoint omit (k : string) (fs : list (string * JVal))
  : list (string * JVal) :=
  match fs with
  | [] => []
  | (k', v) :: r => if Js.seq k' k then omit k r else (k', v) :: omit k r
  end.

(** Does the key [k] occur anywhere inside the value? *)
Fixpoint mentions (k : string) (v : JVal) {struct v} : bool :=
  match v with
  | JArr items =>
      (fix go (l : list JVal) : bool :=
         match l with
         | [] => false
         | x :: r => mentions k x || go r
         end) items
  | JObj fs =>
      (fix go (l : list (string * JVal)) : bool :=
         match l with
         | [] => false
         | (k', x) :: r => Js.seq k' k || mentions k x || go r
         end) fs
  | _ => false
  end.

Record Request : Type := mkRequest {
  authorization : option string;   (* req.headers.authorization *)
  body : JVal;                     (* req.body *)
  param_id : string                (* req.params.id *)
}.

Record Response : Type := mkResponse {
  status : Z;
  json : option JVal               (* None: [res.status(..).end()] *)
}.

Definition message (m : string) : JVal := JObj [("message", JStr m)].

Definition reply (code : Z) (v : JVal) : Response := mkResponse code (Some v).

(* ===================================================================== *)
(** * Data model *)
(* ===================================================================== *)

Inductive Role : Type := RUser | RAdmin.

Global Instance Role_eq_dec : EqDecision Role.
Proof. solve_decision. Defined.

Definition role_str (r : Role) : string :=
  match r with RUser => "user" | RAdmin => "admin" end.

Record Todo : Type := mkTodo {
  todo_id : string;
  todo_label : string;
  todo_done : bool;
  todo_createdAt : Z
}.

Record Account : Type := mkAccount {
  acc_id : string;
  acc_name : string;
  acc_email : string;
  acc_passwordHash : string;
  acc_createdAt : Z;
  acc_role : Role;
  acc_todos : option (list Todo)   (* None: the record has no [todos] *)
}.

Record Session : Type := mkSession {
  userId : string;
  role : Role;
  createdAt : Z
}.

(** The two JSON files and the in-process session [Map]. *)
Record State : Type := mkState {
  usersFile : list Account;
  adminsFile : list Account;
  sessions : gmap string Session
}.

(** What the runtime hands to one request: the two [randomUUID()]
    results a handler may draw (record id, session token), the readings
    of [Date.now()] and the salt bcrypt picks. *)
Record Env : Type := mkEnv {
  uuid : string;
  uuid_token : string;
  now : Z;
  now_session : Z;
  salt : string
}.

(** [process.env] entries read by the seeder. *)
Record ProcessEnv : Type := mkProcessEnv {
  ADMIN_EMAIL : option string;
  ADMIN_PASSWORD : option string;
  ADMIN_NAME : option string
}.

Inductive Writer : Type := writeUsers | writeAdmins.

(** Effects of one handler run. *)
Record Outcome : Type := mkOutcome {
  resp : Response;
  write : option (Writer * list Account);
  issued : option (string * Session)
}.

Definition respond (r : Response) : Outcome := mkOutcome r None None.

(** [x || []]. *)
Definition or_empty {A} (o : option (list A)) : list A := default [] o.

Definition todoObj (t : Todo) : JVal :=
  JObj [("id", JStr (todo_id t)); ("label", JStr (todo_label t));
        ("done", JBool (todo_done t)); ("createdAt", JNum (todo_createdAt t))].

Definition todosArr (ts : list Todo) : JVal := JArr (map todoObj ts).

(** The object a stored account is in JavaScript. *)
Definition accountFields (a : Account) : list (string * JVal) :=
  [("id", JStr (acc_id a)); ("name", JStr (acc_name a));
   ("email", JStr (acc_email a));
   ("passwordHash", JStr (acc_passwordHash a));
   ("createdAt", JNum (acc_createdAt a));
   ("role", JStr (role_str (acc_role a)))]
  ++ match acc_todos a with
     | Some ts => [("todos", todosArr ts)]
     | None => []
     end.

Definition scrubMember (user : list (string * JVal)) : list (string * JVal) :=
  omit "passwordHash" user.

Definition profile (a : Account) : JVal := JObj (scrubMember (accountFields a)).

(** [list.find(f)] together with the position of the hit: the element
    returned is the very object stored at that index. *)
Fixpoint find_at {A} (f : A -> bool) (l : list A) : option (nat * A) :=
  match l with
  | [] => None
  | x :: r =>
      if f x then Some (O, x)
      else match find_at f r with
           | Some (i, y) => Some (S i, y)
           | None => None
           end
  end.

(** [a || b] on the results of two [find]s. *)
Definition or_found {A} (a b : option A) : option A :=
  match a with Some _ => a | None => b end.

(* ===================================================================== *)
(** * Libraries the server calls *)
(* ===================================================================== *)

(** zod's e-mail check and the two bcryptjs entry points
    ([bcrypt.hash(password, 10)] with the salt it draws, and
    [bcrypt.compare]). *)
Class Externals : Type := {
  isEmail : string -> bool;
  bcrypt_hash : string -> string -> string;
  bcrypt_compare : string -> string -> bool
}.

(** bcrypt accepts the password a hash was derived from. *)
Definition bcrypt_sound `{Externals} : Prop :=
  forall password salt,
    bcrypt_compare password (bcrypt_hash password salt) = true.

(* ===================================================================== *)
(** * Request schemas *)
(* ===================================================================== *)

Record RegisterPayload : Type := mkRegisterPayload {
  reg_name : string;
  reg_email : string;
  reg_password : string
}.

Record LoginPayload : Type := mkLoginPayload {
  login_email : string;
  login_password : string
}.

Record AdminCreatePayload : Type := mkAdminCreatePayload {
  adm_name : string;
  adm_email : string;
  adm_password : string;
  adm_role : option Role
}.

(** [z.string().min(lo).max(hi)]: a string whose [length] is in range. *)
Definition z_string (lo hi : Z) (v : JVal) : option string :=
  match v with
  | JStr s => if (lo <=? Js.length s) && (Js.length s <=? hi) then Some s else None
  | _ => None
  end.

(** [z.enum(['user', 'admin']).optional()]: [None] is a parse error,
    [Some None] an absent field. *)
Definition z_role_optional (v : JVal) : option (option Role) :=
  match v with
  | JUndef => Some None
  | JStr s =>
      if Js.seq s "user" then Some (Some RUser)
      else if Js.seq s "admin" then Some (Some RAdmin)
      else None
  | _ => None
  end.

(** [z.object({...}).parse] starts by requiring an object. *)
Definition z_object (v : JVal) : option (list (string * JVal)) :=
  match v with
  | JObj fs => Some fs
  | _ => None
  end.

Section Server.
Context `{Ext : Externals}.

(** [z.string().email()]. *)
Definition z_email (v : JVal) : option string :=
  match v with
  | JStr s => if isEmail s then Some s else None
  | _ => None
  end.

(** Each [parse] below returns [None] where zod throws a [ZodError]. *)
Definition registerSchema (b : JVal) : option RegisterPayload :=
  fs ← z_object b;
  n ← z_string 2 40 (field "name" fs);
  e ← z_email (field "email" fs);
  p ← z_string 6 64 (field "password" fs);
  Some (mkRegisterPayload n e p).

Definition loginSchema (b : JVal) : option LoginPayload :=
  fs ← z_object b;
  e ← z_email (field "email" fs);
  p ← z_string 6 64 (field "password" fs);
  Some (mkLoginPayload e p).

Definition todoCreateSchema (b : JVal) : option string :=
  fs ← z_object b;
  z_string 1 140 (field "label" fs).

Definition adminCreateUserSchema (b : JVal) : option AdminCreatePayload :=
  fs ← z_object b;
  n ← z_string 2 40 (field "name" fs);
  e ← z_email (field "email" fs);
  p ← z_string 6 64 (field "password" fs);
  r ← z_role_optional (field "role" fs);
  Some (mkAdminCreatePayload n e p r).

(* --------------------------------------------------------------------- *)
(** ** Store and session registry *)

Definition readUsers (st : State) : list Account := usersFile st.
Definition readAdmins (st : State) : list Account := adminsFile st.

Definition createSession (e : Env) (uid : string) (r : Role)
  : string * Session :=
  (uuid_token e, mkSession uid r (now_session e)).

Definition getSession (st : State) (token : string) : option Session :=
  sessions st !! token.

(** The state once the effects of a handler have landed. *)
Definition persist (w : option (Writer * list Account)) (st : State) : State :=
  match w with
  | Some (writeUsers, l) => mkState l (adminsFile st) (sessions st)
  | Some (writeAdmins, l) => mkState (usersFile st) l (sessions st)
  | None => st
  end.

Definition register_session (s : option (string * Session)) (st : State)
  : State :=
  match s with
  | Some (token, entry) =>
      mkState (usersFile st) (adminsFile st) (<[token := entry]> (sessions st))
  | None => st
  end.

Definition commit (o : Outcome) (st : State) : State :=
  register_session (issued o) (persist (write o) st).

(* --------------------------------------------------------------------- *)
(** ** ensureSeedAdmin *)

Definition seedEmail (cfg : ProcessEnv) : string :=
  Js.toLowerCase (Js.or_str (ADMIN_EMAIL cfg) "owner@winery.board").

Definition seedAccount (cfg : ProcessEnv) (e : Env) : Account :=
  mkAccount (uuid e)
            (Js.or_str (ADMIN_NAME cfg) "Builder")
            (seedEmail cfg)
            (bcrypt_hash (Js.or_str (ADMIN_PASSWORD cfg) "wineryadmin") (salt e))
            (now e) RAdmin (Some []).

(** The partition write the seeder issues, if any. *)
Definition ensureSeedAdmin (cfg : ProcessEnv) (e : Env) (st : State)
  : option (Writer * list Account) :=
  let adminEmail := seedEmail cfg in
  let admins := readAdmins st in
  match find (fun user => Js.seq (acc_email user) adminEmail) admins with
  | Some _ => None
  | None => Some (writeAdmins, admins ++ [seedAccount cfg e])
  end.

(* --------------------------------------------------------------------- *)
(** ** requireAuth *)

(** [user.todos = ts] on the record. *)
Definition set_todos (a : Account) (ts : list Todo) : Account :=
  mkAccount (acc_id a) (acc_name a) (acc_email a) (acc_passwordHash a)
            (acc_createdAt a) (acc_role a) (Some ts).

(** The partition files a session of role [r] is served from. *)
Definition writer_for (r : Role) : Writer :=
  if decide (r = RAdmin) then writeAdmins else writeUsers.

Definition reader_for (r : Role) : State -> list Account :=
  if decide (r = RAdmin) then readAdmins else readUsers.

Record Auth : Type := mkAuth {
  auth_index : nat;             (* where [user] sits in [list] *)
  auth_user : Account;
  auth_list : list Account;
  auth_writer : Writer;
  auth_token : string;
  auth_role : Role
}.

Definition requireAuth (st : State) (req : Request) (requireAdmin : bool)
  : Response + Auth :=
  let authHeader := Js.or_str (authorization req) "" in
  if negb (Js.startsWith "Bearer " authHeader) then
    inl (reply 401 (message "missing-token"))
  else
    let token := Js.replace "Bearer " "" authHeader in
    match getSession st token with
    | None => inl (reply 401 (message "invalid-token"))
    | Some session =>
        let reader := reader_for (role session) in
        let writer := writer_for (role session) in
        let list := reader st in
        match find_at (fun entry => Js.seq (acc_id entry) (userId session)) list with
        | None => inl (reply 401 (message "invalid-token"))
        | Some (i, user) =>
            if requireAdmin && negb (bool_decide (role session = RAdmin)) then
              inl (reply 403 (message "forbidden"))
            else
              (* user.todos = user.todos || [] *)
              let user' := set_todos user (or_empty (acc_todos user)) in
              inr (mkAuth i user' (<[i := user']> list) writer token
                          (role session))
        end
    end.

(* --------------------------------------------------------------------- *)
(** ** Routes *)

(** [todo.done = d] on the record. *)
Definition set_done (t : Todo) (d : bool) : Todo :=
  mkTodo (todo_id t) (todo_label t) d (todo_createdAt t).

(** [auth.writer(auth.list)] after [auth.user] was mutated into [user']:
    [auth.user] is the element of [auth.list] at [auth_index]. *)
Definition save (auth : Auth) (user' : Account) : option (Writer * list Account) :=
  Some (auth_writer auth, <[auth_index auth := user']> (auth_list auth)).

(** GET /health *)
Definition get_health : Outcome :=
  respond (reply 200 (JObj [("status", JStr "ok")])).

(** POST /api/auth/register *)
Definition post_register (st : State) (req : Request) (e : Env) : Outcome :=
  match registerSchema (body req) with
  | None => respond (reply 400 (message "validation-error"))
  | Some payload =>
      let users := readUsers st in
      let admins := readAdmins st in
      let same := fun a : Account =>
        Js.seq (Js.toLowerCase (acc_email a))
               (Js.toLowerCase (reg_email payload)) in
      match or_found (find same users) (find same admins) with
      | Some _ => respond (reply 409 (message "email-in-use"))
      | None =>
          let passwordHash := bcrypt_hash (reg_password payload) (salt e) in
          let newUser :=
            mkAccount (uuid e) (Js.trim (reg_name payload))
                      (Js.toLowerCase (reg_email payload)) passwordHash
                      (now e) RUser (Some []) in
          let s := createSession e (acc_id newUser) RUser in
          mkOutcome
            (reply 201 (JObj [("token", JStr (fst s));
                              ("profile", profile newUser)]))
            (Some (writeUsers, users ++ [newUser]))
            (Some s)
      end
  end.

(** POST /api/auth/login *)
Definition post_login (st : State) (req : Request) (e : Env) : Outcome :=
  match loginSchema (body req) with
  | None => respond (reply 400 (message "validation-error"))
  | Some payload =>
      let users := readUsers st in
      let admins := readAdmins st in
      let email := Js.toLowerCase (login_email payload) in
      let hit := fun entry : Account => Js.seq (acc_email entry) email in
      let found :=
        match find hit users with
        | Some u => (Some u, RUser)
        | None => (find hit admins, RAdmin)
        end in
      match found with
      | (None, _) => respond (reply 401 (message "invalid-credentials"))
      | (Some user, r) =>
          if negb (bcrypt_compare (login_password payload)
                                  (acc_passwordHash user)) then
            respond (reply 401 (message "invalid-credentials"))
          else
            let s := createSession e (acc_id user) r in
            mkOutcome
              (reply 200 (JObj [("token", JStr (fst s));
                                ("profile", profile user)]))
              None (Some s)
      end
  end.

(** GET /api/auth/session *)
Definition get_session (st : State) (req : Request) : Outcome :=
  match requireAuth st req false with
  | inl r => respond r
  | inr auth => respond (reply 200 (JObj [("profile", profile (auth_user auth))]))
  end.

(** GET /api/todos *)
Definition get_todos (st : State) (req : Request) : Outcome :=
  match requireAuth st req false with
  | inl r => respond r
  | inr auth =>
      respond (reply 200
        (JObj [("todos", todosArr (or_empty (acc_todos (auth_user auth))))]))
  end.

(** POST /api/todos *)
Definition post_todos (st : State) (req : Request) (e : Env) : Outcome :=
  match requireAuth st req false with
  | inl r => respond r
  | inr auth =>
      match todoCreateSchema (body req) with
      | None => respond (reply 400 (message "validation-error"))
      | Some label =>
          let todo := mkTodo (uuid e) (Js.trim label) false (now e) in
          let user := auth_user auth in
          mkOutcome (reply 201 (JObj [("todo", todoObj todo)]))
                    (save auth (set_todos user (todo :: or_empty (acc_todos user))))
                    None
      end
  end.

(** PATCH /api/todos/:id *)
Definition patch_todo (st : State) (req : Request) : Outcome :=
  match requireAuth st req false with
  | inl r => respond r
  | inr auth =>
      let user := auth_user auth in
      let todos := or_empty (acc_todos user) in
      match find_at (fun item => Js.seq (todo_id item) (param_id req)) todos with
      | None => respond (reply 404 (message "not-found"))
      | Some (j, todo) =>
          let d := match prop "done" (body req) with
                   | JBool b => b
                   | _ => negb (todo_done todo)
                   end in
          let todo' := set_done todo d in
          mkOutcome (reply 200 (JObj [("todo", todoObj todo')]))
                    (save auth (set_todos user (<[j := todo']> todos)))
                    None
      end
  end.

(** DELETE /api/todos/:id *)
Definition delete_todo (st : State) (req : Request) : Outcome :=
  match requireAuth st req false with
  | inl r => respond r
  | inr auth =>
      let user := auth_user auth in
      let before := or_empty (acc_todos user) in
      let next :=
        List.filter (fun item => negb (Js.seq (todo_id item) (param_id req)))
                    before in
      if bool_decide (length next = length before) then
        respond (reply 404 (message "not-found"))
      else
        mkOutcome (mkResponse 204 None) (save auth (set_todos user next)) None
  end.

(** One entry of the admin overview:
    [{...scrubMember(user), todos: user.todos || []}]. *)
Definition overviewEntry (a : Account) : JVal :=
  JObj (set_field "todos" (todosArr (or_empty (acc_todos a)))
                  (scrubMember (accountFields a))).

(** GET /api/admin/overview *)
Definition get_overview (st : State) (req : Request) : Outcome :=
  match requireAuth st req true with
  | inl r => respond r
  | inr _ =>
      respond (reply 200
        (JObj [("users", JArr (map overviewEntry (readUsers st)));
               ("admins", JArr (map overviewEntry (readAdmins st)))]))
  end.

(** POST /api/admin/users *)
Definition post_admin_users (st : State) (req : Request) (e : Env) : Outcome :=
  match requireAuth st req true with
  | inl r => respond r
  | inr _ =>
      match adminCreateUserSchema (body req) with
      | None => respond (reply 400 (message "validation-error"))
      | Some payload =>
          let email := Js.toLowerCase (adm_email payload) in
          let users := readUsers st in
          let admins := readAdmins st in
          let same := fun a : Account => Js.seq (acc_email a) email in
          match or_found (find same users) (find same admins) with
          | Some _ => respond (reply 409 (message "email-in-use"))
          | None =>
              let passwordHash := bcrypt_hash (adm_password payload) (salt e) in
              let newUser :=
                mkAccount (uuid e) (Js.trim (adm_name payload)) email
                          passwordHash (now e)
                          (default RUser (adm_role payload)) (Some []) in
              mkOutcome
                (reply 201 (JObj [("profile", profile newUser)]))
                (if decide (acc_role newUser = RAdmin)
                 then Some (writeAdmins, admins ++ [newUser])
                 else Some (writeUsers, users ++ [newUser]))
                None
          end
      end
  end.

(* --------------------------------------------------------------------- *)
(** ** The service as a transition system *)

Inductive Route : Type :=
| Health | PostRegister | PostLogin | GetSession | GetTodos | PostTodos
| PatchTodo | DeleteTodo | GetOverview | PostAdminUsers.

Definition handle (r : Route) (st : State) (req : Request) (e : Env) : Outcome :=
  match r with
  | Health => get_health
  | PostRegister => post_register st req e
  | PostLogin => post_login st req e
  | GetSession => get_session st req
  | GetTodos => get_todos st req
  | PostTodos => post_todos st req e
  | PatchTodo => patch_todo st req
  | DeleteTodo => delete_todo st req
  | GetOverview => get_overview st req
  | PostAdminUsers => post_admin_users st req e
  end.

(** A process start ([bootstrap]): the session map is new and the
    seeder runs before the server listens.  Or one request, handled
    from its first read to its write. *)
Inductive Event : Type :=
| Boot (cfg : ProcessEnv) (e : Env)
| Call (r : Route) (req : Request) (e : Env).

Definition bootstrap (cfg : ProcessEnv) (e : Env) (st : State) : State :=
  let fresh := mkState (usersFile st) (adminsFile st) ∅ in
  persist (ensureSeedAdmin cfg e fresh) fresh.

Definition step (ev : Event) (st : State) : State :=
  match ev with
  | Boot cfg e => bootstrap cfg e st
  | Call r req e => commit (handle r st req e) st
  end.

Definition run (evs : list Event) (st : State) : State :=
  fold_left (fun s ev => step ev s) evs st.

(** Both data files as [ensureFile] creates them. *)
Definition initial : State := mkState [] [] ∅.

Inductive reachable : State -> Prop :=
| reach_initial : reachable initial
| reach_step st ev : reachable st -> reachable (step ev st).

(** Startups restricted to seed e-mails no account of the users
    partition holds. *)
Definition seed_clear (cfg : ProcessEnv) (st : State) : Prop :=
  Forall (fun a => Js.toLowerCase (acc_email a) <> seedEmail cfg) (usersFile st).

Inductive reachable_clear : State -> Prop :=
| clear_initial : reachable_clear initial
| clear_boot st cfg e :
    reachable_clear st -> seed_clear cfg st ->
    reachable_clear (step (Boot cfg e) st)
| clear_call st r req e :
    reachable_clear st -> reachable_clear (step (Call r req e) st).

(* --------------------------------------------------------------------- *)
(** ** Requests in flight

    Node runs a handler up to its next [await]; between a handler's file
    read and the moment its [writeFile] lands other handlers may run.
    [Begin k] lets request [k] read the files and run up to its write
    call, [Land k] lets that write (and what follows it) take effect. *)

Inductive Tick : Type :=
| Begin (k : nat) (r : Route) (req : Request) (e : Env)
| Land (k : nat).

Record Server : Type := mkServer {
  disk : State;
  inflight : list (nat * Outcome)
}.

Fixpoint take_out (k : nat) (l : list (nat * Outcome))
  : option (Outcome * list (nat * Outcome)) :=
  match l with
  | [] => None
  | (k', o) :: r =>
      if bool_decide (k' = k) then Some (o, r)
      else match take_out k r with
           | Some (o', r') => Some (o', (k', o) :: r')
           | None => None
           end
  end.

Definition tick (t : Tick) (sv : Server) : Server :=
  match t with
  | Begin k r req e =>
      mkServer (disk sv) (inflight sv ++ [(k, handle r (disk sv) req e)])
  | Land k =>
      match take_out k (inflight sv) with
      | Some (o, rest) => mkServer (commit o (disk sv)) rest
      | None => sv
      end
  end.

Definition schedule (ts : list Tick) (sv : Server) : Server :=
  fold_left (fun s t => tick t s) ts sv.

(** Every request of the schedule begins once and lands once, after it
    began. *)
Fixpoint well_scheduled (open : list nat) (seen : list nat) (ts : list Tick)
  : bool :=
  match ts with
  | [] => bool_decide (open = [])
  | Begin k _ _ _ :: r =>
      bool_decide (k ∉ seen) && well_scheduled (k :: open) (k :: seen) r
  | Land k :: r =>
      bool_decide (k ∈ open)
      && well_scheduled (List.filter (fun x => negb (bool_decide (x = k))) open) seen r
  end.

(** The events, and the ticks, of task creations handled one after
    another: every request lands before the next one begins. *)
Definition creations (reqs : list (Request * Env)) : list Event :=
  map (fun p => Call PostTodos (fst p) (snd p)) reqs.

Fixpoint serial (k : nat) (reqs : list (Request * Env)) : list Tick :=
  match reqs with
  | [] => []
  | (req, e) :: r => Begin k PostTodos req e :: Land k :: serial (S k) r
  end.

(* --------------------------------------------------------------------- *)
(** ** State predicates *)

Definition accounts (st : State) : list Account := usersFile st ++ adminsFile st.

(** Stored e-mails are lower-case. *)
Definition emails_lower (st : State) : Prop :=
  Forall (fun a => Js.toLowerCase (acc_email a) = acc_email a) (accounts st).

(** No two accounts, users and admins together, share an e-mail up to
    letter case. *)
Definition emails_unique (st : State) : Prop :=
  NoDup (map (fun a => Js.toLowerCase (acc_email a)) (accounts st)).

(** Some account of either partition holds [email] up to letter case. *)
Definition email_known (email : string) (st : State) : Prop :=
  exists a, a ∈ accounts st /\ Js.toLowerCase (acc_email a) = Js.toLowerCase email.

(** The partition a writer rewrites. *)
Definition partition (w : Writer) (st : State) : list Account :=
  match w with
  | writeUsers => usersFile st
  | writeAdmins => adminsFile st
  end.

Definition todo_ids (a : Account) : list string :=
  map todo_id (or_empty (acc_todos a)).

(** How a request may change the two files: the e-mails of both
    partitions stay as they are, or one account with a lower-case e-mail
    that no account of either partition holds is appended. *)
Inductive change (st st' : State) : Prop :=
| change_none :
    map acc_email (usersFile st') = map acc_email (usersFile st) ->
    map acc_email (adminsFile st') = map acc_email (adminsFile st) ->
    change st st'
| change_user a :
    usersFile st' = usersFile st ++ [a] -> adminsFile st' = adminsFile st ->
    Js.toLowerCase (acc_email a) = acc_email a ->
    Forall (fun b => acc_email b <> acc_email a) (accounts st) ->
    change st st'
| change_admin a :
    usersFile st' = usersFile st -> adminsFile st' = adminsFile st ++ [a] ->
    Js.toLowerCase (acc_email a) = acc_email a ->
    Forall (fun b => acc_email b <> acc_email a) (accounts st) ->
    change st st'.

(** No object of the response body, at any depth, has a [passwordHash]
    key. *)
Definition clean (o : Outcome) : Prop :=
  match json (resp o) with
  | Some v => mentions "passwordHash" v = false
  | None => True
  end.

End Server.

(* ===================================================================== *)
(** * A concrete instance, for running the handlers *)
(* ===================================================================== *)

Module Sample.

Definition is_alnum (c : ascii) : bool :=
  let n := Js.code c in
  (((48 <=? n) && (n <=? 57)) || ((65 <=? n) && (n <=? 90))
   || ((97 <=? n) && (n <=? 122)))%N.

Definition is_alpha (c : ascii) : bool :=
  let n := Js.code c in
  (((65 <=? n) && (n <=? 90)) || ((97 <=? n) && (n <=? 122)))%N.

Definition is_code (k : N) (c : ascii) : bool := (Js.code c =? k)%N.

(** Splits at the first [@]. *)
Fixpoint split_at (s : string) : option (list ascii * list ascii) :=
  match s with
  | EmptyString => None
  | String c r =>
      if is_code 64 c then Some ([], list_ascii_of_string r)
      else match split_at r with
           | Some (l, d) => Some (c :: l, d)
           | None => None
           end
  end.

Fixpoint has_dotdot (l : list ascii) : bool :=
  match l with
  | a :: ((b :: _) as r) => (is_code 46 a && is_code 46 b) || has_dotdot r
  | _ => false
  end.

(** Labels of a domain, cut at the dots. *)
Fixpoint labels (cur : list ascii) (l : list ascii) : list (list ascii) :=
  match l with
  | [] => [rev cur]
  | c :: r => if is_code 46 c then rev cur :: labels [] r else labels (c :: cur) r
  end.

Definition local_char (c : ascii) : bool :=
  is_alnum c || is_code 95 c || is_code 39 c || is_code 43 c
  || is_code 45 c || is_code 46 c.

Definition local_last (c : ascii) : bool :=
  is_alnum c || is_code 95 c || is_code 43 c || is_code 45 c.

Definition host_label (l : list ascii) : bool :=
  match l with
  | [] => false
  | c :: r => is_alnum c && forallb (fun x => is_alnum x || is_code 45 x) r
  end.

(** The address shape of zod 3's [string().email()]: a local part of
    letters, digits and [_'+-.] that neither starts with a dot nor ends
    in a dot or quote, no two dots in a row, then [@], then dotted host
    labels closed by a top-level label of two letters or more. *)
Definition zod_email (s : string) : bool :=
  match split_at s with
  | None => false
  | Some (loc, dom) =>
      match rev loc, rev (labels [] dom) with
      | lastc :: _, tld :: host :: hosts =>
          forallb local_char loc && local_last lastc
          && negb (match loc with c :: _ => is_code 46 c | [] => false end)
          && negb (has_dotdot (loc ++ "@"%char :: dom))
          && forallb host_label (host :: hosts)
          && forallb is_alpha tld && (2 <=? length tld)%nat
      | _, _ => false
      end
  end.

Fixpoint ends_with (p s : string) : bool :=
  Js.seq p s ||
  match s with
  | EmptyString => false
  | String _ r => ends_with p r
  end.

(** A stand-in for bcryptjs with the one property the development asks
    of it ([bcrypt_sound]); no property below depends on how it hashes. *)
Definition externals : Externals := {|
  isEmail := zod_email;
  bcrypt_hash := fun password salt => String.append salt (String "$" password);
  bcrypt_compare := fun password h => ends_with (String "$" password) h
|}.

Definition env (n : string) (t : Z) : Env :=
  mkEnv (String.append "id-" n) (String.append "tok-" n) t t
        (String.append "salt-" n).

Definition default_env : ProcessEnv := mkProcessEnv None None None.

Definition bearer (token : string) (b : JVal) (id : string) : Request :=
  mkRequest (Some (String.append "Bearer " token)) b id.

Definition anonymous (b : JVal) : Request := mkRequest None b "".

Definition credentials (n e p : string) : JVal :=
  JObj [("name", JStr n); ("email", JStr e); ("password", JStr p)].

Definition label_body (l : string) : JVal := JObj [("label", JStr l)].

(** First start, then Ada registers. *)
Definition ada_session : list Event :=
  [Boot default_env (env "0" 100);
   Call PostRegister (anonymous (credentials "Ada" "Ada@X.com" "secret1"))
        (env "1" 101)].

Definition ada_state : State := run (Ext := externals) ada_session initial.

Definition ada : Account :=
  mkAccount "id-1" "Ada" "ada@x.com" "salt-1$secret1" 101 RUser (Some []).

Definition milk : Todo := mkTodo "id-2" "buy milk" false 102.

(** ... and notes one task. *)
Definition milk_state : State :=
  step (Ext := externals)
       (Call PostTodos (bearer "tok-1" (label_body "  buy milk  ") "") (env "2" 102))
       ada_state.

(** The service is started again with Ada's address as [ADMIN_EMAIL]. *)
Definition reseeded_session : list Event :=
  ada_session ++ [Boot (mkProcessEnv (Some "ada@x.com") None None) (env "3" 103)].

Definition reseeded_state : State :=
  run (Ext := externals) reseeded_session initial.

(** Two task creations by Ada whose reads both come before either
    write. *)
Definition milk_request : Request := bearer "tok-1" (label_body "milk") "".
Definition eggs_request : Request := bearer "tok-1" (label_body "eggs") "".

Definition raced : list Tick :=
  [Begin 1 PostTodos milk_request (env "2" 102);
   Begin 2 PostTodos eggs_request (env "3" 103);
   Land 1; Land 2].

Definition raced_server : Server :=
  schedule (Ext := externals) raced (mkServer ada_state []).

(** The seeded admin logs in; then Bob registers while the admin
    provisions an admin account with Bob's address, both handlers
    reading the files before either write lands. *)
Definition owner_state : State :=
  run (Ext := externals)
      [Boot default_env (env "0" 100);
       Call PostLogin
            (anonymous (JObj [("email", JStr "owner@winery.board");
                              ("password", JStr "wineryadmin")]))
            (env "1" 101)]
      initial.

Definition raced_provisioning : list Tick :=
  [Begin 1 PostRegister (anonymous (credentials "Bob" "bob@x.com" "secret1"))
         (env "2" 102);
   Begin 2 PostAdminUsers
         (bearer "tok-1"
                 (JObj [("name", JStr "Bob"); ("email", JStr "Bob@X.com");
                        ("password", JStr "secret2"); ("role", JStr "admin")])
                 "")
         (env "3" 103);
   Land 1; Land 2].

Definition raced_provisioning_server : Server :=
  schedule (Ext := externals) raced_provisioning (mkServer owner_state []).

(** Bob and Cyd register while Ada is the only user, both handlers
    reading the users file before either write lands; Bob's write lands
    and he is answered, then Cyd's.  Later Bob logs in. *)
Definition bob_registration : Request :=
  anonymous (credentials "Bob" "Bob@X.com" "secret2").

Definition cyd_registration : Request :=
  anonymous (credentials "Cyd" "cyd@x.com" "secret3").

Definition bob_login : Request :=
  anonymous (JObj [("email", JStr "bob@x.com"); ("password", JStr "secret2")]).

Definition raced_registrations : list Tick :=
  [Begin 1 PostRegister bob_registration (env "2" 102);
   Begin 2 PostRegister cyd_registration (env "3" 103);
   Land 1; Land 2].

Definition bob_answered : Server :=
  schedule (Ext := externals) (take 3 raced_registrations) (mkServer ada_state []).

Definition raced_registrations_server : Server :=
  schedule (Ext := externals) raced_registrations (mkServer ada_state []).

(** Ada as [requireAuth] returns her in [milk_state]. *)
Definition ada_auth : Auth :=
  mkAuth 0 (set_todos ada [milk]) [set_todos ada [milk]] writeUsers "tok-1" RUser.

End Sample.

(* ===================================================================== *)
(** * What a step does to the files, in full *)
(* ===================================================================== *)

Definition other (w : Writer) : Writer :=
  match w with writeUsers => writeAdmins | writeAdmins => writeUsers end.

(** The role whose accounts a writer's file holds. *)
Definition writer_role (w : Writer) : Role :=
  match w with writeUsers => RUser | writeAdmins => RAdmin end.

(** The fields of an account that only its creation sets. *)
Definition core (a : Account) : string * string * string * string * Z * Role :=
  (acc_id a, acc_name a, acc_email a, acc_passwordHash a, acc_createdAt a,
   acc_role a).

(** Where a task of a rewritten list comes from: a task of the list
    before, with at most its flag changed, or a new task, whose label is
    the trimmed form of a label the schema let through. *)
Definition task_from (old : list Todo) (t : Todo) : Prop :=
  (exists u, u ∈ old /\ todo_id t = todo_id u /\ todo_label t = todo_label u
             /\ todo_createdAt t = todo_createdAt u)
  \/ (todo_done t = false
      /\ exists l, 1 <= Js.length l <= 140 /\ todo_label t = Js.trim l).

Inductive effect (st st' : State) : Prop :=
| effect_none :
    usersFile st' = usersFile st -> adminsFile st' = adminsFile st ->
    effect st st'
| effect_append w a :
    partition w st' = partition w st ++ [a] ->
    partition (other w) st' = partition (other w) st ->
    acc_role a = writer_role w -> acc_todos a = Some [] ->
    effect st st'
| effect_tasks w i a ts :
    partition w st !! i = Some a ->
    partition w st' = <[i := set_todos a ts]> (partition w st) ->
    partition (other w) st' = partition (other w) st ->
    Forall (task_from (or_empty (acc_todos a))) ts ->
    effect st st'.

(** Accounts sit in the partition of their role. *)
Definition roles_match (st : State) : Prop :=
  forall w a, a ∈ partition w st -> acc_role a = writer_role w.

(** Every account has a task array. *)
Definition todos_present (st : State) : Prop :=
  forall a, a ∈ accounts st -> is_Some (acc_todos a).

(** Stored labels are trimmed and at most 140 code units long. *)
Definition labels_trimmed (st : State) : Prop :=
  forall a t, a ∈ accounts st -> t ∈ or_empty (acc_todos a) ->
              Js.trim (todo_label t) = todo_label t
              /\ Js.length (todo_label t) <= 140.

(** Every session names an account of the partition of its role. *)
Definition sessions_live (st : State) : Prop :=
  forall token s, sessions st !! token = Some s ->
                  userId s ∈ map acc_id (partition (writer_for (role s)) st).

(** The error answers of the routes: status and [message]. *)
Definition error_answers : list (Z * string) :=
  [(400, "validation-error"); (401, "missing-token"); (401, "invalid-token");
   (401, "invalid-credentials"); (403, "forbidden"); (404, "not-found");
   (409, "email-in-use")].

(** The routes that call [requireAuth], with the [requireAdmin] they
    pass. *)
Definition guard (r : Route) : option bool :=
  match r with
  | Health | PostRegister | PostLogin => None
  | GetOverview | PostAdminUsers => Some true
  | GetSession | GetTodos | PostTodos | PatchTodo | DeleteTodo => Some false
  end.

(** Between [st] and [st'] nothing changed but, at most, the task list
    of the account at position [i] of the partition of [w]. *)
Definition untouched_but (w : Writer) (i : nat) (st st' : State) : Prop :=
  partition (other w) st' = partition (other w) st
  /\ sessions st' = sessions st
  /\ (forall j, j <> i -> partition w st' !! j = partition w st !! j)
  /\ exists a b, partition w st !! i = Some a /\ partition w st' !! i = Some b
                 /\ core b = core a.

(** A run of requests, without restart. *)
Definition requests (cs : list (Route * Request * Env)) : list Event :=
  map (fun c => Call c.1.1 c.1.2 c.2) cs.

(* ===================================================================== *)
(** * A header value between the browser and the handler *)
(* ===================================================================== *)

Module Http.

(** HTTP white space: TAB, LF, CR and SPACE. *)
Definition whitespace (c : ascii) : bool :=
  let n := Js.code c in
  ((n =? 9) || (n =? 10) || (n =? 13) || (n =? 32))%N.

Fixpoint strip_start (s : string) : string :=
  match s with
  | EmptyString => EmptyString
  | String c r => if whitespace c then strip_start r else s
  end.

Fixpoint strip_end (s : string) : string :=
  match s with
  | EmptyString => EmptyString
  | String c r =>
      match strip_end r with
      | EmptyString => if whitespace c then EmptyString else String c EmptyString
      | r' => String c r'
      end
  end.

(** [fetch] stores a header value without the white space at its two
    ends. *)
Definition normalize (v : string) : string := strip_end (strip_start v).

(** TAB and the code units 32 to 126. *)
Definition field_char (c : ascii) : bool :=
  let n := Js.code c in
  ((n =? 9) || ((32 <=? n) && (n <=? 126)))%N.

Fixpoint all_chars (f : ascii -> bool) (s : string) : bool :=
  match s with
  | EmptyString => true
  | String c r => f c && all_chars f r
  end.

(** What [req.headers.authorization] is at the handler when the client
    passes [v] to [fetch] as the value of the header.  The normalized
    value is sent, and Node's parser hands it on as it is when it is
    made of TABs and the code units 32 to 126.  [fetch] throws on a
    value with a NUL, LF or CR left inside, Node's parser answers 400 by
    itself on other control characters; such values, and values with
    code units from 128 on, give [None] and are not followed
    further. *)
Definition carried (v : string) : option string :=
  let sent := normalize v in
  if all_chars field_char sent then Some sent else None.

End Http.

(* ===================================================================== *)
(** * The client: [services/auth] and the board of [App] *)
(* ===================================================================== *)

Module Client.

(** Truthiness of a JSON value. *)
Definition truthy (v : JVal) : bool :=
  match v with
  | JUndef | JNull => false
  | JBool b => b
  | JNum z => negb (z =? 0)
  | JStr s => negb (Js.seq s "")
  | JArr _ | JObj _ => true
  end.

(** [a || b]. *)
Definition or_val (a b : JVal) : JVal := if truthy a then a else b.

(** [v === s] for a string [s]. *)
Definition is_str (v : JVal) (s : string) : bool :=
  match v with
  | JStr x => Js.seq x s
  | _ => false
  end.

(** The Authorization header [request] passes to [fetch]:
    [token ? { Authorization: `Bearer ${token}` } : {}]. *)
Definition headers (token : option string) : option string :=
  match token with
  | Some (String _ _ as t) => Some (String.append "Bearer " t)
  | _ => None
  end.

(** [fetch] with the Authorization header [auth], a body and the id of
    the path: the request as the handler receives it, its header as
    [Http.carried] lets it through.  [None] when the value is not
    carried. *)
Definition fetch (auth : option string) (b : JVal) (id : string) : option Request :=
  match auth with
  | None => Some (mkRequest None b id)
  | Some v =>
      match Http.carried v with
      | Some h => Some (mkRequest (Some h) b id)
      | None => None
      end
  end.

(** [response.ok]. *)
Definition ok (r : Response) : bool := (200 <=? status r) && (status r <=? 299).

(** The argument of [new Error] when the response is not ok:
    [body?.message || 'server-error'], where a body that does not parse
    counts as [{}]. *)
Definition thrown (r : Response) : JVal :=
  let body := default (JObj []) (json r) in
  or_val (prop "message" body) (JStr "server-error").

(** What a call of [request] ends in: the parsed body, an [Error] with a
    string message, or something else (a message that is not a string,
    a success without a body to parse). *)
Inductive Reply : Type :=
| Parsed (v : JVal)
| Failed (m : string)
| Other.

Definition request (r : Response) : Reply :=
  if ok r then
    match json r with Some v => Parsed v | None => Other end
  else
    match thrown r with JStr m => Failed m | _ => Other end.

(** [deleteTodoRemote] does not read the body of a success. *)
Definition request_delete (r : Response) : Reply :=
  if ok r then Parsed JUndef
  else match thrown r with JStr m => Failed m | _ => Other end.

(** The calls of [services/auth]: the route, and the request as it
    reaches the handler ([None] when the header is not carried).  A GET
    carries no body; ids go into the path as they are (they are
    UUIDs). *)
Definition register (name email password : string) : Route * option Request :=
  (PostRegister,
   fetch (headers None)
         (JObj [("name", JStr name); ("email", JStr email);
                ("password", JStr password)]) "").

Definition login (email password : string) : Route * option Request :=
  (PostLogin,
   fetch (headers None)
         (JObj [("email", JStr email); ("password", JStr password)]) "").

Definition fetchSession (token : string) : Route * option Request :=
  (GetSession, fetch (headers (Some token)) JUndef "").

Definition fetchTodos (token : string) : Route * option Request :=
  (GetTodos, fetch (headers (Some token)) JUndef "").

Definition createTodoRemote (label token : string) : Route * option Request :=
  (PostTodos, fetch (headers (Some token)) (JObj [("label", JStr label)]) "").

Definition toggleTodoRemote (id : string) (done : bool) (token : string)
  : Route * option Request :=
  (PatchTodo, fetch (headers (Some token)) (JObj [("done", JBool done)]) id).

(** [deleteTodoRemote] sets the header whatever the token is. *)
Definition deleteTodoRemote (id token : string) : Route * option Request :=
  (DeleteTodo, fetch (Some (String.append "Bearer " token)) JUndef id).

Definition fetchAdminOverview (token : string) : Route * option Request :=
  (GetOverview, fetch (headers (Some token)) JUndef "").

(** [errorText[key]], for the keys of the table. *)
Definition errorText (key : string) : option string :=
  if Js.seq key "email-in-use" then Some "Email already used"
  else if Js.seq key "invalid-credentials" then Some "Check credentials"
  else if Js.seq key "validation-error" then Some "Fix the fields"
  else if Js.seq key "missing-token" then Some "Session missing"
  else if Js.seq key "forbidden" then Some "Not allowed"
  else None.

(** [toError] on an [Error] with message [m]. *)
Definition toError (m : string) : string := Js.or_str (errorText m) m.

(** The part of the state of [App] the task handlers use. *)
Record Board : Type := mkBoard {
  session : option (string * JVal);    (* token and profile *)
  todos : list JVal;
  draft : string;
  pulse : string;
  todoBusy : bool
}.

Inductive Filter : Type := all | open | done.

Definition filteredTodos (filter : Filter) (ts : list JVal) : list JVal :=
  match filter with
  | open => List.filter (fun todo => negb (truthy (prop "done" todo))) ts
  | done => List.filter (fun todo => truthy (prop "done" todo)) ts
  | all => ts
  end.

Definition remaining (ts : list JVal) : nat :=
  length (List.filter (fun todo => negb (truthy (prop "done" todo))) ts).

Section Handlers.
Context `{Ext : Externals}.

(** The outcome of a call at the server state [st]; [None] when the
    request does not reach the handler. *)
Definition answer (call : Route * option Request) (st : State) (e : Env)
  : option Outcome :=
  match snd call with
  | Some req => Some (handle (fst call) st req e)
  | None => None
  end.

(** Each handler runs against the server state [st]; [None] is a
    request that does not reach the handler or a reply outside of
    [Parsed] and [Failed]. *)
Definition addTodo (b : Board) (st : State) (e : Env) : option (Board * State) :=
  match session b with
  | None => Some (b, st)
  | Some (token, _) =>
      if todoBusy b then Some (b, st)
      else
        let trimmed := Js.trim (draft b) in
        if Js.seq trimmed "" then Some (b, st)
        else
          match answer (createTodoRemote trimmed token) st e with
          | None => None
          | Some o =>
              match request (resp o) with
              | Parsed v =>
                  Some (mkBoard (session b) (prop "todo" v :: todos b) "" "Saved"
                                false,
                        commit o st)
              | Failed m =>
                  Some (mkBoard (session b) (todos b) (draft b) (toError m) false,
                        commit o st)
              | Other => None
              end
          end
  end.

Definition toggleTodo (id : string) (b : Board) (st : State) (e : Env)
  : option (Board * State) :=
  match session b with
  | None => Some (b, st)
  | Some (token, _) =>
      match find (fun todo => is_str (prop "id" todo) id) (todos b) with
      | None => Some (b, st)
      | Some target =>
          match answer (toggleTodoRemote id (negb (truthy (prop "done" target)))
                                         token) st e with
          | None => None
          | Some o =>
              match request (resp o) with
              | Parsed v =>
                  Some (mkBoard (session b)
                                (map (fun item => if is_str (prop "id" item) id
                                                  then prop "todo" v else item)
                                     (todos b))
                                (draft b) (pulse b) (todoBusy b),
                        commit o st)
              | Failed m =>
                  Some (mkBoard (session b) (todos b) (draft b) (toError m)
                                (todoBusy b),
                        commit o st)
              | Other => None
              end
          end
      end
  end.

Definition removeTodo (id : string) (b : Board) (st : State) (e : Env)
  : option (Board * State) :=
  match session b with
  | None => Some (b, st)
  | Some (token, _) =>
      match answer (deleteTodoRemote id token) st e with
      | None => None
      | Some o =>
          match request_delete (resp o) with
          | Parsed _ =>
              Some (mkBoard (session b)
                            (List.filter (fun todo => negb (is_str (prop "id" todo) id))
                                         (todos b))
                            (draft b) "Removed" (todoBusy b),
                    commit o st)
          | Failed m =>
              Some (mkBoard (session b) (todos b) (draft b) (toError m) (todoBusy b),
                    commit o st)
          | Other => None
          end
      end
  end.

(** The board shows the caller's task list as the server stores it:
    the board has a token, a request of the client with that token
    reaches [requireAuth] and passes it, and the tasks on the board are
    those of the account it resolves to. *)
Definition mirrors (b : Board) (st : State) : Prop :=
  exists token profile req auth,
    session b = Some (token, profile)
    /\ fetch (headers (Some token)) JUndef "" = Some req
    /\ requireAuth st req false = inr auth
    /\ todos b = map todoObj (or_empty (acc_todos (auth_user auth))).

End Handlers.

End Client.

(* ===================================================================== *)
(** * Cross-origin requests *)
(* ===================================================================== *)

Module Cors.

(** [s.split(sep)] for a one-character separator. *)
Fixpoint split (sep : ascii) (s : string) : list string :=
  match s with
  | EmptyString => [EmptyString]
  | String c r =>
      if bool_decide (c = sep) then EmptyString :: split sep r
      else match split sep r with
           | h :: t => String c h :: t
           | [] => [String c EmptyString]
           end
  end.

(** [(process.env.CLIENT_ORIGINS || '...').split(',')
      .map((item) => item.trim()).filter(Boolean)]. *)
Definition ALLOWED_ORIGINS (CLIENT_ORIGINS : option string) : list string :=
  List.filter (fun item => negb (Js.seq item ""))
    (map Js.trim
       (split ","
          (Js.or_str CLIENT_ORIGINS "http://localhost:5173,http://127.0.0.1:5173"))).

(** The [origin] callback of the [cors] options: [true] where it calls
    back with [(null, true)], [false] where it calls back with an
    error. *)
Definition origin (allowed : list string) (o : option string) : bool :=
  match o with
  | None | Some EmptyString => true
  | Some s => bool_decide (s ∈ allowed)
  end.

End Cors.

(* ===================================================================== *)
(** * A board for the concrete instance *)
(* ===================================================================== *)

Module Demo.

(** Ada's token as a copy with a blank at its end has it. *)
Definition padded_token : string := "tok-1 ".

(** Ada's board right after she registered, with a draft typed in. *)
Definition board : Client.Board :=
  Client.mkBoard (Some ("tok-1", profile Sample.ada)) [] "  buy milk  " "" false.

(** Her board once the task is added. *)
Definition milk_board : Client.Board :=
  Client.mkBoard (Some ("tok-1", profile Sample.ada)) [todoObj Sample.milk]
                 "" "Saved" false.

End Demo.

(** The code unit [c] occurs in [s]. *)
Fixpoint occurs (c : ascii) (s : string) : Prop :=
  match s with
  | EmptyString => False
  | String a r => a = c \/ occurs c r
  end.

(** [pieces.join(sep)]. *)
Fixpoint join (sep : ascii) (pieces : list string) : string :=
  match pieces with
  | [] => EmptyString
  | [p] => p
  | p :: r => String.append p (String sep (join sep r))
  end.

(* ===================================================================== *)
(** * [hydrate] *)
(* ===================================================================== *)

Module App.
Section Hydrate.
Context `{Ext : Externals}.

(** [hydrate(token)]: the session and the task list are fetched
    together; on success the board takes both and the token is kept in
    [localStorage], on an error the board is signed out, the stored
    token removed and the error shown.  The result is the board and the
    stored token; [None] is a request that does not reach the handler,
    a reply outside of [Parsed] and [Failed], or a task list that is no
    array. *)
Definition hydrate (token : string) (b : Client.Board) (st : State) (e : Env)
  : option (Client.Board * option string) :=
  let signed_out := fun m =>
    Some (Client.mkBoard None [] (Client.draft b) (Client.toError m)
                         (Client.todoBusy b), None) in
  match Client.answer (Client.fetchSession token) st e,
        Client.answer (Client.fetchTodos token) st e with
  | Some s, Some t =>
      match Client.request (resp s), Client.request (resp t) with
      | Client.Parsed vs, Client.Parsed vt =>
          match prop "todos" vt with
          | JArr items =>
              Some (Client.mkBoard (Some (token, prop "profile" vs)) items
                                   (Client.draft b) (Client.pulse b)
                                   (Client.todoBusy b),
                    Some token)
          | _ => None
          end
      | Client.Failed m, _ => signed_out m
      | Client.Parsed _, Client.Failed m => signed_out m
      | _, _ => None
      end
  | _, _ => None
  end.

End Hydrate.
End App.

(* ===================================================================== *)
(** * Properties *)
(* ===================================================================== *)

(** ** Strings *)

Lemma seq_true (a b : string) : Js.seq a b = true <-> a = b.
Proof. unfold Js.seq. apply bool_decide_eq_true. Qed.

Lemma seq_false (a b : string) : Js.seq a b = false <-> a <> b.
Proof. unfold Js.seq. apply bool_decide_eq_false. Qed.

Lemma seq_refl (a : string) : Js.seq a a = true.
Proof. by apply seq_true. Qed.

Lemma lower_char_idem (c : ascii) :
  Js.lower_char (Js.lower_char c) = Js.lower_char c.
Proof. destruct c as [[] [] [] [] [] [] [] []]; reflexivity. Qed.

Example lower_char_capitals :
  map (fun n => Js.code (Js.lower_char (ascii_of_N n))) [65; 90; 91; 201; 215; 222; 223]%N
  = [97; 122; 91; 233; 215; 254; 223]%N.
Proof. reflexivity. Qed.

Lemma toLowerCase_idem (s : string) :
  Js.toLowerCase (Js.toLowerCase s) = Js.toLowerCase s.
Proof.
  induction s as [|c r IH]; simpl; [done|].
  by rewrite lower_char_idem, IH.
Qed.

Lemma startsWith_append (p s : string) : Js.startsWith p (String.append p s) = true.
Proof.
  induction p as [|c p IH]; simpl; [done|].
  rewrite IH. by rewrite bool_decide_eq_true_2.
Qed.

Lemma drop_append (p s : string) : Js.drop (String.length p) (String.append p s) = s.
Proof. induction p as [|c p IH]; simpl; done. Qed.

(** The token of a header [Bearer <token>] is what follows the prefix. *)
Lemma replace_prefix (p s : string) :
  Js.replace p "" (String.append p s) = s.
Proof.
  destruct (String.append p s) eqn:E; simpl.
  - destruct p; simpl in *; [by subst|discriminate].
  - rewrite <- E, startsWith_append, drop_append. done.
Qed.

(** ** [find] and [find_at] *)

Lemma find_at_Some {A} (f : A -> bool) (l : list A) i x :
  find_at f l = Some (i, x) ->
  l !! i = Some x /\ f x = true /\
  (forall j y, (j < i)%nat -> l !! j = Some y -> f y = false).
Proof.
  revert i x. induction l as [|a l IH]; intros i x; simpl; [done|].
  destruct (f a) eqn:Fa.
  - intros [= <- <-]. repeat split; [done|]. intros; lia.
  - destruct (find_at f l) as [[k y]|] eqn:E; [|done].
    intros [= <- <-]. destruct (IH _ _ eq_refl) as (H1 & H2 & H3).
    repeat split; [done..|].
    intros [|j] z Hj; simpl; [by intros [= <-]|].
    apply H3. lia.
Qed.

Lemma find_at_None {A} (f : A -> bool) (l : list A) :
  find_at f l = None <-> Forall (fun x => f x = false) l.
Proof.
  induction l as [|a l IH]; simpl; [by split; [constructor|]|].
  destruct (f a) eqn:Fa.
  - split; [done|]. intros H. inversion H; congruence.
  - destruct (find_at f l) as [[k y]|].
    + split; [done|]. intros H. inversion H as [|? ? ? H']. by apply IH in H'.
    + split; [|done]. intros _. constructor; [done|]. by apply IH.
Qed.

Lemma find_at_is_Some {A} (f : A -> bool) (l : list A) x :
  x ∈ l -> f x = true -> is_Some (find_at f l).
Proof.
  intros Hin Hf. destruct (find_at f l) eqn:E; [done|].
  apply find_at_None in E. rewrite Forall_forall in E.
  specialize (E x Hin). congruence.
Qed.

(** ** Authorization *)

Lemma reader_for_partition (r : Role) (st : State) :
  reader_for r st = partition (writer_for r) st.
Proof. unfold reader_for, writer_for. by destruct (decide (r = RAdmin)). Qed.

Lemma find_at_id_absent (uid : string) (l : list Account) :
  uid ∉ map acc_id l ->
  find_at (fun entry => Js.seq (acc_id entry) uid) l = None.
Proof.
  intros Hn. apply find_at_None, Forall_forall. intros a Ha.
  apply seq_false. intros <-. apply Hn.
  apply list_elem_of_fmap. by exists a.
Qed.

Lemma find_at_id_present (uid : string) (l : list Account) :
  uid ∈ map acc_id l ->
  exists i a,
    find_at (fun entry => Js.seq (acc_id entry) uid) l = Some (i, a)
    /\ l !! i = Some a /\ acc_id a = uid
    /\ (forall j b, (j < i)%nat -> l !! j = Some b -> acc_id b <> uid).
Proof.
  intros Hin. apply list_elem_of_fmap in Hin as (a & -> & Ha).
  destruct (find_at_is_Some (fun entry => Js.seq (acc_id entry) (acc_id a)) l a Ha)
    as [[i b] E]; [apply seq_refl|].
  exists i, b. split; [done|].
  apply find_at_Some in E as (H1 & H2 & H3).
  apply seq_true in H2. repeat split; [done..|].
  intros j c Hj Hc. apply seq_false. by eapply H3.
Qed.

(** C2. [requireAuth] answers, in this order: 401 missing-token when the
    Authorization header carries no bearer token; 401 invalid-token when
    the session map has no entry for the token; 401 invalid-token when
    the partition chosen by the session's role, read from the current
    files, holds no account with the session's user id; 403 forbidden
    when the admin role is required and the session is not an admin's;
    and otherwise the first account of that partition with the session's
    id (its [todos] defaulted), the partition list holding it, and the
    writer of that same partition. *)
Theorem requireAuth_order (st : State) (req : Request) (requireAdmin : bool) :
  let hdr := Js.or_str (authorization req) "" in
  let token := Js.replace "Bearer " "" hdr in
  (Js.startsWith "Bearer " hdr = false ->
   requireAuth st req requireAdmin = inl (reply 401 (message "missing-token")))
  /\
  (Js.startsWith "Bearer " hdr = true ->
   (sessions st !! token = None ->
    requireAuth st req requireAdmin = inl (reply 401 (message "invalid-token")))
   /\
   (forall s, sessions st !! token = Some s ->
      let part := partition (writer_for (role s)) st in
      (userId s ∉ map acc_id part ->
       requireAuth st req requireAdmin
       = inl (reply 401 (message "invalid-token")))
      /\
      (userId s ∈ map acc_id part ->
       (requireAdmin = true /\ role s <> RAdmin ->
        requireAuth st req requireAdmin = inl (reply 403 (message "forbidden")))
       /\
       (requireAdmin = false \/ role s = RAdmin ->
        exists i a,
          part !! i = Some a /\ acc_id a = userId s
          /\ (forall j b, (j < i)%nat -> part !! j = Some b -> acc_id b <> userId s)
          /\ requireAuth st req requireAdmin
             = inr (mkAuth i (set_todos a (or_empty (acc_todos a)))
                           (<[i := set_todos a (or_empty (acc_todos a))]> part)
                           (writer_for (role s)) token (role s)))))).
Proof.
  intros hdr token. unfold requireAuth. fold hdr. fold token. split.
  - intros ->. done.
  - intros ->. simpl negb. cbv iota. unfold getSession. split.
    + intros ->. done.
    + intros s ->. cbv zeta. rewrite reader_for_partition. split.
      * intros Hn. by rewrite find_at_id_absent.
      * intros Hin.
        destruct (find_at_id_present _ _ Hin) as (i & a & E & Hi & Ha & Hfirst).
        rewrite E. split.
        -- intros [-> Hr]. by rewrite bool_decide_eq_false_2.
        -- intros Hok. exists i, a. repeat split; [done..|].
           destruct Hok as [-> | Hr]; [done|].
           rewrite bool_decide_eq_true_2 by done.
           by rewrite andb_false_r.
Qed.

(** [requireAuth] at work: Ada's token, issued at registration, resolves to
    her account in the users partition. *)
Lemma requireAuth_order_witness :
  exists auth,
    requireAuth Sample.ada_state (Sample.bearer "tok-1" JUndef "") false = inr auth
    /\ acc_email (auth_user auth) = "ada@x.com"
    /\ auth_writer auth = writeUsers.
Proof.
  destruct (requireAuth_order Sample.ada_state (Sample.bearer "tok-1" JUndef "") false)
    as [_ H].
  destruct (H eq_refl) as [_ H'].
  destruct (H' (mkSession "id-1" RUser 101) ltac:(vm_compute; reflexivity)) as [_ H''].
  destruct (H'' ltac:(vm_compute; apply list_elem_of_here)) as [_ Hok].
  destruct (Hok (or_introl eq_refl)) as (i & a & Hi & Ha & _ & E).
  eexists. split; [exact E|]. split; [|reflexivity].
  destruct i as [|i]; [|destruct i; vm_compute in Hi; discriminate].
  vm_compute in Hi. by injection Hi as <-.
Defined.

(** What a successful [requireAuth] tells about the state. *)
Lemma requireAuth_inr st req requireAdmin auth :
  requireAuth st req requireAdmin = inr auth ->
  exists s a,
    sessions st !! auth_token auth = Some s
    /\ find_at (fun entry => Js.seq (acc_id entry) (userId s))
               (partition (auth_writer auth) st) = Some (auth_index auth, a)
    /\ auth_user auth = set_todos a (or_empty (acc_todos a))
    /\ auth_list auth = <[auth_index auth := auth_user auth]> (partition (auth_writer auth) st)
    /\ auth_writer auth = writer_for (role s)
    /\ auth_role auth = role s
    /\ auth_token auth = Js.replace "Bearer " "" (Js.or_str (authorization req) "")
    /\ (requireAdmin = true -> role s = RAdmin).
Proof.
  unfold requireAuth.
  destruct (Js.startsWith _ _); simpl negb; cbv iota; [|done].
  unfold getSession.
  destruct (sessions st !! _) as [s|] eqn:Es; [|done].
  cbv zeta. rewrite reader_for_partition.
  destruct (find_at _ _) as [[i a]|] eqn:Ef; [|done].
  destruct (requireAdmin && _) eqn:Eadm; [done|].
  intros [= <-]. simpl. exists s, a. repeat split; try done.
  intros ->. simpl in Eadm. apply negb_false_iff, bool_decide_eq_true in Eadm. done.
Qed.

Lemma auth_user_in_list st req requireAdmin auth :
  requireAuth st req requireAdmin = inr auth ->
  (auth_index auth < length (partition (auth_writer auth) st))%nat.
Proof.
  intros H. apply requireAuth_inr in H as (s & a & _ & Hf & _).
  apply find_at_Some in Hf as [Hi _]. by apply lookup_lt_Some in Hi.
Qed.

(** ** Task routes *)

Lemma filter_keeps_all {A} (f : A -> bool) (l : list A) :
  length (List.filter f l) = length l <-> Forall (fun x => f x = true) l.
Proof.
  induction l as [|a l IH]; simpl; [by split; [constructor|]|].
  pose proof (List.filter_length_le f l) as Hle.
  destruct (f a) eqn:Fa; simpl.
  - split.
    + intros H. constructor; [done|]. apply IH. lia.
    + intros H. inversion H; subst. f_equal. by apply IH.
  - split; [lia|]. intros H. inversion H; congruence.
Qed.

Lemma todo_id_absent (id : string) (ts : list Todo) :
  id ∉ map todo_id ts <->
  Forall (fun item => negb (Js.seq (todo_id item) id) = true) ts.
Proof.
  rewrite Forall_forall. split.
  - intros Hn t Ht. apply negb_true_iff, seq_false. intros <-.
    apply Hn, list_elem_of_fmap. by exists t.
  - intros H Hin. apply list_elem_of_fmap in Hin as (t & -> & Ht).
    specialize (H t Ht). by rewrite seq_refl in H.
Qed.

(** C6. A delete whose id is absent from the caller's task list answers
    404 not-found, issues no partition write and leaves the whole state
    (both files and the session map) as it was. *)
Theorem delete_todo_miss (st : State) (req : Request) (auth : Auth) :
  requireAuth st req false = inr auth ->
  param_id req ∉ todo_ids (auth_user auth) ->
  resp (delete_todo st req) = reply 404 (message "not-found")
  /\ write (delete_todo st req) = None
  /\ commit (delete_todo st req) st = st.
Proof.
  intros Hauth Hmiss. unfold delete_todo. rewrite Hauth. cbv zeta.
  apply todo_id_absent, filter_keeps_all in Hmiss.
  rewrite bool_decide_eq_true_2 by exact Hmiss. done.
Qed.

Lemma delete_todo_miss_witness :
  let req := Sample.bearer "tok-1" JUndef "id-9" in
  resp (delete_todo Sample.milk_state req) = reply 404 (message "not-found")
  /\ write (delete_todo Sample.milk_state req) = None
  /\ usersFile (commit (delete_todo Sample.milk_state req) Sample.milk_state)
     = [mkAccount "id-1" "Ada" "ada@x.com" "salt-1$secret1" 101 RUser
                  (Some [mkTodo "id-2" "buy milk" false 102])].
Proof.
  intros req.
  destruct (delete_todo_miss Sample.milk_state req Sample.ada_auth)
    as (H1 & H2 & H3).
  - vm_compute. reflexivity.
  - vm_compute. intros Hin. apply list_elem_of_singleton in Hin. discriminate.
  - split; [exact H1|]. split; [exact H2|]. by rewrite H3.
Defined.

Lemma todoCreateSchema_label (l : string) (b : JVal) :
  todoCreateSchema b = Some l ->
  prop "label" b = JStr l /\ 1 <= Js.length l <= 140.
Proof.
  unfold todoCreateSchema, z_object. destruct b; try done. simpl.
  unfold z_string. destruct (field "label" fields); try done.
  destruct (_ && _) eqn:E; [|done]. intros [= ->].
  apply andb_true_iff in E as [E1 E2]. split; [done|]. lia.
Qed.

(** What POST /api/todos does for an authenticated caller whose body
    passes the schema: the length test is on the label as sent, the
    stored label is the trimmed one. *)
Lemma post_todos_created st req e auth l :
  requireAuth st req false = inr auth ->
  todoCreateSchema (body req) = Some l ->
  post_todos st req e
  = mkOutcome
      (reply 201 (JObj [("todo", todoObj (mkTodo (uuid e) (Js.trim l) false (now e)))]))
      (Some (auth_writer auth,
             <[auth_index auth :=
                 set_todos (auth_user auth)
                   (mkTodo (uuid e) (Js.trim l) false (now e)
                    :: or_empty (acc_todos (auth_user auth)))]> (auth_list auth)))
      None.
Proof. intros Ha Hl. unfold post_todos. by rewrite Ha, Hl. Qed.

(** C3 (the code departs from it). A label of three spaces passes
    [todoCreateSchema], whose length test runs before [trim]: Ada's
    request is answered 201 and a task with the empty label is written
    to the users partition. *)
Theorem post_todos_blank_label :
  let req := Sample.bearer "tok-1" (Sample.label_body "   ") "" in
  let o := post_todos Sample.ada_state req (Sample.env "2" 102) in
  todoCreateSchema (body req) = Some "   "
  /\ status (resp o) = 201
  /\ json (resp o) = Some (JObj [("todo", todoObj (mkTodo "id-2" "" false 102))])
  /\ usersFile (commit o Sample.ada_state)
     = [mkAccount "id-1" "Ada" "ada@x.com" "salt-1$secret1" 101 RUser
                  (Some [mkTodo "id-2" "" false 102])].
Proof. vm_compute. repeat split. Qed.

Example post_todos_buy_milk :
  json (resp (post_todos Sample.ada_state
                (Sample.bearer "tok-1" (Sample.label_body "  buy milk  ") "")
                (Sample.env "2" 102)))
  = Some (JObj [("todo", todoObj (mkTodo "id-2" "buy milk" false 102))]).
Proof. vm_compute. reflexivity. Qed.

Lemma find_at_intro {A} (f : A -> bool) (l : list A) i x :
  l !! i = Some x -> f x = true ->
  (forall j y, (j < i)%nat -> l !! j = Some y -> f y = false) ->
  find_at f l = Some (i, x).
Proof.
  revert i. induction l as [|a l IH]; intros i Hi Hx Hfirst; [done|].
  destruct i as [|i]; simpl in *.
  - injection Hi as ->. by rewrite Hx.
  - rewrite (Hfirst 0%nat a) by (simpl; done || lia).
    rewrite (IH i); [done..|].
    intros j y Hj Hy. apply (Hfirst (S j)); [lia|done].
Qed.

Lemma find_at_insert {A} (f : A -> bool) (l : list A) i x y :
  find_at f l = Some (i, x) -> f y = true ->
  find_at f (<[i := y]> l) = Some (i, y).
Proof.
  intros Hf Hy. apply find_at_Some in Hf as (H1 & H2 & H3).
  apply find_at_intro; [|done|].
  - apply list_lookup_insert_eq. by apply lookup_lt_Some in H1.
  - intros j z Hj. rewrite list_lookup_insert_ne by lia. by apply H3.
Qed.

Lemma persist_partition w l st : partition w (persist (Some (w, l)) st) = l.
Proof. by destruct w. Qed.

Lemma persist_same w st : persist (Some (w, partition w st)) st = st.
Proof. by destruct w, st. Qed.

Lemma persist_sessions w st : sessions (persist w st) = sessions st.
Proof. by destruct w as [[[] ?]|]. Qed.

Lemma set_todos_id a ts : acc_id (set_todos a ts) = acc_id a.
Proof. done. Qed.

Lemma set_todos_twice a ts ts' : set_todos (set_todos a ts) ts' = set_todos a ts'.
Proof. done. Qed.

(** After a handler wrote [user'] over the caller's slot, [requireAuth]
    resolves the same token to [user']. *)
Lemma requireAuth_after_save st req auth ts :
  requireAuth st req false = inr auth ->
  let user' := set_todos (auth_user auth) ts in
  let st' := persist (save auth user') st in
  requireAuth st' req false
  = inr (mkAuth (auth_index auth) user' (partition (auth_writer auth) st')
                (auth_writer auth) (auth_token auth) (auth_role auth)).
Proof.
  intros Hauth user' st'.
  pose proof (requireAuth_inr _ _ _ _ Hauth)
    as (s & a & Hs & Hf & Hu & Hl & Hw & Hr & Ht & _).
  assert (Hpart : partition (auth_writer auth) st'
                  = <[auth_index auth := user']> (partition (auth_writer auth) st)).
  { unfold st', save. rewrite persist_partition, Hl. apply list_insert_insert_eq. }
  unfold requireAuth in *.
  destruct (Js.startsWith _ _); simpl negb in *; cbv iota in *; [|done].
  unfold getSession in *. rewrite <- Ht in *.
  unfold st' at 1. rewrite persist_sessions, Hs. cbv zeta.
  rewrite reader_for_partition, <- Hw, Hpart.
  rewrite (find_at_insert _ _ _ a user' Hf).
  2:{ apply find_at_Some in Hf as (_ & Hid & _). unfold user'. by rewrite Hu. }
  simpl. rewrite <- Hr. f_equal.
  rewrite list_insert_insert_eq. done.
Qed.

Lemma commit_quiet r w st : commit (mkOutcome r w None) st = persist w st.
Proof. done. Qed.

Lemma patch_todo_hit st req auth j t :
  requireAuth st req false = inr auth ->
  find_at (fun item => Js.seq (todo_id item) (param_id req))
          (or_empty (acc_todos (auth_user auth))) = Some (j, t) ->
  let d := match prop "done" (body req) with
           | JBool b => b
           | _ => negb (todo_done t)
           end in
  patch_todo st req
  = mkOutcome (reply 200 (JObj [("todo", todoObj (set_done t d))]))
              (save auth (set_todos (auth_user auth)
                            (<[j := set_done t d]> (or_empty (acc_todos (auth_user auth))))))
              None.
Proof. intros Ha Hf. unfold patch_todo. by rewrite Ha, Hf. Qed.

(** C5. For an authenticated caller and the task [t] that carries the
    requested id in the caller's own list (the first such, at position
    [j]): a body without a boolean [done] stores the negation of the
    task's flag; a body with [done: b] stores [b]: the task answered
    and the task at position [j] of the caller's stored list is [t]
    with that flag, its id, label and creation time kept; after a
    request with
    [done: true] the same request again answers alike and changes
    nothing.  An id that is not in the caller's own list, wherever else
    it may occur, answers 404 not-found and writes nothing. *)
Theorem patch_todo_toggle (st : State) (req : Request) (auth : Auth) :
  requireAuth st req false = inr auth ->
  let user := auth_user auth in
  let todos := or_empty (acc_todos user) in
  let st' := commit (patch_todo st req) st in
  let stored := fun d j t =>
    let t' := mkTodo (todo_id t) (todo_label t) d (todo_createdAt t) in
    todo_done t' = d
    /\ resp (patch_todo st req) = reply 200 (JObj [("todo", todoObj t')])
    /\ prop "done" (todoObj t') = JBool d
    /\ partition (auth_writer auth) st'
       = <[auth_index auth := set_todos user (<[j := t']> todos)]> (auth_list auth)
    /\ partition (auth_writer auth) st' !! auth_index auth
       = Some (mkAccount (acc_id user) (acc_name user) (acc_email user)
                         (acc_passwordHash user) (acc_createdAt user)
                         (acc_role user) (Some (<[j := t']> todos)))
    /\ <[j := t']> todos !! j = Some t' in
  (forall j t,
     todos !! j = Some t -> todo_id t = param_id req ->
     (forall k u, (k < j)%nat -> todos !! k = Some u -> todo_id u <> param_id req) ->
     ((forall b, prop "done" (body req) <> JBool b) ->
      stored (negb (todo_done t)) j t)
     /\ (forall b, prop "done" (body req) = JBool b -> stored b j t)
     /\ (prop "done" (body req) = JBool true ->
         commit (patch_todo st' req) st' = st'
         /\ resp (patch_todo st' req) = resp (patch_todo st req)))
  /\ (param_id req ∉ map todo_id todos ->
      resp (patch_todo st req) = reply 404 (message "not-found")
      /\ write (patch_todo st req) = None
      /\ st' = st).
Proof.
  intros Hauth user todos st' stored. split.
  - intros j t Hj Hid Hfirst.
    assert (Hf : find_at (fun item => Js.seq (todo_id item) (param_id req)) todos
                 = Some (j, t)).
    { apply find_at_intro; [done|by apply seq_true|].
      intros k u Hk Hu. apply seq_false. by eapply Hfirst. }
    pose proof (patch_todo_hit _ _ _ _ _ Hauth Hf) as Hp. cbv zeta in Hp.
    assert (Hst : forall d,
      (match prop "done" (body req) with JBool b => b | _ => negb (todo_done t) end) = d ->
      stored d j t).
    { intros d Hd. rewrite Hd in Hp. unfold stored, st'. cbv zeta. rewrite Hp.
      split; [done|]. split; [done|]. split; [done|].
      rewrite commit_quiet. unfold save. rewrite persist_partition.
      split; [done|]. split.
      - apply list_lookup_insert_eq.
        pose proof (requireAuth_inr _ _ _ _ Hauth) as (_ & _ & _ & _ & _ & Hl & _).
        rewrite Hl, length_insert. by eapply auth_user_in_list.
      - apply list_lookup_insert_eq. by eapply lookup_lt_Some. }
    split; [|split].
    + intros Hnb. apply Hst. destruct (prop "done" (body req)); try done.
      by destruct (Hnb b).
    + intros b Hb. apply Hst. by rewrite Hb.
    + intros Hb. rewrite Hb in Hp.
      set (t' := set_done t true) in *.
      set (ts' := <[j := t']> todos) in *.
      assert (Est : st' = persist (save auth (set_todos user ts')) st).
      { unfold st'. by rewrite Hp. }
      pose proof (requireAuth_after_save st req auth ts' Hauth) as Hauth'.
      cbv zeta in Hauth'. fold user in Hauth'. rewrite <- Est in Hauth'.
      assert (Hf' : find_at (fun item => Js.seq (todo_id item) (param_id req)) ts'
                    = Some (j, t')).
      { apply (find_at_insert _ _ _ t t' Hf). by apply seq_true. }
      pose proof (patch_todo_hit _ _ _ _ _ Hauth' Hf') as Hp'.
      cbv zeta in Hp'. rewrite Hb in Hp'. simpl in Hp'.
      rewrite Hp', Hp. split; [|done].
      rewrite commit_quiet. unfold save. cbn [auth_index auth_user auth_list auth_writer].
      replace (set_done t' true) with t' by done.
      unfold ts'. rewrite list_insert_insert_eq. fold ts'.
      rewrite set_todos_twice.
      pose proof (requireAuth_inr _ _ _ _ Hauth') as (_ & _ & _ & _ & _ & Hl & _).
      simpl in Hl. rewrite <- Hl. apply persist_same.
  - intros Hmiss.
    assert (Hf : find_at (fun item => Js.seq (todo_id item) (param_id req)) todos = None).
    { apply find_at_None, Forall_forall. intros u Hu. apply seq_false.
      intros E. apply Hmiss, list_elem_of_fmap. by exists u. }
    unfold st', patch_todo. rewrite Hauth. cbv zeta. fold user. fold todos.
    rewrite Hf. by destruct st.
Qed.

Lemma patch_todo_toggle_witness :
  let req := Sample.bearer "tok-1" (JObj []) "id-2" in
  resp (patch_todo Sample.milk_state req)
  = reply 200 (JObj [("todo", todoObj (mkTodo "id-2" "buy milk" true 102))])
  /\ usersFile (commit (patch_todo Sample.milk_state req) Sample.milk_state)
     = [mkAccount "id-1" "Ada" "ada@x.com" "salt-1$secret1" 101 RUser
                  (Some [mkTodo "id-2" "buy milk" true 102])].
Proof.
  intros req.
  destruct (patch_todo_toggle Sample.milk_state req Sample.ada_auth) as [Hhit _].
  - vm_compute. reflexivity.
  - destruct (Hhit 0%nat Sample.milk) as [Hflip _].
    + vm_compute. reflexivity.
    + vm_compute. reflexivity.
    + intros k u Hk. lia.
    + destruct Hflip as (_ & H1 & _ & H2 & _).
      * intros b. vm_compute. discriminate.
      * split; [exact H1|]. exact H2.
Defined.

(** ** Responses never carry the password hash *)

Lemma mentions_obj_cons k k' x r :
  mentions k (JObj ((k', x) :: r))
  = Js.seq k' k || mentions k x || mentions k (JObj r).
Proof. reflexivity. Qed.

Lemma mentions_arr_cons k x r :
  mentions k (JArr (x :: r)) = mentions k x || mentions k (JArr r).
Proof. reflexivity. Qed.

Lemma mentions_arr k (l : list JVal) :
  Forall (fun x => mentions k x = false) l -> mentions k (JArr l) = false.
Proof.
  induction 1 as [|x l Hx _ IH]; [done|].
  by rewrite mentions_arr_cons, Hx, IH.
Qed.

Lemma todoObj_clean (t : Todo) : mentions "passwordHash" (todoObj t) = false.
Proof. reflexivity. Qed.

Lemma todosArr_clean (ts : list Todo) :
  mentions "passwordHash" (todosArr ts) = false.
Proof.
  apply mentions_arr, Forall_forall. intros x Hx.
  apply list_elem_of_fmap in Hx as (t & -> & _). apply todoObj_clean.
Qed.

Lemma message_clean (m : string) : mentions "passwordHash" (message m) = false.
Proof. reflexivity. Qed.

(** [scrubMember] removes the key, whatever the object. *)
Lemma scrubMember_drops_key (fs : list (string * JVal)) :
  field "passwordHash" (scrubMember fs) = JUndef.
Proof.
  induction fs as [|[k v] fs IH]; [done|].
  unfold scrubMember in *. simpl.
  destruct (Js.seq k "passwordHash") eqn:E; [done|].
  simpl. by rewrite E.
Qed.

Lemma profile_clean (a : Account) : mentions "passwordHash" (profile a) = false.
Proof.
  unfold profile, accountFields. destruct (acc_todos a) as [ts|]; [|reflexivity].
  change (mentions "passwordHash" (todosArr ts) || false = false).
  by rewrite todosArr_clean.
Qed.

Lemma overviewEntry_clean (a : Account) :
  mentions "passwordHash" (overviewEntry a) = false.
Proof.
  unfold overviewEntry, accountFields.
  destruct (acc_todos a) as [ts|].
  - change (mentions "passwordHash" (todosArr (or_empty (Some ts))) || false = false).
    by rewrite todosArr_clean.
  - reflexivity.
Qed.

Lemma overview_list_clean (l : list Account) :
  mentions "passwordHash" (JArr (map overviewEntry l)) = false.
Proof.
  apply mentions_arr, Forall_forall. intros x Hx.
  apply list_elem_of_fmap in Hx as (a & -> & _). apply overviewEntry_clean.
Qed.

Lemma requireAuth_reject_clean st req adm r :
  requireAuth st req adm = inl r -> clean (respond r).
Proof.
  unfold requireAuth.
  repeat (match goal with
          | |- context [match ?x with _ => _ end] => destruct x
          | |- context [if ?x then _ else _] => destruct x
          end; try done);
    intros [= <-]; reflexivity.
Qed.

Lemma clean_reply c v w i :
  mentions "passwordHash" v = false -> clean (mkOutcome (reply c v) w i).
Proof. done. Qed.

(** C8. Whatever the state and the request, the body answered by any
    route (register, login, session, the task routes, admin overview,
    admin provisioning, health) has no [passwordHash] key in any of its
    objects: profiles go through [scrubMember], overview entries are
    built from a scrubbed account. *)
Theorem responses_hide_passwordHash `{Ext : Externals}
    (r : Route) (st : State) (req : Request) (e : Env) :
  clean (handle r st req e).
Proof.
  destruct r; simpl.
  - reflexivity.
  - unfold post_register. destruct (registerSchema _); [|reflexivity].
    cbv zeta. destruct (or_found _ _); [reflexivity|].
    apply clean_reply.
    rewrite !mentions_obj_cons, profile_clean. reflexivity.
  - unfold post_login. destruct (loginSchema _); [|reflexivity].
    cbv zeta. destruct (find _ (readUsers st)) as [u|].
    + destruct (negb _); [reflexivity|]. apply clean_reply.
      rewrite !mentions_obj_cons, profile_clean. reflexivity.
    + destruct (find _ (readAdmins st)) as [u|]; [|reflexivity].
      destruct (negb _); [reflexivity|]. apply clean_reply.
      rewrite !mentions_obj_cons, profile_clean. reflexivity.
  - unfold get_session. destruct (requireAuth _ _ _) eqn:E.
    + by eapply requireAuth_reject_clean.
    + apply clean_reply. rewrite !mentions_obj_cons, profile_clean. reflexivity.
  - unfold get_todos. destruct (requireAuth _ _ _) eqn:E.
    + by eapply requireAuth_reject_clean.
    + apply clean_reply. rewrite !mentions_obj_cons, todosArr_clean. reflexivity.
  - unfold post_todos. destruct (requireAuth _ _ _) eqn:E.
    + by eapply requireAuth_reject_clean.
    + destruct (todoCreateSchema _); reflexivity.
  - unfold patch_todo. destruct (requireAuth _ _ _) eqn:E.
    + by eapply requireAuth_reject_clean.
    + cbv zeta. destruct (find_at _ _) as [[j t]|]; reflexivity.
  - unfold delete_todo. destruct (requireAuth _ _ _) eqn:E.
    + by eapply requireAuth_reject_clean.
    + cbv zeta. destruct (bool_decide _); reflexivity.
  - unfold get_overview. destruct (requireAuth _ _ _) eqn:E.
    + by eapply requireAuth_reject_clean.
    + apply clean_reply.
      rewrite !mentions_obj_cons, !overview_list_clean. reflexivity.
  - unfold post_admin_users. destruct (requireAuth _ _ _) eqn:E.
    + by eapply requireAuth_reject_clean.
    + destruct (adminCreateUserSchema _); [|reflexivity].
      cbv zeta. destruct (or_found _ _); [reflexivity|].
      apply clean_reply.
      rewrite !mentions_obj_cons, profile_clean. reflexivity.
Qed.

(** ** How the files evolve *)

Lemma seedEmail_lower cfg : Js.toLowerCase (seedEmail cfg) = seedEmail cfg.
Proof. apply toLowerCase_idem. Qed.

Lemma find_none_Forall {A} (f : A -> bool) (l : list A) :
  find f l = None -> Forall (fun x => f x = false) l.
Proof. intros H. apply Forall_forall. intros x Hx. apply (find_none f l H x). by apply list_elem_of_In. Qed.

Lemma or_found_None {A} (f : A -> bool) (l k : list A) :
  or_found (find f l) (find f k) = None -> Forall (fun x => f x = false) (l ++ k).
Proof.
  unfold or_found. destruct (find f l) eqn:E; [done|]. intros E'.
  apply Forall_app. split; by apply find_none_Forall.
Qed.

Lemma or_found_Some {A} (f : A -> bool) (l k : list A) x :
  x ∈ l ++ k -> f x = true -> is_Some (or_found (find f l) (find f k)).
Proof.
  intros Hin Hf. destruct (or_found _ _) eqn:E; [done|].
  apply or_found_None in E. rewrite Forall_forall in E.
  specialize (E x Hin). congruence.
Qed.

Lemma emails_insert (l : list Account) i a ts :
  l !! i = Some a ->
  map acc_email (<[i := set_todos a ts]> l) = map acc_email l.
Proof.
  intros Hi. change (acc_email <$> <[i := set_todos a ts]> l = acc_email <$> l).
  rewrite list_fmap_insert. apply list_insert_id.
  rewrite list_lookup_fmap, Hi. done.
Qed.

(** A task route rewrites the caller's partition with the caller's
    task list replaced and nothing else touched. *)
Lemma save_shape st req adm auth ts :
  requireAuth st req adm = inr auth ->
  exists a,
    partition (auth_writer auth) st !! auth_index auth = Some a
    /\ save auth (set_todos (auth_user auth) ts)
       = Some (auth_writer auth,
               <[auth_index auth := set_todos a ts]> (partition (auth_writer auth) st)).
Proof.
  intros H. apply requireAuth_inr in H as (s & a & _ & Hf & Hu & Hl & _).
  apply find_at_Some in Hf as [Hi _]. exists a. split; [done|].
  unfold save. rewrite Hl, Hu, list_insert_insert_eq. done.
Qed.

Lemma persist_save_change st req adm auth ts :
  requireAuth st req adm = inr auth ->
  change st (persist (save auth (set_todos (auth_user auth) ts)) st).
Proof.
  intros H. destruct (save_shape _ _ _ _ ts H) as (a & Hi & ->).
  apply change_none; destruct (auth_writer auth); simpl in *; try done;
    by apply emails_insert.
Qed.

Lemma change_files st st' :
  usersFile st' = usersFile st -> adminsFile st' = adminsFile st -> change st st'.
Proof. intros Hu Ha. apply change_none; congruence. Qed.

Lemma commit_respond r st : commit (respond r) st = st.
Proof. by destruct st. Qed.

Lemma change_respond r st : change st (commit (respond r) st).
Proof. rewrite commit_respond. by apply change_files. Qed.

Lemma post_register_change `{Ext : Externals} st req e :
  change st (commit (post_register st req e) st).
Proof.
  unfold post_register. destruct (registerSchema _) as [payload|];
    [|apply change_respond].
  cbv zeta. destruct (or_found _ _) eqn:E; [apply change_respond|].
  apply or_found_None in E.
  eapply change_user; [reflexivity..|apply toLowerCase_idem|].
  eapply Forall_impl; [exact E|]. simpl. intros b Hb Heq.
  apply seq_false in Hb. apply Hb. rewrite Heq. apply toLowerCase_idem.
Qed.

Lemma post_login_change `{Ext : Externals} st req e :
  change st (commit (post_login st req e) st).
Proof.
  unfold post_login. destruct (loginSchema _) as [payload|];
    [|apply change_respond].
  cbv zeta. destruct (find _ (readUsers st)) as [u|].
  - destruct (negb _); [apply change_respond|]. by apply change_files.
  - destruct (find _ (readAdmins st)) as [u|]; [|apply change_respond].
    destruct (negb _); [apply change_respond|]. by apply change_files.
Qed.

Lemma post_admin_users_change `{Ext : Externals} st req e :
  change st (commit (post_admin_users st req e) st).
Proof.
  unfold post_admin_users. destruct (requireAuth _ _ _); [apply change_respond|].
  destruct (adminCreateUserSchema _) as [payload|]; [|apply change_respond].
  cbv zeta. destruct (or_found _ _) eqn:E; [apply change_respond|].
  apply or_found_None in E.
  assert (Hnew : Forall (fun b => acc_email b <> Js.toLowerCase (adm_email payload))
                        (accounts st)).
  { eapply Forall_impl; [exact E|]. simpl. intros b Hb. by apply seq_false in Hb. }
  destruct (decide _).
  - eapply change_admin; [reflexivity..|apply toLowerCase_idem|exact Hnew].
  - eapply change_user; [reflexivity..|apply toLowerCase_idem|exact Hnew].
Qed.

(** The seeder leaves the files alone or appends its account to the
    admins, whose e-mails all differ from the seed e-mail. *)
Lemma bootstrap_files `{Ext : Externals} cfg e st :
  usersFile (bootstrap cfg e st) = usersFile st
  /\ (adminsFile (bootstrap cfg e st) = adminsFile st
      \/ (adminsFile (bootstrap cfg e st) = adminsFile st ++ [seedAccount cfg e]
          /\ Forall (fun b => acc_email b <> seedEmail cfg) (adminsFile st))).
Proof.
  unfold bootstrap, ensureSeedAdmin. cbv zeta.
  destruct (find _ _) eqn:E; [by split; [|left]|].
  apply find_none_Forall in E. split; [done|]. right. split; [done|].
  eapply Forall_impl; [exact E|]. simpl. intros b Hb. by apply seq_false in Hb.
Qed.

(** Every request changes the files in one of the ways of [change]. *)
Lemma call_change `{Ext : Externals} r req e st :
  change st (step (Call r req e) st).
Proof.
  destruct r; simpl.
  - apply change_respond.
  - apply post_register_change.
  - apply post_login_change.
  - unfold get_session. destruct (requireAuth _ _ _); apply change_respond.
  - unfold get_todos. destruct (requireAuth _ _ _); apply change_respond.
  - unfold post_todos. destruct (requireAuth _ _ _) eqn:Ha; [apply change_respond|].
    destruct (todoCreateSchema _); [|apply change_respond].
    rewrite commit_quiet. by eapply persist_save_change.
  - unfold patch_todo. destruct (requireAuth _ _ _) eqn:Ha; [apply change_respond|].
    cbv zeta. destruct (find_at _ _) as [[j t]|]; [|apply change_respond].
    rewrite commit_quiet. by eapply persist_save_change.
  - unfold delete_todo. destruct (requireAuth _ _ _) eqn:Ha; [apply change_respond|].
    cbv zeta. destruct (bool_decide _); [apply change_respond|].
    rewrite commit_quiet. by eapply persist_save_change.
  - unfold get_overview. destruct (requireAuth _ _ _); apply change_respond.
  - apply post_admin_users_change.
Qed.

(** ** Invariants of the reachable states *)

Lemma emails_lower_app (us ads : list Account) :
  Forall (fun a => Js.toLowerCase (acc_email a) = acc_email a) (us ++ ads)
  <-> Forall (fun e => Js.toLowerCase e = e) (map acc_email us)
      /\ Forall (fun e => Js.toLowerCase e = e) (map acc_email ads).
Proof. rewrite Forall_app. change map with (@fmap list _). by rewrite !Forall_fmap. Qed.

Lemma change_emails_lower st st' :
  change st st' -> emails_lower st -> emails_lower st'.
Proof.
  unfold emails_lower, accounts.
  intros [Hu Ha|a Hu Ha Hl _|a Hu Ha Hl _] H.
  - apply emails_lower_app. rewrite Hu, Ha. by apply emails_lower_app.
  - rewrite Hu, Ha. apply Forall_app in H as [H1 H2].
    rewrite !Forall_app. repeat split; [done| |done]. by constructor.
  - rewrite Hu, Ha. apply Forall_app in H as [H1 H2].
    rewrite !Forall_app. repeat split; [done..|]. by constructor.
Qed.

Lemma bootstrap_emails_lower `{Ext : Externals} cfg e st :
  emails_lower st -> emails_lower (bootstrap cfg e st).
Proof.
  unfold emails_lower, accounts.
  destruct (bootstrap_files cfg e st) as [-> [-> | [-> _]]]; [done|].
  intros H. apply Forall_app in H as [H1 H2].
  rewrite !Forall_app. repeat split; [done..|].
  constructor; [apply seedEmail_lower|constructor].
Qed.

Lemma change_origin st st' a :
  change st st' -> a ∈ accounts st' ->
  Js.toLowerCase (acc_email a) = acc_email a
  \/ acc_email a ∈ map acc_email (accounts st).
Proof.
  unfold accounts. intros [Hu Ha|b Hu Ha Hl _|b Hu Ha Hl _] Hin.
  - right. rewrite map_app, <- Hu, <- Ha, <- map_app.
    apply list_elem_of_fmap. by exists a.
  - rewrite Hu, Ha in Hin. rewrite !elem_of_app, list_elem_of_singleton in Hin.
    destruct Hin as [[Hin| ->]|Hin]; [right|by left|right];
      apply list_elem_of_fmap; exists a; rewrite elem_of_app; auto.
  - rewrite Hu, Ha in Hin. rewrite !elem_of_app, list_elem_of_singleton in Hin.
    destruct Hin as [Hin|[Hin| ->]]; [right|right|by left];
      apply list_elem_of_fmap; exists a; rewrite elem_of_app; auto.
Qed.

Lemma bootstrap_origin `{Ext : Externals} cfg e st a :
  a ∈ accounts (bootstrap cfg e st) ->
  Js.toLowerCase (acc_email a) = acc_email a
  \/ acc_email a ∈ map acc_email (accounts st).
Proof.
  unfold accounts.
  destruct (bootstrap_files cfg e st) as [-> [-> | [-> _]]]; intros Hin.
  - right. apply list_elem_of_fmap. by exists a.
  - rewrite !elem_of_app, list_elem_of_singleton in Hin.
    destruct Hin as [Hin|[Hin| ->]]; [right|right|left; apply seedEmail_lower];
      apply list_elem_of_fmap; exists a; rewrite elem_of_app; auto.
Qed.

Lemma reachable_emails_lower `{Ext : Externals} st :
  reachable st -> emails_lower st.
Proof.
  intros Hr. induction Hr as [|st ev _ IH]; [constructor|].
  destruct ev as [cfg e|r req e].
  - by apply bootstrap_emails_lower.
  - eapply change_emails_lower; [apply call_change|done].
Qed.

(** C10. Registration stores [payload.email.toLowerCase()], admin
    provisioning stores the lower-cased [email] and the seeder the
    lower-cased seed address, and no route rewrites an e-mail: after any
    step from any state an account either has a lower-case e-mail or an
    e-mail that was stored before the step.  Hence every account of
    either partition, in every state the service reaches from the empty
    files, has a lower-case e-mail. *)
Theorem stored_emails_lower_case `{Ext : Externals} :
  (forall st ev a,
     a ∈ accounts (step ev st) ->
     Js.toLowerCase (acc_email a) = acc_email a
     \/ acc_email a ∈ map acc_email (accounts st))
  /\ (forall st, reachable st -> emails_lower st).
Proof.
  split.
  - intros st [cfg e|r req e] a.
    + apply bootstrap_origin.
    + apply change_origin, call_change.
  - intros st. apply reachable_emails_lower.
Qed.

Lemma ada_reachable : reachable (Ext := Sample.externals) Sample.ada_state.
Proof. do 2 apply (reach_step (Ext := Sample.externals)). apply reach_initial. Qed.

Lemma stored_emails_lower_case_witness :
  emails_lower Sample.ada_state
  /\ map acc_email (accounts Sample.ada_state) = ["ada@x.com"; "owner@winery.board"].
Proof.
  split; [|reflexivity].
  apply (proj2 (stored_emails_lower_case (Ext := Sample.externals))).
  exact ada_reachable.
Defined.

(** ** The seeder *)

Lemma find_email_hit (email : string) (l : list Account) a :
  a ∈ l -> acc_email a = email ->
  is_Some (find (fun user => Js.seq (acc_email user) email) l).
Proof.
  intros Hin He. destruct (find _ l) eqn:E; [done|].
  apply find_none_Forall in E. rewrite Forall_forall in E.
  specialize (E a Hin). simpl in E. apply seq_false in E. done.
Qed.

Lemma seeded_admin_found `{Ext : Externals} cfg e st :
  is_Some (find (fun user => Js.seq (acc_email user) (seedEmail cfg))
                (adminsFile (bootstrap cfg e st))).
Proof.
  unfold bootstrap, ensureSeedAdmin. cbv zeta. unfold readAdmins. simpl adminsFile.
  destruct (find _ (adminsFile st)) eqn:E; simpl; [by rewrite E|].
  apply (find_email_hit _ _ (seedAccount cfg e)); [|done].
  apply elem_of_app. right. apply list_elem_of_here.
Qed.

Lemma bootstrap_again `{Ext : Externals} cfg e e' st :
  bootstrap cfg e' (bootstrap cfg e st) = bootstrap cfg e st.
Proof.
  destruct (seeded_admin_found cfg e st) as [b Hb].
  unfold bootstrap at 1. unfold ensureSeedAdmin. cbv zeta.
  unfold readAdmins. simpl adminsFile. rewrite Hb. simpl.
  unfold bootstrap. by destruct (ensureSeedAdmin _ _ _) as [[[] ?]|].
Qed.

Lemma ensureSeedAdmin_cases `{Ext : Externals} cfg e st :
  emails_lower st ->
  let configured := Js.or_str (ADMIN_EMAIL cfg) "owner@winery.board" in
  let held :=
    exists a, a ∈ adminsFile st
              /\ Js.toLowerCase (acc_email a) = Js.toLowerCase configured in
  (held ->
   ensureSeedAdmin cfg e st = None
   /\ usersFile (bootstrap cfg e st) = usersFile st
   /\ adminsFile (bootstrap cfg e st) = adminsFile st)
  /\
  (~ held ->
   ensureSeedAdmin cfg e st = Some (writeAdmins, adminsFile st ++ [seedAccount cfg e])
   /\ acc_email (seedAccount cfg e) = Js.toLowerCase configured
   /\ acc_role (seedAccount cfg e) = RAdmin
   /\ usersFile (bootstrap cfg e st) = usersFile st
   /\ adminsFile (bootstrap cfg e st) = adminsFile st ++ [seedAccount cfg e]).
Proof.
  intros Hlow configured held.
  unfold emails_lower, accounts in Hlow. apply Forall_app in Hlow as [_ Hlow].
  rewrite Forall_forall in Hlow.
  unfold bootstrap, ensureSeedAdmin. cbv zeta. unfold readAdmins. simpl adminsFile.
  split.
  - intros (a & Hin & Ha).
    destruct (find_email_hit (seedEmail cfg) (adminsFile st) a Hin) as [b ->].
    + rewrite <- (Hlow a Hin). exact Ha.
    + done.
  - intros Hno. destruct (find _ _) as [b|] eqn:E.
    + exfalso. apply Hno. exists b.
      apply find_some in E as [Hin Hb]. apply seq_true in Hb.
      split; [by apply list_elem_of_In|].
      rewrite Hb. apply toLowerCase_idem.
    + done.
Qed.


(** C7. At a startup in any state the service has reached, for the
    configured seed address (the variable [ADMIN_EMAIL] or its default):
    if an admin account holds it up to letter case, the seeder issues no
    write and both files stay as they are, so no second account appears
    and the stored hash is not touched; otherwise exactly one account is
    appended to the admins partition, with the lower-cased seed address
    and the admin role, and that partition is written.  Starting again
    with the same configuration changes nothing more. *)
Theorem ensureSeedAdmin_idempotent `{Ext : Externals}
    (cfg : ProcessEnv) (e : Env) (st : State) :
  reachable st ->
  let configured := Js.or_str (ADMIN_EMAIL cfg) "owner@winery.board" in
  let held :=
    exists a, a ∈ adminsFile st
              /\ Js.toLowerCase (acc_email a) = Js.toLowerCase configured in
  (held ->
   ensureSeedAdmin cfg e st = None
   /\ usersFile (bootstrap cfg e st) = usersFile st
   /\ adminsFile (bootstrap cfg e st) = adminsFile st)
  /\
  (~ held ->
   ensureSeedAdmin cfg e st = Some (writeAdmins, adminsFile st ++ [seedAccount cfg e])
   /\ acc_email (seedAccount cfg e) = Js.toLowerCase configured
   /\ acc_role (seedAccount cfg e) = RAdmin
   /\ usersFile (bootstrap cfg e st) = usersFile st
   /\ adminsFile (bootstrap cfg e st) = adminsFile st ++ [seedAccount cfg e])
  /\
  (forall e', bootstrap cfg e' (bootstrap cfg e st) = bootstrap cfg e st).
Proof.
  intros Hr configured held.
  destruct (ensureSeedAdmin_cases cfg e st (reachable_emails_lower st Hr))
    as [Hheld Hnew].
  split; [exact Hheld|]. split; [exact Hnew|].
  intros e'. apply bootstrap_again.
Qed.

Lemma ensureSeedAdmin_idempotent_witness :
  let cfg := mkProcessEnv (Some "Owner@Winery.Board") (Some "another") None in
  ensureSeedAdmin (Ext := Sample.externals) cfg (Sample.env "9" 900) Sample.ada_state = None
  /\ adminsFile (bootstrap (Ext := Sample.externals) cfg (Sample.env "9" 900) Sample.ada_state)
     = adminsFile Sample.ada_state.
Proof.
  intros cfg.
  destruct (ensureSeedAdmin_idempotent (Ext := Sample.externals)
              cfg (Sample.env "9" 900) Sample.ada_state) as [Hheld _].
  - exact ada_reachable.
  - destruct Hheld as (H1 & _ & H3).
    + eexists. split; [apply list_elem_of_here|]. reflexivity.
    + split; [exact H1|exact H3].
Defined.

(** ** E-mail uniqueness *)

Lemma lower_emails (l : list Account) :
  Forall (fun a => Js.toLowerCase (acc_email a) = acc_email a) l ->
  map (fun a => Js.toLowerCase (acc_email a)) l = map acc_email l.
Proof. induction 1 as [|a l Ha _ IH]; simpl; [done|]. by rewrite Ha, IH. Qed.

Lemma emails_unique_plain st :
  emails_lower st ->
  (emails_unique st <-> NoDup (map acc_email (usersFile st) ++ map acc_email (adminsFile st))).
Proof.
  intros H. unfold emails_unique. rewrite (lower_emails _ H).
  unfold accounts. by rewrite map_app.
Qed.

Lemma not_held (email : string) (l : list Account) :
  Forall (fun b => acc_email b <> email) l -> email ∉ map acc_email l.
Proof.
  rewrite Forall_forall. intros H Hin.
  apply list_elem_of_fmap in Hin as (b & -> & Hb). by apply (H b).
Qed.

Lemma change_emails_unique st st' :
  change st st' -> emails_lower st -> emails_unique st -> emails_unique st'.
Proof.
  intros Hc Hlow Hun.
  pose proof (change_emails_lower _ _ Hc Hlow) as Hlow'.
  apply (emails_unique_plain _ Hlow'). apply (emails_unique_plain _ Hlow) in Hun.
  destruct Hc as [Hu Ha|a Hu Ha _ Hnew|a Hu Ha _ Hnew].
  - by rewrite Hu, Ha.
  - rewrite Hu, Ha, map_app. simpl.
    apply not_held in Hnew. unfold accounts in Hnew. rewrite map_app in Hnew.
    eapply (NoDup_Permutation_proper _ (acc_email a :: _)); [|by apply NoDup_cons_2].
    rewrite <- (assoc_L (++)). simpl. by rewrite <- Permutation_middle.
  - rewrite Hu, Ha, map_app. simpl.
    apply not_held in Hnew. unfold accounts in Hnew. rewrite map_app in Hnew.
    eapply (NoDup_Permutation_proper _ (acc_email a :: _)); [|by apply NoDup_cons_2].
    rewrite (assoc_L (++)). by rewrite <- Permutation_cons_append.
Qed.

Lemma bootstrap_emails_unique `{Ext : Externals} cfg e st :
  seed_clear cfg st -> emails_lower st -> emails_unique st ->
  emails_unique (bootstrap cfg e st).
Proof.
  intros Hclear Hlow Hun.
  pose proof (bootstrap_emails_lower cfg e st Hlow) as Hlow'.
  apply (emails_unique_plain _ Hlow'). apply (emails_unique_plain _ Hlow) in Hun.
  destruct (bootstrap_files cfg e st) as [-> [-> | [-> Hadm]]]; [done|].
  rewrite map_app. simpl.
  eapply (NoDup_Permutation_proper _ (seedEmail cfg :: _)).
  { rewrite (assoc_L (++)). by rewrite <- Permutation_cons_append. }
  apply NoDup_cons_2; [|done].
  rewrite elem_of_app. intros [Hin|Hin].
  - apply list_elem_of_fmap in Hin as (b & Hb & Hin).
    unfold seed_clear in Hclear. rewrite Forall_forall in Hclear.
    apply (Hclear b Hin). rewrite Hb.
    unfold emails_lower, accounts in Hlow. rewrite Forall_forall in Hlow.
    apply Hlow. apply elem_of_app. by left.
  - by apply not_held in Hadm.
Qed.

Lemma reachable_clear_reachable `{Ext : Externals} st :
  reachable_clear st -> reachable st.
Proof. induction 1; by constructor. Qed.

Lemma reachable_clear_unique `{Ext : Externals} st :
  reachable_clear st -> emails_unique st.
Proof.
  intros Hr. induction Hr as [|st cfg e Hr IH Hclear|st r req e Hr IH].
  - constructor.
  - apply bootstrap_emails_unique; [done| |done].
    by apply reachable_emails_lower, reachable_clear_reachable.
  - eapply change_emails_unique; [apply call_change| |done].
    by apply reachable_emails_lower, reachable_clear_reachable.
Qed.

Lemma post_register_rejects `{Ext : Externals} st req e payload :
  registerSchema (body req) = Some payload ->
  email_known (reg_email payload) st ->
  post_register st req e = respond (reply 409 (message "email-in-use")).
Proof.
  intros Hp (a & Hin & Ha). unfold post_register. rewrite Hp. cbv zeta.
  destruct (or_found_Some
              (fun b => Js.seq (Js.toLowerCase (acc_email b))
                               (Js.toLowerCase (reg_email payload)))
              (readUsers st) (readAdmins st) a Hin) as [b ->]; [|done].
  by apply seq_true.
Qed.

Lemma post_admin_users_rejects `{Ext : Externals} st req e auth payload :
  emails_lower st ->
  requireAuth st req true = inr auth ->
  adminCreateUserSchema (body req) = Some payload ->
  email_known (adm_email payload) st ->
  post_admin_users st req e = respond (reply 409 (message "email-in-use")).
Proof.
  intros Hlow Hauth Hp (a & Hin & Ha). unfold post_admin_users.
  rewrite Hauth, Hp. cbv zeta.
  destruct (or_found_Some
              (fun b => Js.seq (acc_email b) (Js.toLowerCase (adm_email payload)))
              (readUsers st) (readAdmins st) a Hin) as [b ->]; [|done].
  apply seq_true. rewrite <- Ha.
  unfold emails_lower in Hlow. rewrite Forall_forall in Hlow. symmetry. by apply Hlow.
Qed.

(** C1, as the code has it.  Requests are handled one at a time.  In
    every state reached from the empty files by requests and by startups
    whose seed address no account of the users partition holds, no two
    accounts of the two partitions together share an e-mail up to letter
    case.  In every reachable state, registration (for a body that passes
    its schema) and admin provisioning (for an admin caller and a body
    that passes its schema) answer 409 email-in-use whenever an account
    of either partition holds the requested e-mail up to letter case, and
    then write no partition and issue no session. *)
Theorem email_uniqueness `{Ext : Externals} :
  (forall st, reachable_clear st -> emails_unique st)
  /\ (forall st req e payload,
        reachable st ->
        registerSchema (body req) = Some payload ->
        email_known (reg_email payload) st ->
        post_register st req e = respond (reply 409 (message "email-in-use"))
        /\ commit (post_register st req e) st = st)
  /\ (forall st req e auth payload,
        reachable st ->
        requireAuth st req true = inr auth ->
        adminCreateUserSchema (body req) = Some payload ->
        email_known (adm_email payload) st ->
        post_admin_users st req e = respond (reply 409 (message "email-in-use"))
        /\ commit (post_admin_users st req e) st = st).
Proof.
  split; [apply @reachable_clear_unique|]. split.
  - intros st req e payload _ Hp Hk.
    rewrite (post_register_rejects _ _ _ _ Hp Hk). split; [done|apply commit_respond].
  - intros st req e auth payload Hr Ha Hp Hk.
    rewrite (post_admin_users_rejects _ _ _ _ _ (reachable_emails_lower _ Hr) Ha Hp Hk).
    split; [done|apply commit_respond].
Qed.

Lemma ada_reachable_clear : reachable_clear (Ext := Sample.externals) Sample.ada_state.
Proof.
  apply (clear_call (Ext := Sample.externals)).
  apply (clear_boot (Ext := Sample.externals)); [apply clear_initial|constructor].
Qed.

(** Registering [ADA@x.COM] once Ada is registered. *)
Lemma email_uniqueness_witness :
  emails_unique Sample.ada_state
  /\ resp (post_register (Ext := Sample.externals) Sample.ada_state
             (Sample.anonymous (Sample.credentials "Eve" "ADA@x.COM" "secret2"))
             (Sample.env "4" 104))
     = reply 409 (message "email-in-use").
Proof.
  destruct (email_uniqueness (Ext := Sample.externals)) as (Hinv & Hreg & _).
  split; [exact (Hinv _ ada_reachable_clear)|].
  destruct (Hreg Sample.ada_state
              (Sample.anonymous (Sample.credentials "Eve" "ADA@x.COM" "secret2"))
              (Sample.env "4" 104)
              (mkRegisterPayload "Eve" "ADA@x.COM" "secret2")) as [-> _].
  - exact ada_reachable.
  - vm_compute. reflexivity.
  - exists Sample.ada. split; [apply list_elem_of_here|reflexivity].
  - reflexivity.
Defined.

(** C1 as stated fails, in two ways.  Started again with
    [ADMIN_EMAIL=ada@x.com] after Ada registered, the seeder, which
    looks in the admins partition only, appends an admin account with
    her address.  And with one configuration throughout: a registration
    and an admin provisioning of one address, each reading both files
    before the other's write lands, both pass the check and leave the
    address in both partitions. *)
Lemma email_shared_across_partitions :
  (reachable (Ext := Sample.externals) Sample.reseeded_state
   /\ map acc_email (usersFile Sample.reseeded_state) = ["ada@x.com"]
   /\ map acc_email (adminsFile Sample.reseeded_state)
      = ["owner@winery.board"; "ada@x.com"]
   /\ ~ emails_unique Sample.reseeded_state)
  /\
  (well_scheduled [] [] Sample.raced_provisioning = true
   /\ map acc_email (usersFile (disk Sample.raced_provisioning_server))
      = ["bob@x.com"]
   /\ map acc_email (adminsFile (disk Sample.raced_provisioning_server))
      = ["owner@winery.board"; "bob@x.com"]
   /\ ~ emails_unique (disk Sample.raced_provisioning_server)).
Proof.
  split.
  - split; [|split; [reflexivity|split; [reflexivity|]]].
    + do 3 apply (reach_step (Ext := Sample.externals)). apply reach_initial.
    + intros H. apply NoDup_cons_1_1 in H. apply H. vm_compute.
      apply list_elem_of_further, list_elem_of_here.
  - split; [reflexivity|split; [reflexivity|split; [reflexivity|]]].
    intros H. apply NoDup_cons_1_1 in H. apply H. vm_compute.
    apply list_elem_of_further, list_elem_of_here.
Qed.

(** ** Registration, then login *)

Lemma find_app_skip {A} (f : A -> bool) (l k : list A) :
  Forall (fun x => f x = false) l -> find f (l ++ k) = find f k.
Proof. induction 1 as [|x l Hx _ IH]; simpl; [done|]. by rewrite Hx. Qed.

Lemma post_register_created `{Ext : Externals} st req e :
  status (resp (post_register st req e)) = 201 ->
  exists payload,
    registerSchema (body req) = Some payload
    /\ Forall (fun a => Js.toLowerCase (acc_email a)
                        <> Js.toLowerCase (reg_email payload)) (accounts st)
    /\ post_register st req e
       = let newUser :=
           mkAccount (uuid e) (Js.trim (reg_name payload))
                     (Js.toLowerCase (reg_email payload))
                     (bcrypt_hash (reg_password payload) (salt e))
                     (now e) RUser (Some []) in
         mkOutcome
           (reply 201 (JObj [("token", JStr (uuid_token e));
                             ("profile", profile newUser)]))
           (Some (writeUsers, usersFile st ++ [newUser]))
           (Some (uuid_token e, mkSession (uuid e) RUser (now_session e))).
Proof.
  unfold post_register. destruct (registerSchema _) as [payload|]; [|done].
  cbv zeta. destruct (or_found _ _) eqn:E; [done|]. intros _.
  exists payload. split; [done|]. split; [|done].
  apply or_found_None in E. eapply Forall_impl; [exact E|].
  simpl. intros a Ha. by apply seq_false in Ha.
Qed.

Lemma sample_ends_with (s p : string) : Sample.ends_with p (String.append s p) = true.
Proof.
  induction s as [|c s IH].
  - change (Sample.ends_with p p = true).
    destruct p; cbn [Sample.ends_with]; by rewrite seq_refl.
  - change (Js.seq p (String c (String.append s p))
            || Sample.ends_with p (String.append s p) = true).
    rewrite IH. apply orb_true_r.
Qed.

Lemma sample_bcrypt_sound : bcrypt_sound (H := Sample.externals).
Proof. intros p s. apply sample_ends_with. Qed.

(** ** Task creations, interleaved and one after another *)

(** C9 as stated fails: the store has no lock or queue.  Two creations
    by Ada, both accepted with 201, whose reads precede both writes
    leave one task in the users partition: the second write, computed
    from the list read before the first landed, overwrites it. *)
Lemma interleaved_creations_lose_a_write :
  well_scheduled [] [] Sample.raced = true
  /\ status (resp (post_todos Sample.ada_state Sample.milk_request (Sample.env "2" 102))) = 201
  /\ status (resp (post_todos Sample.ada_state Sample.eggs_request (Sample.env "3" 103))) = 201
  /\ inflight Sample.raced_server = []
  /\ usersFile (disk Sample.raced_server)
     = [set_todos Sample.ada [mkTodo "id-3" "eggs" false 103]]
  /\ length (flat_map todo_ids (usersFile (disk Sample.raced_server))) <> 2%nat.
Proof. vm_compute. repeat split; discriminate. Qed.

Lemma requireAuth_header st req req' adm :
  authorization req = authorization req' ->
  requireAuth st req adm = requireAuth st req' adm.
Proof. intros H. unfold requireAuth. by rewrite H. Qed.

Lemma run_cons `{Ext : Externals} ev evs st :
  run (ev :: evs) st = run evs (step ev st).
Proof. done. Qed.

(** Handled one after another, the ticks of [serial] do what [run] does. *)
Lemma schedule_serial `{Ext : Externals} reqs k st :
  schedule (serial k reqs) (mkServer st []) = mkServer (run (creations reqs) st) [].
Proof.
  revert k st. induction reqs as [|[req e] reqs IH]; intros k st; [done|].
  change (schedule (serial (S k) reqs)
            (tick (Land k) (tick (Begin k PostTodos req e) (mkServer st [])))
          = mkServer (run (creations reqs) (step (Call PostTodos req e) st)) []).
  rewrite <- (IH (S k)). f_equal. unfold tick. simpl.
  by rewrite bool_decide_eq_true_2.
Qed.

Lemma serial_well_scheduled reqs k seen :
  (forall j, j ∈ seen -> (j < k)%nat) ->
  well_scheduled [] seen (serial k reqs) = true.
Proof.
  revert k seen. induction reqs as [|[req e] reqs IH]; intros k seen Hseen; [done|].
  simpl. rewrite (bool_decide_eq_true_2 (k ∉ seen)).
  2:{ intros Hin. apply Hseen in Hin. lia. }
  rewrite (bool_decide_eq_true_2 (k ∈ [k])) by apply list_elem_of_here.
  rewrite (bool_decide_eq_true_2 (k = k)) by done. simpl.
  apply IH. intros j Hj. apply elem_of_cons in Hj as [->|Hj]; [lia|].
  apply Hseen in Hj. lia.
Qed.

Lemma todo_ids_set_todos a ts : todo_ids (set_todos a ts) = map todo_id ts.
Proof. done. Qed.

Lemma creations_run `{Ext : Externals} reqs : forall st hdr auth,
  (forall p, p ∈ reqs ->
     authorization (fst p) = hdr /\ is_Some (todoCreateSchema (body (fst p)))) ->
  requireAuth st (mkRequest hdr JUndef "") false = inr auth ->
  exists user',
    partition (auth_writer auth) (run (creations reqs) st) !! auth_index auth
    = Some user'
    /\ acc_id user' = acc_id (auth_user auth)
    /\ todo_ids user'
       = rev (map (fun p => uuid (snd p)) reqs) ++ todo_ids (auth_user auth).
Proof.
  induction reqs as [|[req e] reqs IH]; intros st hdr auth Hreqs Hauth.
  - pose proof (requireAuth_inr _ _ _ _ Hauth) as (s & a & _ & Hf & Hu & _).
    apply find_at_Some in Hf as [Hi _].
    exists a. split; [done|]. rewrite Hu. split; [done|].
    unfold todo_ids. simpl. by destruct (acc_todos a).
  - destruct (Hreqs (req, e)) as [Hhdr [l Hl]]; [apply list_elem_of_here|].
    simpl in Hhdr, Hl.
    assert (Hauth0 : requireAuth st req false = inr auth).
    { rewrite <- Hauth. by apply requireAuth_header. }
    change (creations ((req, e) :: reqs))
      with (Call PostTodos req e :: creations reqs).
    rewrite run_cons. simpl step.
    rewrite (post_todos_created st req e auth l Hauth0 Hl), commit_quiet.
    set (todo := mkTodo (uuid e) (Js.trim l) false (now e)).
    set (ts := todo :: or_empty (acc_todos (auth_user auth))).
    pose proof (requireAuth_after_save st req auth ts Hauth0) as Hauth1.
    cbv zeta in Hauth1. unfold save in Hauth1.
    rewrite (requireAuth_header _ req (mkRequest hdr JUndef "")) in Hauth1 by done.
    destruct (IH _ hdr _ (fun p Hp => Hreqs p (list_elem_of_further _ _ _ Hp)) Hauth1)
      as (user' & Hlook & Hid & Hids).
    simpl in Hlook, Hid, Hids. exists user'. split; [exact Hlook|].
    split; [exact Hid|].
    rewrite Hids, todo_ids_set_todos. unfold ts. simpl.
    by rewrite <- (assoc_L (++)).
Qed.

(** C9, as the code has it.  The store does not serialize: a request's
    read and its write are separate moments and other requests may come
    between.  When the task creations of one
    account, all accepted by the schema, are handled one after another,
    each write landing before the next request reads, the account's
    persisted task list is the new tasks, newest first, in front of the
    tasks it had: as many more as there were requests, with the ids the
    generator drew, pairwise distinct whenever those ids are distinct
    from each other and from the ids already in the list. *)
Theorem serial_creations `{Ext : Externals}
    (st : State) (hdr : option string) (auth : Auth)
    (reqs : list (Request * Env)) :
  requireAuth st (mkRequest hdr JUndef "") false = inr auth ->
  (forall p, p ∈ reqs ->
     authorization (fst p) = hdr /\ is_Some (todoCreateSchema (body (fst p)))) ->
  let sv := schedule (serial 0 reqs) (mkServer st []) in
  let drawn := map (fun p => uuid (snd p)) reqs in
  well_scheduled [] [] (serial 0 reqs) = true
  /\ inflight sv = []
  /\ exists user',
       partition (auth_writer auth) (disk sv) !! auth_index auth = Some user'
       /\ acc_id user' = acc_id (auth_user auth)
       /\ todo_ids user' = rev drawn ++ todo_ids (auth_user auth)
       /\ length (todo_ids user')
          = (length reqs + length (todo_ids (auth_user auth)))%nat
       /\ (NoDup (drawn ++ todo_ids (auth_user auth)) -> NoDup (todo_ids user')).
Proof.
  intros Hauth Hreqs sv drawn. split.
  { apply serial_well_scheduled. intros j Hj. by apply not_elem_of_nil in Hj. }
  unfold sv. rewrite schedule_serial. split; [done|]. simpl disk.
  destruct (creations_run reqs st hdr auth Hreqs Hauth) as (user' & Hlook & Hid & Hids).
  fold drawn in Hids.
  exists user'. repeat split; [done..| |].
  - rewrite Hids, length_app, length_rev. unfold drawn. by rewrite length_map.
  - intros Hnd. rewrite Hids.
    eapply NoDup_Permutation_proper; [|exact Hnd].
    apply Permutation_app_tail. symmetry. apply Permutation_rev.
Qed.

Lemma serial_creations_witness :
  let reqs := [(Sample.milk_request, Sample.env "2" 102);
               (Sample.eggs_request, Sample.env "3" 103)] in
  let sv := schedule (Ext := Sample.externals) (serial 0 reqs)
                     (mkServer Sample.ada_state []) in
  exists user',
    usersFile (disk sv) !! 0%nat = Some user'
    /\ todo_ids user' = ["id-3"; "id-2"].
Proof.
  intros reqs sv.
  destruct (serial_creations (Ext := Sample.externals) Sample.ada_state
              (Some "Bearer tok-1")
              (mkAuth 0 Sample.ada [Sample.ada] writeUsers "tok-1" RUser) reqs)
    as (_ & _ & user' & Hlook & _ & Hids & _).
  - vm_compute. reflexivity.
  - intros p Hp. apply elem_of_cons in Hp as [->|Hp].
    + split; [reflexivity|]. vm_compute. eexists. reflexivity.
    + apply list_elem_of_singleton in Hp as ->.
      split; [reflexivity|]. vm_compute. eexists. reflexivity.
  - exists user'. split; [exact Hlook|exact Hids].
Defined.

(* ===================================================================== *)
(** * Further properties of the server *)
(* ===================================================================== *)

(** ** [trim] *)

Lemma trimEnd_keeps_head c r :
  Js.is_space c = false -> Js.trimEnd (String c r) = String c (Js.trimEnd r).
Proof. intros Hc. simpl. rewrite Hc. by destruct (Js.trimEnd r). Qed.

Lemma trimEnd_idem s : Js.trimEnd (Js.trimEnd s) = Js.trimEnd s.
Proof.
  induction s as [|c r IH]; [done|]. simpl.
  destruct (Js.trimEnd r) as [|c' r'] eqn:E.
  - destruct (Js.is_space c) eqn:Hc; [done|]. simpl. by rewrite Hc.
  - change (Js.trimEnd (String c (String c' r')) = String c (String c' r')).
    simpl. simpl in IH. by rewrite IH.
Qed.

Lemma trimStart_head s :
  Js.trimStart s = EmptyString
  \/ exists c r, Js.trimStart s = String c r /\ Js.is_space c = false.
Proof.
  induction s as [|c r IH]; [by left|]. simpl.
  destruct (Js.is_space c) eqn:Hc; [done|]. right. by exists c, r.
Qed.

Lemma trim_idem s : Js.trim (Js.trim s) = Js.trim s.
Proof.
  unfold Js.trim. destruct (trimStart_head s) as [->|(c & r & -> & Hc)]; [done|].
  rewrite (trimEnd_keeps_head c r Hc). simpl Js.trimStart. rewrite Hc.
  rewrite <- (trimEnd_keeps_head c r Hc). apply trimEnd_idem.
Qed.

Lemma trimStart_length s : Js.length (Js.trimStart s) <= Js.length s.
Proof.
  unfold Js.length. induction s as [|c r IH]; [done|]. simpl Js.trimStart.
  destruct (Js.is_space c); simpl String.length; lia.
Qed.

Lemma trimEnd_length s : Js.length (Js.trimEnd s) <= Js.length s.
Proof.
  unfold Js.length. induction s as [|c r IH]; [done|]. simpl Js.trimEnd.
  destruct (Js.trimEnd r); [destruct (Js.is_space c)|]; simpl String.length in *; lia.
Qed.

Lemma trim_length s : Js.length (Js.trim s) <= Js.length s.
Proof.
  unfold Js.trim. pose proof (trimEnd_length (Js.trimStart s)).
  pose proof (trimStart_length s). lia.
Qed.

(** A trimmed string neither starts nor ends with white space. *)
Lemma trim_edges s c r :
  Js.trim s = String c r ->
  Js.is_space c = false
  /\ forall p d, r = String.append p (String d EmptyString) -> Js.is_space d = false.
Proof.
  unfold Js.trim. destruct (trimStart_head s) as [->|(c' & r' & -> & Hc)]; [done|].
  rewrite (trimEnd_keeps_head c' r' Hc). intros [= -> <-]. split; [done|].
  clear. induction r' as [|a r IH]; intros p d.
  - simpl. by destruct p.
  - simpl. destruct (Js.trimEnd r) as [|b q] eqn:E.
    + destruct (Js.is_space a) eqn:Ha; [by destruct p|].
      destruct p as [|x p]; simpl; [by intros [= <-]|].
      intros [= _ H]. by destruct p.
    + destruct p as [|x p]; simpl; [done|]. intros [= _ H]. by eapply IH.
Qed.

(** ** Every step, in full *)

Lemma persist_other w l st :
  partition (other w) (persist (Some (w, l)) st) = partition (other w) st.
Proof. by destruct w. Qed.

Lemma effect_files st st' :
  usersFile st' = usersFile st -> adminsFile st' = adminsFile st -> effect st st'.
Proof. apply effect_none. Qed.

Lemma effect_respond r st : effect st (commit (respond r) st).
Proof. rewrite commit_respond. by apply effect_none. Qed.

Lemma save_account st req adm auth ts :
  requireAuth st req adm = inr auth ->
  exists a,
    partition (auth_writer auth) st !! auth_index auth = Some a
    /\ or_empty (acc_todos (auth_user auth)) = or_empty (acc_todos a)
    /\ save auth (set_todos (auth_user auth) ts)
       = Some (auth_writer auth,
               <[auth_index auth := set_todos a ts]> (partition (auth_writer auth) st)).
Proof.
  intros H. apply requireAuth_inr in H as (s & a & _ & Hf & Hu & Hl & _).
  apply find_at_Some in Hf as [Hi _]. exists a. split; [done|].
  split; [by rewrite Hu|].
  unfold save. rewrite Hl, Hu, list_insert_insert_eq. done.
Qed.

Lemma persist_tasks_effect st req adm auth ts :
  requireAuth st req adm = inr auth ->
  Forall (task_from (or_empty (acc_todos (auth_user auth)))) ts ->
  effect st (persist (save auth (set_todos (auth_user auth) ts)) st).
Proof.
  intros H Hts. destruct (save_account _ _ _ _ ts H) as (a & Hi & Ho & ->).
  eapply effect_tasks; [exact Hi|apply persist_partition|apply persist_other|].
  by rewrite <- Ho.
Qed.

Lemma task_from_self (old : list Todo) t : t ∈ old -> task_from old t.
Proof. intros H. left. by exists t. Qed.

Lemma post_todos_effect st req e : effect st (commit (post_todos st req e) st).
Proof.
  unfold post_todos. destruct (requireAuth _ _ _) eqn:Ha; [apply effect_respond|].
  destruct (todoCreateSchema _) as [l|] eqn:Hl; [|apply effect_respond].
  rewrite commit_quiet. eapply persist_tasks_effect; [exact Ha|].
  constructor.
  - right. split; [done|]. exists l. split; [|done].
    by apply todoCreateSchema_label in Hl as [_ ?].
  - apply Forall_forall. intros t Ht. by apply task_from_self.
Qed.

Lemma patch_todo_effect st req : effect st (commit (patch_todo st req) st).
Proof.
  unfold patch_todo. destruct (requireAuth _ _ _) eqn:Ha; [apply effect_respond|].
  cbv zeta. destruct (find_at _ _) as [[j t]|] eqn:Hf; [|apply effect_respond].
  rewrite commit_quiet. eapply persist_tasks_effect; [exact Ha|].
  apply find_at_Some in Hf as (Hj & _ & _).
  apply Forall_forall. intros u Hu.
  apply list_elem_of_lookup in Hu as [k Hk].
  destruct (decide (k = j)) as [->|Hne].
  - rewrite list_lookup_insert_eq in Hk by (by eapply lookup_lt_Some).
    injection Hk as <-. left. exists t. split; [|done].
    apply list_elem_of_lookup. by exists j.
  - rewrite list_lookup_insert_ne in Hk by done.
    apply task_from_self, list_elem_of_lookup. by exists k.
Qed.

Lemma delete_todo_effect st req : effect st (commit (delete_todo st req) st).
Proof.
  unfold delete_todo. destruct (requireAuth _ _ _) eqn:Ha; [apply effect_respond|].
  cbv zeta. destruct (bool_decide _); [apply effect_respond|].
  rewrite commit_quiet. eapply persist_tasks_effect; [exact Ha|].
  apply Forall_forall. intros u Hu. apply task_from_self.
  apply list_elem_of_In, filter_In in Hu as [Hu _]. by apply list_elem_of_In.
Qed.

Lemma post_register_effect `{Ext : Externals} st req e :
  effect st (commit (post_register st req e) st).
Proof.
  unfold post_register. destruct (registerSchema _) as [payload|];
    [|apply effect_respond].
  cbv zeta. destruct (or_found _ _); [apply effect_respond|].
  by eapply (effect_append _ _ writeUsers).
Qed.

Lemma post_login_effect `{Ext : Externals} st req e :
  effect st (commit (post_login st req e) st).
Proof.
  unfold post_login. destruct (loginSchema _) as [payload|];
    [|apply effect_respond].
  cbv zeta. destruct (find _ (readUsers st)) as [u|].
  - destruct (negb _); [apply effect_respond|]. by apply effect_files.
  - destruct (find _ (readAdmins st)) as [u|]; [|apply effect_respond].
    destruct (negb _); [apply effect_respond|]. by apply effect_files.
Qed.

Lemma post_admin_users_effect `{Ext : Externals} st req e :
  effect st (commit (post_admin_users st req e) st).
Proof.
  unfold post_admin_users. destruct (requireAuth _ _ _); [apply effect_respond|].
  destruct (adminCreateUserSchema _) as [payload|]; [|apply effect_respond].
  cbv zeta. destruct (or_found _ _); [apply effect_respond|].
  destruct (decide _) as [Hr|Hr].
  - by eapply (effect_append _ _ writeAdmins).
  - eapply (effect_append _ _ writeUsers); try done.
    simpl in *. by destruct (default RUser (adm_role payload)).
Qed.

(** A request leaves the files alone, appends one account with an empty
    task list to the partition of its role, or replaces the task list
    of one account. *)
Lemma call_effect `{Ext : Externals} r req e st :
  effect st (step (Call r req e) st).
Proof.
  destruct r; simpl.
  - apply effect_respond.
  - apply post_register_effect.
  - apply post_login_effect.
  - unfold get_session. destruct (requireAuth _ _ _); apply effect_respond.
  - unfold get_todos. destruct (requireAuth _ _ _); apply effect_respond.
  - apply post_todos_effect.
  - apply patch_todo_effect.
  - apply delete_todo_effect.
  - unfold get_overview. destruct (requireAuth _ _ _); apply effect_respond.
  - apply post_admin_users_effect.
Qed.

Lemma bootstrap_effect `{Ext : Externals} cfg e st :
  effect st (bootstrap cfg e st).
Proof.
  unfold bootstrap, ensureSeedAdmin. cbv zeta.
  destruct (find _ _); [by apply effect_files|].
  by eapply (effect_append _ _ writeAdmins).
Qed.

Lemma step_effect `{Ext : Externals} ev st : effect st (step ev st).
Proof. destruct ev; [apply bootstrap_effect|apply call_effect]. Qed.

(** ** Accounts stay *)

Lemma core_set_todos a ts : core (set_todos a ts) = core a.
Proof. done. Qed.

Lemma core_insert (l : list Account) i a ts :
  l !! i = Some a -> map core (<[i := set_todos a ts]> l) = map core l.
Proof.
  intros Hi. change (core <$> <[i := set_todos a ts]> l = core <$> l).
  rewrite list_fmap_insert. apply list_insert_id.
  by rewrite list_lookup_fmap, Hi.
Qed.

Lemma effect_core st st' w :
  effect st st' ->
  exists new, map core (partition w st') = map core (partition w st) ++ new
              /\ (length new <= 1)%nat.
Proof.
  intros [Hu Ha|w' a Hw Ho _ _|w' i a ts Hi Hw Ho _].
  - exists []. rewrite app_nil_r. split; [|simpl; lia]. by destruct w; simpl; f_equal.
  - destruct w, w'; simpl in *;
      first [ exists [core a]; rewrite Hw, map_app; split; [done|simpl; lia]
            | exists []; rewrite Ho, app_nil_r; split; [done|simpl; lia] ].
  - exists []. rewrite app_nil_r. split; [|simpl; lia].
    destruct w, w'; simpl in *;
      first [ by rewrite Hw, core_insert | by rewrite Ho ].
Qed.

(** X1. With requests handled one at a time, each from its read to its
    write, no step deletes, moves or rewrites an account: through any run
    of such requests and restarts the identifying fields of the accounts
    of a partition (id, name, e-mail, password hash, creation time, role)
    stay where they are, and at most one account per step is appended
    after them.  (Requests whose reads and writes interleave are not
    covered: there a write can drop an account appended in between.) *)
Theorem accounts_persist `{Ext : Externals}
    (evs : list Event) (st : State) (w : Writer) :
  exists new,
    map core (partition w (run evs st)) = map core (partition w st) ++ new
    /\ (length new <= length evs)%nat.
Proof.
  revert st. induction evs as [|ev evs IH]; intros st.
  - exists []. by rewrite app_nil_r.
  - rewrite run_cons. destruct (IH (step ev st)) as (new & -> & Hn).
    destruct (effect_core st (step ev st) w (step_effect ev st)) as (one & -> & H1).
    exists (one ++ new). rewrite (assoc_L (++)). split; [done|].
    rewrite length_app. simpl. lia.
Qed.

(** ** Registration, then login at any later time *)

Lemma run_users_core `{Ext : Externals} (evs : list Event) (st : State) :
  exists new, map core (usersFile (run evs st)) = map core (usersFile st) ++ new.
Proof.
  revert st. induction evs as [|ev evs IH]; intros st.
  - exists []. by rewrite app_nil_r.
  - rewrite run_cons. destruct (IH (step ev st)) as (new & ->).
    destruct (effect_core st (step ev st) writeUsers (step_effect ev st))
      as (one & Hone & _).
    simpl in Hone. rewrite Hone. exists (one ++ new). by rewrite (assoc_L (++)).
Qed.

(** The first account with a given e-mail stays the first one when the
    list keeps its accounts' identifying fields and grows at the end. *)
Lemma find_email_core (x : string) (l l' : list Account) new a :
  map core l' = map core l ++ new ->
  find (fun entry => Js.seq (acc_email entry) x) l = Some a ->
  exists a', find (fun entry => Js.seq (acc_email entry) x) l' = Some a'
             /\ core a' = core a.
Proof.
  revert l'. induction l as [|b l IH]; intros l' Hl Hf; [done|].
  destruct l' as [|b' l']; [done|].
  change (core b' :: map core l' = core b :: (map core l ++ new)) in Hl.
  assert (Hb : core b' = core b) by congruence.
  assert (Hl' : map core l' = map core l ++ new) by congruence.
  assert (Hmail : acc_email b' = acc_email b).
  { apply (f_equal (fun c => c.1.1.1.2)) in Hb. exact Hb. }
  cbn [find] in *. rewrite Hmail. destruct (Js.seq (acc_email b) x).
  - injection Hf as <-. exists b'. by split.
  - by apply IH.
Qed.

(** C4. With requests handled one at a time.  When a registration is
    answered 201, the profile it returns carries the lower-cased input
    e-mail and the id of the account it stored.  After that registration
    and any further requests and restarts, each handled from its read to
    its write, a login with the same address in any letter case and the
    same password is answered 200 with a profile of the same id as the
    registered account, and a session for that account is issued. *)
Theorem register_then_login `{Ext : Externals}
    (st : State) (req req' : Request) (e e' : Env)
    (payload : RegisterPayload) (again : LoginPayload) (evs : list Event) :
  bcrypt_sound ->
  registerSchema (body req) = Some payload ->
  status (resp (post_register st req e)) = 201 ->
  loginSchema (body req') = Some again ->
  Js.toLowerCase (login_email again) = Js.toLowerCase (reg_email payload) ->
  login_password again = reg_password payload ->
  let st' := run evs (commit (post_register st req e) st) in
  (exists v, json (resp (post_register st req e)) = Some v
             /\ prop "email" (prop "profile" v)
                = JStr (Js.toLowerCase (reg_email payload))
             /\ prop "id" (prop "profile" v) = JStr (uuid e))
  /\ status (resp (post_login st' req' e')) = 200
  /\ (exists v', json (resp (post_login st' req' e')) = Some v'
                 /\ prop "id" (prop "profile" v') = JStr (uuid e))
  /\ issued (post_login st' req' e')
     = Some (uuid_token e', mkSession (uuid e) RUser (now_session e')).
Proof.
  intros Hsound Hp Hok Hl Hmail Hpw st'.
  destruct (post_register_created st req e Hok) as (payload' & Hp' & Hfresh & Hreg).
  rewrite Hp in Hp'. injection Hp' as <-. cbv zeta in Hreg.
  split.
  { rewrite Hreg. eexists. split; [reflexivity|]. split; reflexivity. }
  set (newUser := mkAccount (uuid e) (Js.trim (reg_name payload))
                            (Js.toLowerCase (reg_email payload))
                            (bcrypt_hash (reg_password payload) (salt e))
                            (now e) RUser (Some [])) in *.
  set (st1 := commit (post_register st req e) st) in *.
  assert (Hfind1 :
    find (fun entry => Js.seq (acc_email entry) (Js.toLowerCase (login_email again)))
         (usersFile st1) = Some newUser).
  { unfold st1. rewrite Hreg. simpl usersFile.
    rewrite find_app_skip.
    - simpl. by rewrite Hmail, seq_refl.
    - unfold accounts in Hfresh. apply Forall_app in Hfresh as [Hu _].
      eapply Forall_impl; [exact Hu|]. simpl. intros a Ha. apply seq_false.
      intros Heq. apply Ha. rewrite Heq, Hmail. apply toLowerCase_idem. }
  destruct (run_users_core evs st1) as (new & Hcore).
  destruct (find_email_core _ _ _ _ _ Hcore Hfind1) as (user & Hfind & Huser).
  fold st' in Hfind.
  destruct user as [uid uname umail uhash ucreated urole utodos].
  unfold core, newUser in Huser. simpl in Huser.
  injection Huser as -> -> -> -> -> ->.
  unfold post_login. rewrite Hl. cbv zeta. unfold readUsers. rewrite Hfind.
  cbn [acc_passwordHash acc_id].
  replace (bcrypt_compare (login_password again)
                          (bcrypt_hash (reg_password payload) (salt e)))
    with true by (rewrite Hpw; symmetry; apply Hsound).
  simpl negb. cbv iota.
  split; [done|]. split; [|done].
  eexists. split; [reflexivity|]. reflexivity.
Qed.

(** Ada registers as [Ada@X.com], notes a task, the service is started
    again, and she logs in as [ada@x.com]. *)
Lemma register_then_login_witness :
  let reg := Sample.anonymous (Sample.credentials "Ada" "Ada@X.com" "secret1") in
  let login := Sample.anonymous
                 (JObj [("email", JStr "ada@x.com"); ("password", JStr "secret1")]) in
  let st := step (Ext := Sample.externals) (Boot Sample.default_env (Sample.env "0" 100))
                 initial in
  let later :=
    [Call PostTodos (Sample.bearer "tok-1" (Sample.label_body "  buy milk  ") "")
          (Sample.env "2" 102);
     Boot Sample.default_env (Sample.env "3" 103)] in
  let st' := run (Ext := Sample.externals) later
                 (commit (post_register (Ext := Sample.externals) st reg
                                        (Sample.env "1" 101)) st) in
  usersFile st' = [set_todos Sample.ada [Sample.milk]]
  /\ status (resp (post_login (Ext := Sample.externals) st' login (Sample.env "5" 105))) = 200
  /\ issued (post_login (Ext := Sample.externals) st' login (Sample.env "5" 105))
     = Some ("tok-5", mkSession "id-1" RUser 105).
Proof.
  intros reg login st later st'.
  destruct (register_then_login (Ext := Sample.externals)
              st reg login (Sample.env "1" 101) (Sample.env "5" 105)
              (mkRegisterPayload "Ada" "Ada@X.com" "secret1")
              (mkLoginPayload "ada@x.com" "secret1") later)
    as (_ & H200 & _ & Hs).
  - exact sample_bcrypt_sound.
  - vm_compute. reflexivity.
  - vm_compute. reflexivity.
  - vm_compute. reflexivity.
  - reflexivity.
  - reflexivity.
  - split; [vm_compute; reflexivity|]. split; [exact H200|exact Hs].
Defined.

(** C4 as stated fails when registrations interleave.  Bob and Cyd
    register while the users file holds Ada alone, and both handlers read
    it before either write lands.  Bob's write lands and he is answered
    201, his account on file; Cyd's write, the list she read with her
    account appended, lands after and Bob's account is gone.  His login
    with the address and password he registered with is answered
    401. *)
Lemma registration_lost_before_login :
  well_scheduled [] [] Sample.raced_registrations = true
  /\ registerSchema (Ext := Sample.externals) (body Sample.bob_registration)
     = Some (mkRegisterPayload "Bob" "Bob@X.com" "secret2")
  /\ status (resp (post_register (Ext := Sample.externals) Sample.ada_state
                                 Sample.bob_registration (Sample.env "2" 102))) = 201
  /\ map acc_email (usersFile (disk Sample.bob_answered))
     = ["ada@x.com"; "bob@x.com"]
  /\ inflight Sample.raced_registrations_server = []
  /\ map acc_email (usersFile (disk Sample.raced_registrations_server))
     = ["ada@x.com"; "cyd@x.com"]
  /\ loginSchema (Ext := Sample.externals) (body Sample.bob_login)
     = Some (mkLoginPayload "bob@x.com" "secret2")
  /\ post_login (Ext := Sample.externals) (disk Sample.raced_registrations_server)
                Sample.bob_login (Sample.env "4" 104)
     = respond (reply 401 (message "invalid-credentials")).
Proof. repeat split; vm_compute; reflexivity. Qed.

(** In that schedule Bob's session outlives his account: his token is in
    the session map, and the session route and an admin route answer it
    with 401 invalid-token. *)
Lemma raced_session_goes_stale :
  sessions (disk Sample.raced_registrations_server) !! "tok-2"
  = Some (mkSession "id-2" RUser 102)
  /\ handle (Ext := Sample.externals) GetSession
            (disk Sample.raced_registrations_server)
            (Sample.bearer "tok-2" JUndef "") (Sample.env "4" 104)
     = respond (reply 401 (message "invalid-token"))
  /\ handle (Ext := Sample.externals) GetOverview
            (disk Sample.raced_registrations_server)
            (Sample.bearer "tok-2" JUndef "") (Sample.env "4" 104)
     = respond (reply 401 (message "invalid-token")).
Proof. repeat split; vm_compute; reflexivity. Qed.

(** ** Invariants of the stored accounts *)

Lemma accounts_partition st a :
  a ∈ accounts st <-> exists w, a ∈ partition w st.
Proof.
  unfold accounts. rewrite elem_of_app. split.
  - intros [H|H]; [by exists writeUsers|by exists writeAdmins].
  - intros [[] H]; auto.
Qed.

Lemma partition_cases (w w' : Writer) : w = w' \/ w = other w'.
Proof. destruct w, w'; auto. Qed.

(** What an account of the state after a step is. *)
Lemma effect_account st st' w b :
  effect st st' -> b ∈ partition w st' ->
  b ∈ partition w st
  \/ (acc_role b = writer_role w /\ acc_todos b = Some [])
  \/ (exists a ts, a ∈ partition w st /\ b = set_todos a ts
                   /\ Forall (task_from (or_empty (acc_todos a))) ts).
Proof.
  intros [Hu Ha|w' a Hw Ho Hr Ht|w' i a ts Hi Hw Ho Hts] Hb.
  - left. destruct w; simpl in *; congruence.
  - destruct (partition_cases w w') as [->| ->].
    + rewrite Hw in Hb. apply elem_of_app in Hb as [Hb|Hb]; [by left|].
      apply list_elem_of_singleton in Hb as ->. right. by left.
    + left. by rewrite Ho in Hb.
  - destruct (partition_cases w w') as [->| ->].
    + rewrite Hw in Hb. apply list_elem_of_lookup in Hb as [k Hk].
      destruct (decide (k = i)) as [->|Hne].
      * rewrite list_lookup_insert_eq in Hk by (by eapply lookup_lt_Some).
        injection Hk as <-. right. right. exists a, ts. split; [|done].
        apply list_elem_of_lookup. by exists i.
      * rewrite list_lookup_insert_ne in Hk by done.
        left. apply list_elem_of_lookup. by exists k.
    + left. by rewrite Ho in Hb.
Qed.

Lemma effect_roles st st' : effect st st' -> roles_match st -> roles_match st'.
Proof.
  intros He Hinv w b Hb.
  destruct (effect_account _ _ _ _ He Hb) as [H|[[H _]|(a & ts & Ha & -> & _)]].
  - by apply Hinv.
  - done.
  - simpl. by apply Hinv.
Qed.

Lemma effect_todos_present st st' :
  effect st st' -> todos_present st -> todos_present st'.
Proof.
  intros He Hinv b Hb. apply accounts_partition in Hb as [w Hb].
  destruct (effect_account _ _ _ _ He Hb) as [H|[[_ H]|(a & ts & Ha & -> & _)]].
  - apply Hinv, accounts_partition. by exists w.
  - by rewrite H.
  - done.
Qed.

Lemma effect_labels st st' :
  effect st st' -> labels_trimmed st -> labels_trimmed st'.
Proof.
  intros He Hinv b t Hb Ht. apply accounts_partition in Hb as [w Hb].
  destruct (effect_account _ _ _ _ He Hb) as [H|[[_ H]|(a & ts & Ha & -> & Hts)]].
  - eapply Hinv; [|exact Ht]. apply accounts_partition. by exists w.
  - rewrite H in Ht. by apply not_elem_of_nil in Ht.
  - simpl in Ht. rewrite Forall_forall in Hts.
    destruct (Hts t Ht) as [(u & Hu & _ & Hl & _)|(_ & l & Hlen & Hl)].
    + rewrite Hl. eapply Hinv; [|exact Hu]. apply accounts_partition. by exists w.
    + rewrite Hl. split; [apply trim_idem|]. pose proof (trim_length l). lia.
Qed.

Lemma reachable_roles `{Ext : Externals} st : reachable st -> roles_match st.
Proof.
  induction 1 as [|st ev _ IH].
  - intros [] a Ha; by apply not_elem_of_nil in Ha.
  - eapply effect_roles; [apply step_effect|done].
Qed.

Lemma reachable_todos_present `{Ext : Externals} st :
  reachable st -> todos_present st.
Proof.
  induction 1 as [|st ev _ IH].
  - intros a Ha. by apply not_elem_of_nil in Ha.
  - eapply effect_todos_present; [apply step_effect|done].
Qed.

(** X2. In every state the service reaches from the empty files, an account
    of the users file has the role [user] and an account of the admins
    file the role [admin], and every account has a task array (the
    [|| []] fallbacks of the routes never fire). *)
Theorem accounts_well_formed `{Ext : Externals} (st : State) :
  reachable st -> roles_match st /\ todos_present st.
Proof.
  intros Hr. split; [by apply reachable_roles|by apply reachable_todos_present].
Qed.

(** X3. In every reachable state every stored task label is trimmed (it
    neither starts nor ends with white space) and at most 140 code units
    long; it may be empty. *)
Theorem stored_labels_trimmed `{Ext : Externals} (st : State) :
  reachable st -> labels_trimmed st.
Proof.
  intros Hr. induction Hr as [|st ev _ IH].
  - intros a t Ha. by apply not_elem_of_nil in Ha.
  - eapply effect_labels; [apply step_effect|done].
Qed.

(** ** Sessions *)

Lemma effect_ids st st' w x :
  effect st st' ->
  x ∈ map acc_id (partition w st) -> x ∈ map acc_id (partition w st').
Proof.
  intros He Hx. destruct (effect_core st st' w He) as (new & Hc & _).
  assert (Hid : forall l, map acc_id l = map (fun c => c.1.1.1.1.1) (map core l)).
  { intros l. rewrite map_map. done. }
  rewrite Hid in *. rewrite Hc, map_app. apply elem_of_app. by left.
Qed.

Lemma commit_sessions o st :
  sessions (commit o st)
  = match issued o with
    | Some (token, s) => <[token := s]> (sessions st)
    | None => sessions st
    end.
Proof.
  unfold commit, register_session.
  destruct (issued o) as [[token s]|]; simpl; by rewrite persist_sessions.
Qed.

(** The session a route issues names an account that is in the
    partition of the session's role once the route's write has landed. *)
Lemma issued_account `{Ext : Externals} r st req e token s :
  issued (handle r st req e) = Some (token, s) ->
  token = uuid_token e
  /\ userId s ∈ map acc_id (partition (writer_for (role s))
                                      (commit (handle r st req e) st)).
Proof.
  destruct r; simpl.
  - done.
  - unfold post_register. destruct (registerSchema _); [|done].
    cbv zeta. destruct (or_found _ _); [done|].
    intros [= <- <-]. split; [done|]. simpl.
    rewrite map_app. apply elem_of_app. right. apply list_elem_of_here.
  - unfold post_login. destruct (loginSchema _); [|done].
    cbv zeta. destruct (find _ (readUsers st)) as [u|] eqn:Eu.
    + destruct (negb _); [done|]. intros [= <- <-]. split; [done|]. simpl.
      apply find_some in Eu as [Hin _]. apply list_elem_of_fmap.
      exists u. split; [done|]. by apply list_elem_of_In.
    + destruct (find _ (readAdmins st)) as [u|] eqn:Ea; [|done].
      destruct (negb _); [done|]. intros [= <- <-]. split; [done|]. simpl.
      apply find_some in Ea as [Hin _]. apply list_elem_of_fmap.
      exists u. split; [done|]. by apply list_elem_of_In.
  - unfold get_session. by destruct (requireAuth _ _ _).
  - unfold get_todos. by destruct (requireAuth _ _ _).
  - unfold post_todos. destruct (requireAuth _ _ _); [done|].
    by destruct (todoCreateSchema _).
  - unfold patch_todo. destruct (requireAuth _ _ _); [done|].
    cbv zeta. by destruct (find_at _ _) as [[? ?]|].
  - unfold delete_todo. destruct (requireAuth _ _ _); [done|].
    cbv zeta. by destruct (bool_decide _).
  - unfold get_overview. by destruct (requireAuth _ _ _).
  - unfold post_admin_users. destruct (requireAuth _ _ _); [done|].
    destruct (adminCreateUserSchema _); [|done].
    cbv zeta. by destruct (or_found _ _).
Qed.

Lemma step_sessions_live `{Ext : Externals} ev st :
  sessions_live st -> sessions_live (step ev st).
Proof.
  intros Hinv token s. destruct ev as [cfg e|r req e].
  - unfold step, bootstrap. rewrite persist_sessions. simpl.
    by rewrite lookup_empty.
  - pose proof (call_effect r req e st) as He. simpl in *.
    rewrite commit_sessions.
    destruct (issued (handle r st req e)) as [[token' s']|] eqn:Ei.
    + destruct (decide (token' = token)) as [->|Hne].
      * rewrite lookup_insert_eq. intros [= ->].
        by apply issued_account in Ei as [_ ?].
      * rewrite lookup_insert_ne by done. intros H.
        eapply effect_ids; [exact He|]. by eapply Hinv.
    + intros H. eapply effect_ids; [exact He|]. by eapply Hinv.
Qed.

Lemma reachable_sessions_live `{Ext : Externals} st :
  reachable st -> sessions_live st.
Proof.
  induction 1 as [|st ev _ IH]; [|by apply step_sessions_live].
  intros token s. simpl. by rewrite lookup_empty.
Qed.

Lemma bearer_header token :
  let hdr := Js.or_str (Some (String.append "Bearer " token)) "" in
  Js.startsWith "Bearer " hdr = true /\ Js.replace "Bearer " "" hdr = token.
Proof.
  intros hdr.
  change hdr with (String.append "Bearer " token).
  split; [apply startsWith_append|apply replace_prefix].
Qed.

(** X4. With requests handled one at a time, no token of the session map
    goes stale: in every state reached from the empty files by restarts
    and by requests handled each from its read to its write, a request
    carrying [Bearer <token>] for a token of the map passes [requireAuth]
    (no admin required), whatever its body, and resolves to an account of
    the session's id whose stored role is the session's role.  The
    invalid-token answer for a session without account does not occur
    there.  (States reached by requests whose reads and writes
    interleave are not covered.) *)
Theorem sessions_resolve `{Ext : Externals}
    (st : State) (token : string) (s : Session) (b : JVal) (id : string) :
  reachable st ->
  sessions st !! token = Some s ->
  exists auth,
    requireAuth st (mkRequest (Some (String.append "Bearer " token)) b id) false
    = inr auth
    /\ acc_id (auth_user auth) = userId s
    /\ acc_role (auth_user auth) = role s
    /\ auth_role auth = role s
    /\ auth_token auth = token.
Proof.
  intros Hr Hs.
  pose proof (reachable_sessions_live st Hr token s Hs) as Hlive.
  pose proof (reachable_roles st Hr) as Hroles.
  destruct (find_at_id_present _ _ Hlive) as (i & a & E & Hi & Ha & _).
  unfold requireAuth. cbn [authorization].
  destruct (bearer_header token) as [-> ->]. simpl negb. cbv iota.
  unfold getSession. rewrite Hs. cbv zeta.
  rewrite reader_for_partition, E. simpl.
  eexists. split; [reflexivity|]. simpl. split; [done|]. split; [|done].
  rewrite (Hroles (writer_for (role s)) a).
  - unfold writer_for. by destruct (role s).
  - apply list_elem_of_lookup. by exists i.
Qed.

(** ** Answers *)

Lemma requireAuth_reject st req adm r :
  requireAuth st req adm = inl r ->
  exists c m, (c, m) ∈ error_answers /\ r = reply c (message m).
Proof.
  unfold requireAuth.
  destruct (negb _).
  { intros [= <-]. exists 401, "missing-token". split; [|done].
    unfold error_answers. set_solver. }
  destruct (getSession _ _) as [s|].
  2:{ intros [= <-]. exists 401, "invalid-token". split; [|done].
      unfold error_answers. set_solver. }
  cbv zeta. destruct (find_at _ _) as [[i a]|].
  2:{ intros [= <-]. exists 401, "invalid-token". split; [|done].
      unfold error_answers. set_solver. }
  destruct (_ && _); [|done].
  intros [= <-]. exists 403, "forbidden". split; [|done].
  unfold error_answers. set_solver.
Qed.

Ltac answered c m :=
  right; right; exists c, m;
  split; [unfold error_answers; set_solver|reflexivity].

Ltac turned_away H :=
  let c := fresh "c" in let m := fresh "m" in
  let Hin := fresh "Hin" in
  apply requireAuth_reject in H as (c & m & Hin & ->);
  right; right; exists c, m; split; [exact Hin|reflexivity].

Ltac succeeded := left; eexists; (by left) || (by right).

(** The three kinds of answer. *)
Lemma answer_cases `{Ext : Externals} r st req e :
  (exists v, resp (handle r st req e) = reply 200 v
             \/ resp (handle r st req e) = reply 201 v)
  \/ (r = DeleteTodo /\ resp (handle r st req e) = mkResponse 204 None)
  \/ (exists c m, (c, m) ∈ error_answers
                  /\ handle r st req e = respond (reply c (message m))).
Proof.
  destruct r; simpl.
  - succeeded.
  - unfold post_register. destruct (registerSchema _);
      [|answered 400 "validation-error"].
    cbv zeta. destruct (or_found _ _); [answered 409 "email-in-use"|succeeded].
  - unfold post_login. destruct (loginSchema _);
      [|answered 400 "validation-error"].
    cbv zeta. destruct (find _ (readUsers st)).
    + destruct (negb _); [answered 401 "invalid-credentials"|succeeded].
    + destruct (find _ (readAdmins st)); [|answered 401 "invalid-credentials"].
      destruct (negb _); [answered 401 "invalid-credentials"|succeeded].
  - unfold get_session. destruct (requireAuth _ _ _) eqn:Ha; [turned_away Ha|succeeded].
  - unfold get_todos. destruct (requireAuth _ _ _) eqn:Ha; [turned_away Ha|succeeded].
  - unfold post_todos. destruct (requireAuth _ _ _) eqn:Ha; [turned_away Ha|].
    destruct (todoCreateSchema _); [succeeded|answered 400 "validation-error"].
  - unfold patch_todo. destruct (requireAuth _ _ _) eqn:Ha; [turned_away Ha|].
    cbv zeta. destruct (find_at _ _) as [[j t]|]; [succeeded|answered 404 "not-found"].
  - unfold delete_todo. destruct (requireAuth _ _ _) eqn:Ha; [turned_away Ha|].
    cbv zeta. destruct (bool_decide _); [answered 404 "not-found"|].
    right. left. done.
  - unfold get_overview. destruct (requireAuth _ _ _) eqn:Ha; [turned_away Ha|succeeded].
  - unfold post_admin_users. destruct (requireAuth _ _ _) eqn:Ha; [turned_away Ha|].
    destruct (adminCreateUserSchema _); [|answered 400 "validation-error"].
    cbv zeta. destruct (or_found _ _); [answered 409 "email-in-use"|succeeded].
Qed.

(** X5. Every answer of every route is either a success (200, 201 or 204)
    or one of seven error answers, a status with a one-field body
    [{message}]; and a request answered with an error writes no file,
    issues no session and leaves the state as it was. *)
Theorem answers_taxonomy `{Ext : Externals}
    (r : Route) (st : State) (req : Request) (e : Env) :
  status (resp (handle r st req e)) ∈ [200; 201; 204]
  \/ exists c m,
       (c, m) ∈ error_answers
       /\ handle r st req e = respond (reply c (message m))
       /\ step (Call r req e) st = st.
Proof.
  destruct (answer_cases r st req e)
    as [(v & [-> | ->])|[(_ & ->)|(c & m & Hin & Ho)]].
  - left. simpl. set_solver.
  - left. simpl. set_solver.
  - left. simpl. set_solver.
  - right. exists c, m. split; [done|]. split; [done|].
    simpl. rewrite Ho. apply commit_respond.
Qed.

(** X6. With requests handled one at a time: in every state reached from
    the empty files by restarts and by requests handled each from its
    read to its write, the two admin routes called with a user's token
    answer 403 forbidden, whatever the body.  (States reached by requests
    whose reads and writes interleave are not covered: there the account
    of a session can be lost, and the answer is 401.) *)
Theorem admin_routes_forbidden `{Ext : Externals}
    (st : State) (token : string) (s : Session) (r : Route)
    (b : JVal) (id : string) (e : Env) :
  reachable st ->
  sessions st !! token = Some s -> role s = RUser ->
  guard r = Some true ->
  handle r st (mkRequest (Some (String.append "Bearer " token)) b id) e
  = respond (reply 403 (message "forbidden")).
Proof.
  intros Hr Hs Hrole Hg.
  pose proof (reachable_sessions_live st Hr token s Hs) as Hlive.
  destruct (find_at_id_present _ _ Hlive) as (i & a & E & _).
  assert (Hgate : requireAuth st (mkRequest (Some (String.append "Bearer " token)) b id) true
                  = inl (reply 403 (message "forbidden"))).
  { unfold requireAuth. cbn [authorization].
    destruct (bearer_header token) as [-> ->]. simpl negb. cbv iota.
    unfold getSession. rewrite Hs. cbv zeta.
    rewrite reader_for_partition, E, Hrole. done. }
  destruct r; try discriminate; simpl.
  - unfold get_overview. by rewrite Hgate.
  - unfold post_admin_users. by rewrite Hgate.
Qed.

Lemma ada_token : sessions Sample.ada_state !! "tok-1" = Some (mkSession "id-1" RUser 101).
Proof. vm_compute. reflexivity. Qed.

Lemma admin_routes_forbidden_witness :
  handle (Ext := Sample.externals) GetOverview Sample.ada_state
         (Sample.bearer "tok-1" (JObj []) "") (Sample.env "7" 107)
  = respond (reply 403 (message "forbidden")).
Proof.
  apply (admin_routes_forbidden (Ext := Sample.externals)
           Sample.ada_state "tok-1" (mkSession "id-1" RUser 101)).
  - exact ada_reachable.
  - exact ada_token.
  - reflexivity.
  - reflexivity.
Defined.

Lemma sessions_resolve_witness :
  exists auth,
    requireAuth Sample.ada_state (Sample.bearer "tok-1" JNull "x") false = inr auth
    /\ acc_id (auth_user auth) = "id-1".
Proof.
  destruct (sessions_resolve (Ext := Sample.externals) Sample.ada_state "tok-1"
              (mkSession "id-1" RUser 101) JNull "x" ada_reachable ada_token)
    as (auth & Ha & Hid & _).
  exists auth. split; [exact Ha|exact Hid].
Defined.

Lemma milk_reachable : reachable (Ext := Sample.externals) Sample.milk_state.
Proof. apply (reach_step (Ext := Sample.externals)), ada_reachable. Qed.

Lemma accounts_well_formed_witness :
  roles_match Sample.milk_state /\ todos_present Sample.milk_state.
Proof. exact (accounts_well_formed (Ext := Sample.externals) _ milk_reachable). Defined.

Lemma stored_labels_trimmed_witness :
  labels_trimmed Sample.milk_state
  /\ map todo_label (flat_map (fun a => or_empty (acc_todos a))
                              (accounts Sample.milk_state)) = ["buy milk"].
Proof.
  split; [|reflexivity].
  exact (stored_labels_trimmed (Ext := Sample.externals) _ milk_reachable).
Defined.

(** ** Login *)

Lemma NoDup_map_inj {A B} (f : A -> B) (l : list A) x y :
  NoDup (map f l) -> x ∈ l -> y ∈ l -> f x = f y -> x = y.
Proof.
  induction l as [|a l IH]; simpl; intros Hnd Hx Hy Hf.
  - by apply not_elem_of_nil in Hx.
  - apply NoDup_cons in Hnd as [Hna Hnd].
    apply elem_of_cons in Hx as [->|Hx]; apply elem_of_cons in Hy as [->|Hy].
    + done.
    + exfalso. apply Hna. rewrite Hf. apply list_elem_of_fmap. by exists y.
    + exfalso. apply Hna. rewrite <- Hf. apply list_elem_of_fmap. by exists x.
    + by apply IH.
Qed.

Lemma find_email_Some (email : string) (l : list Account) u :
  find (fun entry => Js.seq (acc_email entry) email) l = Some u ->
  u ∈ l /\ acc_email u = email.
Proof.
  intros H. apply find_some in H as [Hin He]. apply seq_true in He.
  split; [by apply list_elem_of_In|done].
Qed.

(** Where [login] finds the one account that holds an address. *)
Lemma login_finds st email a :
  emails_lower st -> emails_unique st ->
  a ∈ accounts st -> acc_email a = email ->
  let hit := fun entry : Account => Js.seq (acc_email entry) email in
  (a ∈ usersFile st /\ find hit (usersFile st) = Some a)
  \/ (a ∈ adminsFile st /\ find hit (usersFile st) = None
      /\ find hit (adminsFile st) = Some a).
Proof.
  intros Hlow Hun Ha He hit.
  assert (Hsame : forall u, u ∈ accounts st -> acc_email u = email -> u = a).
  { intros u Hu Hue. eapply (NoDup_map_inj _ _ u a Hun); [done..|]. simpl. congruence. }
  destruct (find hit (usersFile st)) as [u|] eqn:Eu.
  - apply find_email_Some in Eu as [Hu Hue].
    assert (u = a) as ->.
    { apply Hsame; [|done]. unfold accounts. apply elem_of_app. by left. }
    by left.
  - right. unfold accounts in Ha. apply elem_of_app in Ha as [Ha|Ha].
    + destruct (find_email_hit email (usersFile st) a Ha He) as [x Hx].
      unfold hit in Eu. congruence.
    + split; [done|]. split; [done|].
      destruct (find_email_hit email (adminsFile st) a Ha He) as [x Hx].
      fold hit in Hx. rewrite Hx. f_equal.
      apply find_email_Some in Hx as [Hxin Hxe]. apply Hsame; [|done].
      unfold accounts. apply elem_of_app. by right.
Qed.

(** X7. Login, for a body that passes its schema, in a state reached with
    requests handled one at a time and seed addresses no user holds.  An
    address no account holds (up to letter case) is answered 401
    invalid-credentials.  For the account that holds it, a password
    bcrypt rejects gets the very same answer, and a password it accepts
    gets 200 with that account's profile and a session carrying the
    account's id and its role; no file is written either way. *)
Theorem login_outcome `{Ext : Externals}
    (st : State) (req : Request) (e : Env) (p : LoginPayload) :
  reachable_clear st ->
  loginSchema (body req) = Some p ->
  (~ email_known (login_email p) st ->
   post_login st req e = respond (reply 401 (message "invalid-credentials")))
  /\
  (forall a,
     a ∈ accounts st ->
     Js.toLowerCase (acc_email a) = Js.toLowerCase (login_email p) ->
     post_login st req e
     = if bcrypt_compare (login_password p) (acc_passwordHash a)
       then mkOutcome
              (reply 200 (JObj [("token", JStr (uuid_token e));
                                ("profile", profile a)]))
              None
              (Some (uuid_token e,
                     mkSession (acc_id a) (acc_role a) (now_session e)))
       else respond (reply 401 (message "invalid-credentials"))).
Proof.
  intros Hr Hp. unfold post_login. rewrite Hp. cbv zeta. split.
  - intros Hno.
    assert (Hnone : forall l, (forall a, a ∈ l -> a ∈ accounts st) ->
              find (fun entry => Js.seq (acc_email entry)
                                        (Js.toLowerCase (login_email p))) l = None).
    { intros l Hl. destruct (find _ l) as [u|] eqn:Eu; [|done].
      apply find_email_Some in Eu as [Hu Hue]. exfalso. apply Hno.
      exists u. split; [by apply Hl|]. rewrite Hue. apply toLowerCase_idem. }
    unfold readUsers, readAdmins.
    rewrite (Hnone (usersFile st)), (Hnone (adminsFile st)); [done|..];
      intros a Ha; unfold accounts; apply elem_of_app; auto.
  - intros a Ha Hmail.
    pose proof (reachable_emails_lower st (reachable_clear_reachable st Hr)) as Hlow.
    pose proof (reachable_clear_unique st Hr) as Hun.
    pose proof (reachable_roles st (reachable_clear_reachable st Hr)) as Hroles.
    assert (He : acc_email a = Js.toLowerCase (login_email p)).
    { rewrite <- Hmail. symmetry. unfold emails_lower in Hlow.
      rewrite Forall_forall in Hlow. by apply Hlow. }
    unfold readUsers, readAdmins.
    destruct (login_finds st _ a Hlow Hun Ha He) as [[Hin ->]|(Hin & -> & ->)].
    + pose proof (Hroles writeUsers a Hin) as Hra. simpl in Hra. rewrite Hra.
      by destruct (bcrypt_compare _ _).
    + pose proof (Hroles writeAdmins a Hin) as Hra. simpl in Hra. rewrite Hra.
      by destruct (bcrypt_compare _ _).
Qed.

Lemma login_outcome_witness :
  post_login (Ext := Sample.externals) Sample.ada_state
    (Sample.anonymous (JObj [("email", JStr "ADA@X.COM"); ("password", JStr "secret9")]))
    (Sample.env "8" 108)
  = respond (reply 401 (message "invalid-credentials")).
Proof.
  destruct (login_outcome (Ext := Sample.externals) Sample.ada_state
              (Sample.anonymous (JObj [("email", JStr "ADA@X.COM");
                                       ("password", JStr "secret9")]))
              (Sample.env "8" 108) (mkLoginPayload "ADA@X.COM" "secret9")
              ada_reachable_clear) as [_ H].
  - vm_compute. reflexivity.
  - rewrite (H Sample.ada).
    + reflexivity.
    + apply list_elem_of_here.
    + reflexivity.
Defined.

(** ** Task routes touch one account *)

Lemma untouched_refl w i a st :
  partition w st !! i = Some a -> untouched_but w i st st.
Proof. intros H. split; [done|]. split; [done|]. split; [done|]. by exists a, a. Qed.

Lemma untouched_save st req auth ts :
  requireAuth st req false = inr auth ->
  untouched_but (auth_writer auth) (auth_index auth) st
    (persist (save auth (set_todos (auth_user auth) ts)) st).
Proof.
  intros H. destruct (save_account _ _ _ _ ts H) as (a & Hi & _ & ->).
  split; [apply persist_other|]. split; [apply persist_sessions|].
  rewrite persist_partition. split.
  - intros j Hj. by rewrite list_lookup_insert_ne.
  - exists a, (set_todos a ts). split; [done|]. split; [|done].
    apply list_lookup_insert_eq. by eapply lookup_lt_Some.
Qed.

(** X8. With requests handled one at a time: a request to a task route
    (list, create, toggle, delete) or to the session route by an
    authenticated caller, handled from its read to its write with no
    other write in between, leaves the other partition, the session map
    and every other account of the caller's partition exactly as they
    were, and of the caller's own account it can change the task list
    only.  (A write that lands after another request's write puts back
    the whole partition as it was read, and is not covered.) *)
Theorem task_routes_isolated `{Ext : Externals}
    (r : Route) (st : State) (req : Request) (e : Env) (auth : Auth) :
  guard r = Some false ->
  requireAuth st req false = inr auth ->
  untouched_but (auth_writer auth) (auth_index auth) st (step (Call r req e) st).
Proof.
  intros Hg Hauth.
  destruct (save_account _ _ _ _ [] Hauth) as (a & Hi & _).
  pose proof (untouched_refl _ _ _ st Hi) as Hsame.
  destruct r; try discriminate; simpl.
  - unfold get_session. rewrite Hauth. by rewrite commit_respond.
  - unfold get_todos. rewrite Hauth. by rewrite commit_respond.
  - unfold post_todos. rewrite Hauth.
    destruct (todoCreateSchema _); [|by rewrite commit_respond].
    rewrite commit_quiet. by eapply untouched_save.
  - unfold patch_todo. rewrite Hauth. cbv zeta.
    destruct (find_at _ _) as [[j t]|]; [|by rewrite commit_respond].
    rewrite commit_quiet. by eapply untouched_save.
  - unfold delete_todo. rewrite Hauth. cbv zeta.
    destruct (bool_decide _); [by rewrite commit_respond|].
    rewrite commit_quiet. by eapply untouched_save.
Qed.

Lemma task_routes_isolated_witness :
  untouched_but writeUsers 0 Sample.ada_state Sample.milk_state.
Proof.
  apply (task_routes_isolated (Ext := Sample.externals) PostTodos Sample.ada_state
           (Sample.bearer "tok-1" (Sample.label_body "  buy milk  ") "")
           (Sample.env "2" 102)
           (mkAuth 0 Sample.ada [Sample.ada] writeUsers "tok-1" RUser)).
  - reflexivity.
  - vm_compute. reflexivity.
Defined.

(** ** Deleting, and listing after a change *)

Lemma get_todos_lists st req auth :
  requireAuth st req false = inr auth ->
  get_todos st req
  = respond (reply 200 (JObj [("todos", todosArr (or_empty (acc_todos (auth_user auth))))])).
Proof. intros H. unfold get_todos. by rewrite H. Qed.

(** X9. A delete whose id is in the caller's task list is answered 204
    without body; the stored list becomes the old one without every task
    of that id, the others in their order.  Asked for the list right
    after, the server returns exactly that list, and the same delete
    again is answered 404 not-found. *)
Theorem delete_todo_hit (st : State) (req : Request) (auth : Auth) :
  requireAuth st req false = inr auth ->
  param_id req ∈ todo_ids (auth_user auth) ->
  let old := or_empty (acc_todos (auth_user auth)) in
  let next := List.filter (fun t => negb (Js.seq (todo_id t) (param_id req))) old in
  let st' := commit (delete_todo st req) st in
  resp (delete_todo st req) = mkResponse 204 None
  /\ partition (auth_writer auth) st' !! auth_index auth
     = Some (set_todos (auth_user auth) next)
  /\ (param_id req ∉ map todo_id next)
  /\ (forall t, t ∈ old -> todo_id t <> param_id req -> t ∈ next)
  /\ (length next < length old)%nat
  /\ resp (get_todos st' req) = reply 200 (JObj [("todos", todosArr next)])
  /\ resp (delete_todo st' req) = reply 404 (message "not-found").
Proof.
  intros Hauth Hin old next st'.
  assert (Hlen : length next <> length old).
  { intros Heq. apply filter_keeps_all, todo_id_absent in Heq. by apply Heq. }
  assert (Hst : st' = persist (save auth (set_todos (auth_user auth) next)) st).
  { unfold st', delete_todo. rewrite Hauth. cbv zeta. fold old. fold next.
    by rewrite bool_decide_eq_false_2. }
  pose proof (requireAuth_after_save st req auth next Hauth) as Hauth'.
  cbv zeta in Hauth'. rewrite <- Hst in Hauth'.
  assert (Hgone : param_id req ∉ map todo_id next).
  { apply todo_id_absent, Forall_forall. intros t Ht.
    by apply list_elem_of_In, filter_In in Ht as [_ ?]. }
  split; [|split; [|split; [done|split; [|split; [|split]]]]].
  - unfold delete_todo. rewrite Hauth. cbv zeta. fold old. fold next.
    by rewrite bool_decide_eq_false_2.
  - rewrite Hst. unfold save. rewrite persist_partition.
    apply list_lookup_insert_eq.
    pose proof (requireAuth_inr _ _ _ _ Hauth) as (_ & _ & _ & _ & _ & Hl & _).
    rewrite Hl, length_insert. by eapply auth_user_in_list.
  - intros t Ht Hne. apply list_elem_of_In, filter_In.
    split; [by apply list_elem_of_In|]. by apply negb_true_iff, seq_false.
  - pose proof (List.filter_length_le
                  (fun t => negb (Js.seq (todo_id t) (param_id req))) old).
    fold next in H. lia.
  - by rewrite (get_todos_lists _ _ _ Hauth').
  - unfold delete_todo. rewrite Hauth'. cbv zeta.
    rewrite bool_decide_eq_true_2; [done|].
    apply filter_keeps_all. by apply (todo_id_absent (param_id req) next).
Qed.

Lemma delete_todo_hit_witness :
  let req := Sample.bearer "tok-1" (JObj []) "id-2" in
  resp (delete_todo Sample.milk_state req) = mkResponse 204 None
  /\ resp (delete_todo (commit (delete_todo Sample.milk_state req) Sample.milk_state) req)
     = reply 404 (message "not-found").
Proof.
  intros req.
  destruct (delete_todo_hit Sample.milk_state req Sample.ada_auth)
    as (H1 & _ & _ & _ & _ & _ & H2).
  - vm_compute. reflexivity.
  - vm_compute. apply list_elem_of_here.
  - split; [exact H1|exact H2].
Defined.

(** X10. After an accepted POST /api/todos, the list the server returns to
    the same caller starts with the task the POST answered, with the
    trimmed label and [done = false], followed by the list as it was. *)
Theorem create_then_list (st : State) (req req' : Request) (e : Env)
    (auth : Auth) (l : string) :
  requireAuth st req false = inr auth ->
  todoCreateSchema (body req) = Some l ->
  authorization req' = authorization req ->
  let todo := mkTodo (uuid e) (Js.trim l) false (now e) in
  let st' := commit (post_todos st req e) st in
  resp (post_todos st req e) = reply 201 (JObj [("todo", todoObj todo)])
  /\ resp (get_todos st' req')
     = reply 200 (JObj [("todos",
                         todosArr (todo :: or_empty (acc_todos (auth_user auth))))]).
Proof.
  intros Hauth Hl Hhdr todo st'.
  pose proof (post_todos_created st req e auth l Hauth Hl) as Hp.
  split; [by rewrite Hp|].
  pose proof (requireAuth_after_save st req auth
                (todo :: or_empty (acc_todos (auth_user auth))) Hauth) as Hauth'.
  cbv zeta in Hauth'.
  assert (Hst : st' = persist (save auth (set_todos (auth_user auth)
                         (todo :: or_empty (acc_todos (auth_user auth))))) st).
  { unfold st'. by rewrite Hp. }
  rewrite <- Hst in Hauth'.
  rewrite (requireAuth_header _ req req') in Hauth' by done.
  by rewrite (get_todos_lists _ _ _ Hauth').
Qed.

Lemma create_then_list_witness :
  resp (get_todos Sample.milk_state (Sample.bearer "tok-1" (JObj []) ""))
  = reply 200 (JObj [("todos", todosArr [Sample.milk])]).
Proof.
  destruct (create_then_list Sample.ada_state
              (Sample.bearer "tok-1" (Sample.label_body "  buy milk  ") "")
              (Sample.bearer "tok-1" (JObj []) "")
              (Sample.env "2" 102)
              (mkAuth 0 Sample.ada [Sample.ada] writeUsers "tok-1" RUser)
              "  buy milk  ") as [_ H].
  - vm_compute. reflexivity.
  - vm_compute. reflexivity.
  - reflexivity.
  - exact H.
Defined.

(** ** Admin provisioning *)

Lemma unknown_email_not_found (st : State) (email : string) :
  ~ email_known email st ->
  forall l, (forall a, a ∈ l -> a ∈ accounts st) ->
    Forall (fun a => Js.seq (acc_email a) (Js.toLowerCase email) = false) l.
Proof.
  intros Hno l Hl. apply Forall_forall. intros a Ha. apply seq_false.
  intros He. apply Hno. exists a. split; [by apply Hl|].
  rewrite He. apply toLowerCase_idem.
Qed.

Lemma in_users st a : a ∈ usersFile st -> a ∈ accounts st.
Proof. intros H. unfold accounts. apply elem_of_app. by left. Qed.

Lemma in_admins st a : a ∈ adminsFile st -> a ∈ accounts st.
Proof. intros H. unfold accounts. apply elem_of_app. by right. Qed.

Lemma find_None_Forall {A} (f : A -> bool) (l : list A) :
  Forall (fun x => f x = false) l -> find f l = None.
Proof. induction 1 as [|x l Hx _ IH]; simpl; [done|]. by rewrite Hx. Qed.

(** X11. Admin provisioning by an admin caller, for a body that passes the
    schema and an address no account holds: the answer is 201 with the
    profile of the new account and no token; the account, with the
    lower-cased address, the role asked for ([user] when none is) and an
    empty task list, is appended to the partition of that role, the
    other partition and the session map stay as they are.  A login with
    that address in any letter case and the same password then succeeds
    with a session of the new account's id and role. *)
Theorem admin_provisioning `{Ext : Externals}
    (st : State) (req req' : Request) (e e' : Env) (auth : Auth)
    (p : AdminCreatePayload) (again : LoginPayload) :
  bcrypt_sound ->
  requireAuth st req true = inr auth ->
  adminCreateUserSchema (body req) = Some p ->
  ~ email_known (adm_email p) st ->
  loginSchema (body req') = Some again ->
  Js.toLowerCase (login_email again) = Js.toLowerCase (adm_email p) ->
  login_password again = adm_password p ->
  let r := default RUser (adm_role p) in
  let newUser :=
    mkAccount (uuid e) (Js.trim (adm_name p)) (Js.toLowerCase (adm_email p))
              (bcrypt_hash (adm_password p) (salt e)) (now e) r (Some []) in
  let st' := commit (post_admin_users st req e) st in
  resp (post_admin_users st req e) = reply 201 (JObj [("profile", profile newUser)])
  /\ issued (post_admin_users st req e) = None
  /\ partition (writer_for r) st' = partition (writer_for r) st ++ [newUser]
  /\ partition (other (writer_for r)) st' = partition (other (writer_for r)) st
  /\ sessions st' = sessions st
  /\ post_login st' req' e'
     = mkOutcome
         (reply 200 (JObj [("token", JStr (uuid_token e'));
                           ("profile", profile newUser)]))
         None
         (Some (uuid_token e', mkSession (uuid e) r (now_session e'))).
Proof.
  intros Hsound Hauth Hp Hno Hl Hmail Hpw r newUser st'.
  pose proof (unknown_email_not_found st _ Hno) as Hnf.
  pose proof (find_None_Forall _ _ (Hnf (usersFile st) (in_users st))) as Hfu.
  pose proof (find_None_Forall _ _ (Hnf (adminsFile st) (in_admins st))) as Hfa.
  assert (Hout : post_admin_users st req e
                 = mkOutcome (reply 201 (JObj [("profile", profile newUser)]))
                     (Some (writer_for r, partition (writer_for r) st ++ [newUser]))
                     None).
  { unfold post_admin_users. rewrite Hauth, Hp. cbv zeta.
    unfold readUsers, readAdmins. rewrite Hfu, Hfa. simpl or_found. cbv iota.
    fold r. fold newUser. cbn [acc_role newUser]. unfold writer_for.
    by destruct (decide (r = RAdmin)). }
  assert (Hst : st' = persist (Some (writer_for r, partition (writer_for r) st ++ [newUser])) st).
  { unfold st'. by rewrite Hout, commit_quiet. }
  rewrite Hout. split; [done|]. split; [done|].
  rewrite Hst. split; [apply persist_partition|]. split; [apply persist_other|].
  split; [apply persist_sessions|].
  unfold post_login. rewrite Hl. cbv zeta. rewrite Hmail.
  assert (Hhit : Js.seq (Js.toLowerCase (adm_email p)) (Js.toLowerCase (adm_email p))
                 = true) by apply seq_refl.
  assert (Hok : bcrypt_compare (login_password again) (acc_passwordHash newUser)
                = true).
  { rewrite Hpw. apply Hsound. }
  unfold readUsers, readAdmins, writer_for.
  destruct (decide (r = RAdmin)) as [Hr|Hr]; simpl.
  - rewrite Hfu, find_app_skip by apply (Hnf (adminsFile st) (in_admins st)).
    simpl. rewrite Hhit, Hok. simpl. by rewrite Hr.
  - rewrite find_app_skip by apply (Hnf (usersFile st) (in_users st)).
    simpl. rewrite Hhit, Hok. simpl. by destruct r.
Qed.

Lemma admin_provisioning_witness :
  let req := Sample.bearer "tok-1"
               (JObj [("name", JStr "Bob"); ("email", JStr "Bob@X.com");
                      ("password", JStr "secret2"); ("role", JStr "admin")]) "" in
  let login := Sample.anonymous
                 (JObj [("email", JStr "BOB@x.com"); ("password", JStr "secret2")]) in
  let st' := commit (post_admin_users (Ext := Sample.externals) Sample.owner_state req
                       (Sample.env "2" 102)) Sample.owner_state in
  map acc_email (adminsFile st') = ["owner@winery.board"; "bob@x.com"]
  /\ issued (post_login (Ext := Sample.externals) st' login (Sample.env "3" 103))
     = Some ("tok-3", mkSession "id-2" RAdmin 103).
Proof.
  intros req login st'.
  destruct (admin_provisioning (Ext := Sample.externals) Sample.owner_state req login
              (Sample.env "2" 102) (Sample.env "3" 103)
              (mkAuth 0 (mkAccount "id-0" "Builder" "owner@winery.board"
                                   "salt-0$wineryadmin" 100 RAdmin (Some []))
                      [mkAccount "id-0" "Builder" "owner@winery.board"
                                 "salt-0$wineryadmin" 100 RAdmin (Some [])]
                      writeAdmins "tok-1" RAdmin)
              (mkAdminCreatePayload "Bob" "Bob@X.com" "secret2" (Some RAdmin))
              (mkLoginPayload "BOB@x.com" "secret2"))
    as (_ & _ & Hpart & _ & _ & Hlogin).
  - exact sample_bcrypt_sound.
  - vm_compute. reflexivity.
  - vm_compute. reflexivity.
  - intros (a & Hin & Ha). vm_compute in Hin.
    apply list_elem_of_singleton in Hin as ->. vm_compute in Ha. discriminate.
  - vm_compute. reflexivity.
  - reflexivity.
  - reflexivity.
  - split.
    + apply (f_equal (map acc_email)) in Hpart. exact Hpart.
    + apply (f_equal issued) in Hlogin. exact Hlogin.
Defined.

(** ** A fresh token, presented back *)

(** X12. The token a registration answers with, presented as
    [Bearer <token>] to GET /api/auth/session right after, is answered
    200 with the same profile, provided [randomUUID] drew an id no
    account of the users partition has; without that the token resolves
    to the older account with the id. *)
Theorem register_then_session `{Ext : Externals}
    (st : State) (req : Request) (e : Env) (b : JVal) (id : string) :
  status (resp (post_register st req e)) = 201 ->
  uuid e ∉ map acc_id (usersFile st) ->
  let st' := commit (post_register st req e) st in
  exists v,
    json (resp (post_register st req e)) = Some v
    /\ prop "token" v = JStr (uuid_token e)
    /\ prop "id" (prop "profile" v) = JStr (uuid e)
    /\ get_session st' (mkRequest (Some (String.append "Bearer " (uuid_token e))) b id)
       = respond (reply 200 (JObj [("profile", prop "profile" v)])).
Proof.
  intros Hok Hfresh st'.
  destruct (post_register_created st req e Hok) as (payload & Hp & _ & Hreg).
  cbv zeta in Hreg.
  set (newUser := mkAccount (uuid e) (Js.trim (reg_name payload))
                            (Js.toLowerCase (reg_email payload))
                            (bcrypt_hash (reg_password payload) (salt e))
                            (now e) RUser (Some [])) in *.
  rewrite Hreg. eexists. split; [reflexivity|]. split; [reflexivity|].
  split; [reflexivity|].
  assert (Hu : usersFile st' = usersFile st ++ [newUser]).
  { unfold st'. by rewrite Hreg. }
  assert (Hs : sessions st' !! uuid_token e
               = Some (mkSession (uuid e) RUser (now_session e))).
  { unfold st'. rewrite Hreg. simpl. apply lookup_insert_eq. }
  assert (Hf : find_at (fun entry => Js.seq (acc_id entry) (uuid e)) (usersFile st')
               = Some (length (usersFile st), newUser)).
  { rewrite Hu. apply find_at_intro.
    - by rewrite lookup_app_r, Nat.sub_diag.
    - apply seq_refl.
    - intros j y Hj Hy. rewrite lookup_app_l in Hy by done.
      apply seq_false. intros Hid. apply Hfresh. rewrite <- Hid.
      apply list_elem_of_fmap. exists y. split; [done|].
      apply list_elem_of_lookup. by exists j. }
  unfold get_session, requireAuth. cbn [authorization].
  destruct (bearer_header (uuid_token e)) as [-> ->]. simpl negb. cbv iota.
  unfold getSession. rewrite Hs. cbv zeta.
  change (reader_for (role (mkSession (uuid e) RUser (now_session e))) st')
    with (usersFile st').
  cbn [userId]. rewrite Hf. reflexivity.
Qed.

Lemma register_then_session_witness :
  get_session Sample.ada_state (Sample.bearer "tok-1" JUndef "")
  = respond (reply 200 (JObj [("profile", profile Sample.ada)])).
Proof.
  destruct (register_then_session (Ext := Sample.externals)
              (step (Ext := Sample.externals)
                    (Boot Sample.default_env (Sample.env "0" 100)) initial)
              (Sample.anonymous (Sample.credentials "Ada" "Ada@X.com" "secret1"))
              (Sample.env "1" 101) JUndef "") as (v & Hv & _ & _ & H).
  - vm_compute. reflexivity.
  - vm_compute. apply not_elem_of_nil.
  - vm_compute in Hv. injection Hv as <-. exact H.
Defined.

(** ** The seeded admin *)

(** X13. On a start where no account holds the seed address, the seeded
    admin can log in: a login that passes the schema, with the seed
    address in any letter case and the configured password, is answered
    200 with a session of role [admin] for the seeded account. *)
Theorem seeded_admin_login `{Ext : Externals}
    (cfg : ProcessEnv) (e e' : Env) (st : State) (req : Request)
    (p : LoginPayload) :
  bcrypt_sound ->
  ~ email_known (seedEmail cfg) st ->
  loginSchema (body req) = Some p ->
  Js.toLowerCase (login_email p) = seedEmail cfg ->
  login_password p = Js.or_str (ADMIN_PASSWORD cfg) "wineryadmin" ->
  post_login (bootstrap cfg e st) req e'
  = mkOutcome
      (reply 200 (JObj [("token", JStr (uuid_token e'));
                        ("profile", profile (seedAccount cfg e))]))
      None
      (Some (uuid_token e', mkSession (uuid e) RAdmin (now_session e'))).
Proof.
  intros Hsound Hno Hp Hmail Hpw.
  pose proof (unknown_email_not_found st _ Hno) as Hnf.
  rewrite seedEmail_lower in Hnf.
  pose proof (Hnf (usersFile st) (in_users st)) as Hfu.
  pose proof (Hnf (adminsFile st) (in_admins st)) as Hfa.
  assert (Hb : usersFile (bootstrap cfg e st) = usersFile st
               /\ adminsFile (bootstrap cfg e st) = adminsFile st ++ [seedAccount cfg e]).
  { unfold bootstrap, ensureSeedAdmin. cbv zeta. unfold readAdmins. simpl adminsFile.
    by rewrite (find_None_Forall _ _ Hfa). }
  destruct Hb as [Hbu Hba].
  unfold post_login. rewrite Hp. cbv zeta. rewrite Hmail.
  unfold readUsers, readAdmins. rewrite Hbu, Hba.
  rewrite (find_None_Forall _ _ Hfu), (find_app_skip _ _ _ Hfa).
  simpl find. rewrite seq_refl.
  replace (bcrypt_compare (login_password p) (acc_passwordHash (seedAccount cfg e)))
    with true by (rewrite Hpw; symmetry; apply Hsound).
  reflexivity.
Qed.

Lemma seeded_admin_login_witness :
  issued (post_login (Ext := Sample.externals)
            (bootstrap (Ext := Sample.externals) Sample.default_env
                       (Sample.env "0" 100) initial)
            (Sample.anonymous (JObj [("email", JStr "Owner@Winery.Board");
                                     ("password", JStr "wineryadmin")]))
            (Sample.env "1" 101))
  = Some ("tok-1", mkSession "id-0" RAdmin 101).
Proof.
  rewrite (seeded_admin_login (Ext := Sample.externals) Sample.default_env
             (Sample.env "0" 100) (Sample.env "1" 101) initial
             (Sample.anonymous (JObj [("email", JStr "Owner@Winery.Board");
                                      ("password", JStr "wineryadmin")]))
             (mkLoginPayload "Owner@Winery.Board" "wineryadmin")).
  - reflexivity.
  - exact sample_bcrypt_sound.
  - intros (a & Hin & _). by apply not_elem_of_nil in Hin.
  - vm_compute. reflexivity.
  - reflexivity.
  - reflexivity.
Defined.

(** X14. [login] looks in the users partition first: when an account there
    stores the lower-cased address of a login, whatever session the
    login issues has the role [user] and the id of the first such
    account, also when an admin account holds the same address.  So an
    admin seeded with a registered user's address cannot log in as
    admin. *)
Theorem login_prefers_users `{Ext : Externals}
    (st : State) (req : Request) (e : Env) (p : LoginPayload)
    (u : Account) (token : string) (s : Session) :
  loginSchema (body req) = Some p ->
  u ∈ usersFile st ->
  acc_email u = Js.toLowerCase (login_email p) ->
  issued (post_login st req e) = Some (token, s) ->
  role s = RUser
  /\ exists i u', usersFile st !! i = Some u' /\ userId s = acc_id u'
                  /\ acc_email u' = Js.toLowerCase (login_email p)
                  /\ forall j v, (j < i)%nat -> usersFile st !! j = Some v ->
                                 acc_email v <> Js.toLowerCase (login_email p).
Proof.
  intros Hp Hu He. unfold post_login. rewrite Hp. cbv zeta. unfold readUsers.
  destruct (find_email_hit _ _ u Hu He) as [u' Hu'].
  rewrite Hu'.
  destruct (negb _); [done|]. intros [= <- <-]. split; [done|].
  clear Hu He u. induction (usersFile st) as [|a l IH]; [done|].
  simpl in Hu'. destruct (Js.seq (acc_email a) _) eqn:Ea.
  - injection Hu' as <-. exists 0%nat, a. apply seq_true in Ea.
    repeat split; [done..|]. intros; lia.
  - destruct (IH Hu') as (i & v & Hi & Hid & Hv & Hfirst).
    exists (S i), v. repeat split; [done..|].
    intros [|j] w Hj; simpl; [intros [= <-]; by apply seq_false in Ea|].
    apply Hfirst. lia.
Qed.

Lemma login_prefers_users_witness :
  exists token s,
    issued (post_login (Ext := Sample.externals) Sample.reseeded_state
              (Sample.anonymous (JObj [("email", JStr "ada@x.com");
                                       ("password", JStr "secret1")]))
              (Sample.env "4" 104)) = Some (token, s)
    /\ role s = RUser.
Proof.
  exists "tok-4", (mkSession "id-1" RUser 104). split; [reflexivity|].
  destruct (login_prefers_users (Ext := Sample.externals) Sample.reseeded_state
              (Sample.anonymous (JObj [("email", JStr "ada@x.com");
                                       ("password", JStr "secret1")]))
              (Sample.env "4" 104) (mkLoginPayload "ada@x.com" "secret1")
              Sample.ada "tok-4" (mkSession "id-1" RUser 104)) as [H _].
  - vm_compute. reflexivity.
  - apply list_elem_of_here.
  - reflexivity.
  - reflexivity.
  - exact H.
Defined.

(** ** The session map *)

Lemma issued_token `{Ext : Externals} r st req e token s :
  issued (handle r st req e) = Some (token, s) -> token = uuid_token e.
Proof. intros H. by apply issued_account in H as [? _]. Qed.

Lemma call_sessions `{Ext : Externals} r req e st token :
  (is_Some (sessions st !! token) ->
   is_Some (sessions (step (Call r req e) st) !! token))
  /\ (token <> uuid_token e ->
      sessions (step (Call r req e) st) !! token = sessions st !! token).
Proof.
  simpl. rewrite commit_sessions.
  destruct (issued (handle r st req e)) as [[t s]|] eqn:Ei; [|done].
  apply issued_token in Ei as ->. split.
  - intros H. destruct (decide (uuid_token e = token)) as [->|Hne].
    + by rewrite lookup_insert_eq.
    + by rewrite lookup_insert_ne.
  - intros Hne. by rewrite lookup_insert_ne.
Qed.

(** X15. There is no logout and no expiry: through any run of requests a
    token of the session map stays in the map, and its entry stays the
    same unless [randomUUID] draws that very token again; a restart
    empties the map. *)
Theorem sessions_kept `{Ext : Externals}
    (cs : list (Route * Request * Env)) (st : State) (token : string) :
  (is_Some (sessions st !! token) ->
   is_Some (sessions (run (requests cs) st) !! token))
  /\ (token ∉ map (fun c => uuid_token c.2) cs ->
      sessions (run (requests cs) st) !! token = sessions st !! token)
  /\ (forall cfg e, sessions (step (Boot cfg e) st) = ∅).
Proof.
  split; [|split].
  - revert st. induction cs as [|[[r req] e] cs IH]; intros st H; [done|].
    change (requests (((r, req), e) :: cs)) with (Call r req e :: requests cs).
    rewrite run_cons. apply IH. by apply call_sessions.
  - revert st. induction cs as [|[[r req] e] cs IH]; intros st H; [done|].
    change (requests (((r, req), e) :: cs)) with (Call r req e :: requests cs).
    rewrite run_cons. simpl in H. apply not_elem_of_cons in H as [Hne H].
    rewrite (IH _ H). by apply call_sessions.
  - intros cfg e. unfold step, bootstrap. by rewrite persist_sessions.
Qed.

Lemma sessions_kept_witness :
  is_Some (sessions Sample.milk_state !! "tok-1").
Proof.
  destruct (sessions_kept (Ext := Sample.externals)
              [(PostTodos, Sample.bearer "tok-1" (Sample.label_body "  buy milk  ") "",
                Sample.env "2" 102)]
              Sample.ada_state "tok-1") as [H _].
  apply H. rewrite ada_token. by eexists.
Defined.

(* ===================================================================== *)
(** * Properties of the client against the server *)
(* ===================================================================== *)

(** ** The token on the wire *)

Lemma headers_token token :
  token <> EmptyString ->
  Client.headers (Some token) = Some (String.append "Bearer " token).
Proof. by destruct token. Qed.

Lemma append_cons c (p t : string) :
  String.append (String c p) t = String c (String.append p t).
Proof. done. Qed.

Lemma strip_end_cons c (r : string) :
  Http.strip_end (String c r)
  = match Http.strip_end r with
    | EmptyString => if Http.whitespace c then EmptyString else String c EmptyString
    | r' => String c r'
    end.
Proof. done. Qed.

(** White space is stripped from the end of [p ++ t] through [t], and on
    into [p] only when nothing of [t] is left. *)
Lemma strip_end_append (p t : string) :
  Http.strip_end (String.append p t)
  = match Http.strip_end t with
    | EmptyString => Http.strip_end p
    | t' => String.append p t'
    end.
Proof.
  induction p as [|c p IH].
  - change (String.append "" t) with t. by destruct (Http.strip_end t).
  - rewrite append_cons, strip_end_cons, IH.
    destruct (Http.strip_end t) as [|a t'].
    + by rewrite strip_end_cons.
    + rewrite append_cons. by destruct p.
Qed.

Lemma all_chars_append f (p t : string) :
  Http.all_chars f (String.append p t) = Http.all_chars f p && Http.all_chars f t.
Proof.
  induction p as [|c p IH]; [done|].
  rewrite append_cons. cbn [Http.all_chars]. rewrite IH. by rewrite andb_assoc.
Qed.

Lemma all_chars_strip_end f (t : string) :
  Http.all_chars f t = true -> Http.all_chars f (Http.strip_end t) = true.
Proof.
  induction t as [|c t IH]; [done|].
  cbn [Http.all_chars]. intros H. apply andb_true_iff in H as [Hc Ht].
  rewrite strip_end_cons. specialize (IH Ht).
  destruct (Http.strip_end t) as [|a t'].
  - destruct (Http.whitespace c); [done|]. cbn [Http.all_chars]. by rewrite Hc.
  - cbn [Http.all_chars] in *. by rewrite Hc, IH.
Qed.

Lemma strip_end_id (t : string) :
  Http.all_chars (fun c => negb (Http.whitespace c)) t = true ->
  Http.strip_end t = t.
Proof.
  induction t as [|c t IH]; [done|].
  cbn [Http.all_chars]. intros H. apply andb_true_iff in H as [Hc Ht].
  rewrite strip_end_cons, (IH Ht). apply negb_true_iff in Hc. rewrite Hc.
  by destruct t.
Qed.

(** The header of a token as it is sent. *)
Lemma normalize_bearer token :
  Http.normalize (String.append "Bearer " token)
  = match Http.strip_end token with
    | EmptyString => "Bearer"
    | t' => String.append "Bearer " t'
    end.
Proof.
  unfold Http.normalize.
  change (Http.strip_start (String.append "Bearer " token))
    with (String.append "Bearer " token).
  rewrite strip_end_append. by destruct (Http.strip_end token).
Qed.

Lemma carried_bearer token h :
  Http.carried (String.append "Bearer " token) = Some h ->
  h = match Http.strip_end token with
      | EmptyString => "Bearer"
      | t' => String.append "Bearer " t'
      end.
Proof.
  unfold Http.carried. cbv zeta. rewrite normalize_bearer.
  destruct (Http.all_chars _ _); [|done]. by intros [= <-].
Qed.

Lemma carried_field_chars token :
  Http.all_chars Http.field_char token = true ->
  is_Some (Http.carried (String.append "Bearer " token)).
Proof.
  intros H. unfold Http.carried. cbv zeta. rewrite normalize_bearer.
  apply all_chars_strip_end in H.
  destruct (Http.strip_end token) as [|a t'] eqn:E.
  - by eexists.
  - rewrite all_chars_append, H. by eexists.
Qed.

(** A call of the client with another body and path carries the same
    header. *)
Lemma fetch_body auth b id b' id' req :
  Client.fetch auth b id = Some req ->
  Client.fetch auth b' id' = Some (mkRequest (authorization req) b' id').
Proof.
  unfold Client.fetch. destruct auth as [v|].
  - destruct (Http.carried v); [|done]. by intros [= <-].
  - by intros [= <-].
Qed.

Lemma fetch_bearer token b id req :
  token <> EmptyString ->
  Client.fetch (Client.headers (Some token)) b id = Some req ->
  req = mkRequest (Some match Http.strip_end token with
                        | EmptyString => "Bearer"
                        | t' => String.append "Bearer " t'
                        end) b id.
Proof.
  intros Hne. rewrite (headers_token token Hne). unfold Client.fetch.
  destruct (Http.carried _) as [h|] eqn:E; [|done].
  apply carried_bearer in E as ->. by intros [= <-].
Qed.

Lemma requireAuth_no_bearer st b id adm :
  requireAuth st (mkRequest None b id) adm = inl (reply 401 (message "missing-token"))
  /\ requireAuth st (mkRequest (Some "Bearer") b id) adm
     = inl (reply 401 (message "missing-token")).
Proof. done. Qed.

(** X16. The Authorization header as [request] builds it, as it is carried
    to the handler, and as [requireAuth] parses it.  For a non-empty
    token whose header is carried, the token that reaches the session
    lookup is the token without the white space (TAB, LF, CR, SPACE) at
    its end: when nothing is left of it the answer is missing-token;
    otherwise an unknown token is answered invalid-token and an accepted
    request resolves the session of that token.  A token without white
    space reaches the lookup unchanged.  The header of a token made of
    TABs and the code units 32 to 126 is always carried.  With an empty
    token, or none, no header is sent and the answer is
    missing-token. *)
Theorem client_token_reaches_lookup
    (st : State) (token : string) (b : JVal) (id : string) (adm : bool) :
  let sent := Http.strip_end token in
  (forall req,
     token <> EmptyString ->
     Client.fetch (Client.headers (Some token)) b id = Some req ->
     (sent = EmptyString ->
      requireAuth st req adm = inl (reply 401 (message "missing-token")))
     /\ (sent <> EmptyString -> sessions st !! sent = None ->
         requireAuth st req adm = inl (reply 401 (message "invalid-token")))
     /\ (forall auth,
           requireAuth st req adm = inr auth ->
           sent <> EmptyString /\ auth_token auth = sent
           /\ is_Some (sessions st !! sent)))
  /\ (Http.all_chars (fun c => negb (Http.whitespace c)) token = true ->
      sent = token)
  /\ (token <> EmptyString -> Http.all_chars Http.field_char token = true ->
      is_Some (Client.fetch (Client.headers (Some token)) b id))
  /\ (Client.fetch (Client.headers (Some EmptyString)) b id = Some (mkRequest None b id)
      /\ Client.fetch (Client.headers None) b id = Some (mkRequest None b id)
      /\ requireAuth st (mkRequest None b id) adm
         = inl (reply 401 (message "missing-token"))).
Proof.
  intros sent. split; [|split; [apply strip_end_id|split; [|done]]].
  - intros req Hne Hf. apply fetch_bearer in Hf; [|done]. fold sent in Hf.
    destruct sent as [|a t'] eqn:Es.
    + subst req. split; [intros _; apply requireAuth_no_bearer|].
      split; [done|]. intros auth Ha.
      by rewrite (proj2 (requireAuth_no_bearer st b id adm)) in Ha.
    + subst req. split; [done|]. split.
      * intros _ Hs. unfold requireAuth. cbn [authorization].
        destruct (bearer_header (String a t')) as [-> ->]. simpl negb. cbv iota.
        unfold getSession. by rewrite Hs.
      * intros auth Ha.
        apply requireAuth_inr in Ha as (s & u & Hs & _ & _ & _ & _ & _ & Ht & _).
        cbn [authorization] in Ht.
        destruct (bearer_header (String a t')) as [_ Hrep]. cbv zeta in Hrep.
        rewrite Hrep in Ht. rewrite Ht in Hs. split; [done|]. split; [done|].
        by exists s.
  - intros Hne Hc. rewrite (headers_token token Hne). unfold Client.fetch.
    destruct (carried_field_chars token Hc) as [h ->]. by eexists.
Qed.

(** Ada's token with a blank at its end resolves her session. *)
Lemma client_token_reaches_lookup_witness :
  exists req auth,
    snd (Client.fetchSession Demo.padded_token) = Some req
    /\ requireAuth Sample.ada_state req false = inr auth
    /\ auth_token auth = "tok-1".
Proof.
  destruct (client_token_reaches_lookup Sample.ada_state Demo.padded_token JUndef ""
              false) as (H & _).
  set (req := mkRequest (Some "Bearer tok-1") JUndef "").
  assert (Hf : Client.fetch (Client.headers (Some Demo.padded_token)) JUndef ""
               = Some req) by (vm_compute; reflexivity).
  destruct (H req) as (_ & _ & Hacc); [discriminate|exact Hf|].
  destruct (requireAuth Sample.ada_state req false) as [r|auth] eqn:E;
    [vm_compute in E; discriminate|].
  exists req, auth. split; [exact Hf|]. split; [exact E|].
  destruct (Hacc auth eq_refl) as (_ & Ht & _). exact Ht.
Defined.

(** ** Replies as the client reads them *)

Lemma request_respond c m :
  (c, m) ∈ error_answers ->
  Client.request (reply c (message m)) = Client.Failed m
  /\ Client.request_delete (reply c (message m)) = Client.Failed m.
Proof.
  unfold error_answers. rewrite !elem_of_cons.
  intros [H|[H|[H|[H|[H|[H|[H|H]]]]]]];
    try (injection H as -> ->; by vm_compute).
  by apply not_elem_of_nil in H.
Qed.

(** X17. Whatever the route, the request and the state, [request] ends in
    the parsed body of a 200 or 201, or in an [Error] whose message is
    the [message] of one of the seven error answers and then the server
    state is unchanged; only the bodiless 204 of a delete is neither,
    and [deleteTodoRemote] does not parse it.  The fallback
    ['server-error'] is never needed for an answer of these routes. *)
Theorem client_reads_every_answer `{Ext : Externals}
    (r : Route) (st : State) (req : Request) (e : Env) :
  let o := handle r st req e in
  match Client.request (resp o) with
  | Client.Parsed v => json (resp o) = Some v /\ status (resp o) ∈ [200; 201]
  | Client.Failed m =>
      (status (resp o), m) ∈ error_answers /\ commit o st = st
      /\ Client.request_delete (resp o) = Client.Failed m
  | Client.Other =>
      r = DeleteTodo /\ resp o = mkResponse 204 None
      /\ Client.request_delete (resp o) = Client.Parsed JUndef
  end.
Proof.
  intros o. unfold o.
  destruct (answer_cases r st req e)
    as [(v & [-> | ->])|[(Hr & ->)|(c & m & Hin & ->)]].
  - simpl. split; [done|set_solver].
  - simpl. split; [done|set_solver].
  - done.
  - cbn [resp respond]. destruct (request_respond c m Hin) as [-> Hd].
    split; [done|]. split; [apply commit_respond|done].
Qed.

(** ** The board mirrors the server *)

Lemma todoObj_id t id :
  Client.is_str (prop "id" (todoObj t)) id = Js.seq (todo_id t) id.
Proof. reflexivity. Qed.

Lemma todoObj_done t : Client.truthy (prop "done" (todoObj t)) = todo_done t.
Proof. reflexivity. Qed.

Lemma filter_map {A B} (f : B -> bool) (g : A -> B) (l : list A) :
  List.filter f (map g l) = map g (List.filter (fun x => f (g x)) l).
Proof.
  induction l as [|a l IH]; [done|]. simpl.
  destruct (f (g a)); simpl; by rewrite IH.
Qed.

Lemma find_map {A B} (f : B -> bool) (g : A -> B) (l : list A) :
  find f (map g l) = option_map g (find (fun x => f (g x)) l).
Proof.
  induction l as [|a l IH]; [done|]. simpl. by destruct (f (g a)).
Qed.

Lemma find_find_at {A} (f : A -> bool) (l : list A) :
  find f l = option_map snd (find_at f l).
Proof.
  induction l as [|a l IH]; [done|]. simpl. destruct (f a); [done|].
  rewrite IH. by destruct (find_at f l) as [[i y]|].
Qed.

(** A call of the client with the token of a mirroring board reaches
    the handler and passes [requireAuth] as the same caller. *)
Lemma mirrored_request `{Ext : Externals} st token req0 auth r b id e :
  Client.fetch (Client.headers (Some token)) JUndef "" = Some req0 ->
  requireAuth st req0 false = inr auth ->
  let req := mkRequest (authorization req0) b id in
  Client.answer (r, Client.fetch (Client.headers (Some token)) b id) st e
  = Some (handle r st req e)
  /\ requireAuth st req false = inr auth.
Proof.
  intros Hf Ha req. unfold Client.answer. cbn [fst snd].
  rewrite (fetch_body _ _ _ b id _ Hf). split; [done|].
  rewrite <- Ha. by apply requireAuth_header.
Qed.

(** The token of a mirroring board is not empty. *)
Lemma mirrored_token st token req0 auth :
  Client.fetch (Client.headers (Some token)) JUndef "" = Some req0 ->
  requireAuth st req0 false = inr auth ->
  token <> EmptyString.
Proof. intros Hf Ha ->. injection Hf as <-. done. Qed.

Lemma mirrors_after_save (b' : Client.Board) st token profile req0 auth ts :
  Client.session b' = Some (token, profile) ->
  Client.fetch (Client.headers (Some token)) JUndef "" = Some req0 ->
  requireAuth st req0 false = inr auth ->
  Client.todos b' = map todoObj ts ->
  Client.mirrors b' (persist (save auth (set_todos (auth_user auth) ts)) st).
Proof.
  intros Hs Hf Ha Ht.
  pose proof (requireAuth_after_save st _ auth ts Ha) as Ha'. cbv zeta in Ha'.
  exists token, profile, req0. eexists. split; [done|]. split; [done|].
  split; [exact Ha'|]. done.
Qed.

(** X18. [addTodo] keeps the board in step with the server.  If the board
    shows the caller's stored task list, then after [addTodo] (whether
    it returned early, was refused by the server or succeeded) it still
    does; and a task it adds has the trimmed draft as label, which is
    not empty, so no task with an empty label is created from the
    board. *)
Theorem addTodo_mirrors `{Ext : Externals} (b : Client.Board) (st : State) (e : Env) :
  Client.mirrors b st ->
  exists b' st',
    Client.addTodo b st e = Some (b', st')
    /\ Client.mirrors b' st'
    /\ (Client.todos b' = Client.todos b
        \/ exists v, Client.todos b' = v :: Client.todos b
                     /\ prop "label" v = JStr (Js.trim (Client.draft b))
                     /\ Js.trim (Client.draft b) <> EmptyString
                     /\ prop "done" v = JBool false).
Proof.
  intros Hm. pose proof Hm as (token & profile & req0 & auth & Hs & Hf & Ha & Ht).
  unfold Client.addTodo. rewrite Hs.
  destruct (Client.todoBusy b); [by exists b, st; auto|].
  cbv zeta. destruct (Js.seq (Js.trim (Client.draft b)) "") eqn:Eblank;
    [by exists b, st; auto|].
  apply seq_false in Eblank.
  set (trimmed := Js.trim (Client.draft b)) in *.
  unfold Client.createTodoRemote.
  destruct (mirrored_request st token req0 auth PostTodos
              (JObj [("label", JStr trimmed)]) "" e Hf Ha) as [-> Hareq].
  set (req := mkRequest (authorization req0) (JObj [("label", JStr trimmed)]) "") in *.
  cbn [handle].
  destruct (todoCreateSchema (body req)) as [l|] eqn:El.
  - assert (l = trimmed) as ->.
    { apply todoCreateSchema_label in El as [El _]. simpl in El. congruence. }
    rewrite (post_todos_created st req e auth trimmed Hareq El).
    cbn [resp]. change (Client.request (reply 201 ?v)) with (Client.Parsed v).
    cbv iota. rewrite commit_quiet.
    assert (Htt : Js.trim trimmed = trimmed) by apply trim_idem.
    rewrite Htt.
    set (todo := mkTodo (uuid e) trimmed false (now e)).
    eexists _, _. split; [reflexivity|]. split.
    + eapply mirrors_after_save; [reflexivity|exact Hf|exact Ha|].
      cbn [Client.todos]. by rewrite Ht.
    + right. eexists. split; [reflexivity|]. by repeat split.
  - unfold post_todos. rewrite Hareq, El.
    cbn [resp respond].
    change (Client.request (reply 400 (message "validation-error")))
      with (Client.Failed "validation-error").
    cbv iota. rewrite commit_respond.
    eexists _, _. split; [reflexivity|]. split; [|by left].
    by exists token, profile, req0, auth.
Qed.

Lemma replace_none (id : string) (x : JVal) (l : list Todo) :
  id ∉ map todo_id l ->
  map (fun item => if Client.is_str (prop "id" item) id then x else item)
      (map todoObj l)
  = map todoObj l.
Proof.
  induction l as [|a l IH]; [done|]. cbn [map]. intros Hn.
  apply not_elem_of_cons in Hn as [Hne Hn].
  rewrite todoObj_id. rewrite (proj2 (seq_false (todo_id a) id)) by done.
  by rewrite IH.
Qed.

Lemma replace_one (l : list Todo) j t t' :
  NoDup (map todo_id l) -> l !! j = Some t ->
  map (fun item => if Client.is_str (prop "id" item) (todo_id t)
                   then todoObj t' else item)
      (map todoObj l)
  = map todoObj (<[j := t']> l).
Proof.
  revert j. induction l as [|a l IH]; intros j Hnd Hj; [done|].
  cbn [map] in Hnd. apply NoDup_cons in Hnd as [Hna Hnd].
  destruct j as [|j]; simpl in Hj.
  - injection Hj as ->. cbn [map]. rewrite todoObj_id, seq_refl.
    rewrite replace_none by done. done.
  - change (<[S j := t']> (a :: l)) with (a :: <[j := t']> l). cbn [map].
    rewrite todoObj_id. rewrite (proj2 (seq_false (todo_id a) (todo_id t))).
    + by rewrite (IH j).
    + intros He. apply Hna. rewrite He. apply list_elem_of_fmap.
      exists t. split; [done|]. apply list_elem_of_lookup. by exists j.
Qed.

(** X19. [toggleTodo] keeps the board in step with the server as long as the
    ids on the board are pairwise distinct: the board replaces every
    entry that has the id, the server changes the first task with it. *)
Theorem toggleTodo_mirrors `{Ext : Externals}
    (id : string) (b : Client.Board) (st : State) (e : Env) :
  Client.mirrors b st ->
  NoDup (map (prop "id") (Client.todos b)) ->
  exists b' st',
    Client.toggleTodo id b st e = Some (b', st') /\ Client.mirrors b' st'.
Proof.
  intros Hm Hnd. pose proof Hm as (token & profile & req0 & auth & Hs & Hf & Ha & Ht).
  set (old := or_empty (acc_todos (auth_user auth))) in *.
  assert (Hids : NoDup (map todo_id old)).
  { rewrite Ht, map_map in Hnd.
    change (NoDup (map (fun x => JStr (todo_id x)) old)) in Hnd.
    rewrite <- (map_map todo_id JStr) in Hnd.
    by apply (NoDup_fmap_1 JStr) in Hnd. }
  unfold Client.toggleTodo. rewrite Hs, Ht.
  rewrite find_map, find_find_at.
  destruct (find_at (fun x => Client.is_str (prop "id" (todoObj x)) id) old)
    as [[j t]|] eqn:Ef; simpl option_map; cbv iota.
  2:{ by exists b, st. }
  cbv zeta. unfold Client.toggleTodoRemote.
  rewrite todoObj_done.
  destruct (mirrored_request st token req0 auth PatchTodo
              (JObj [("done", JBool (negb (todo_done t)))]) id e Hf Ha)
    as [-> Hareq].
  set (req := mkRequest (authorization req0)
                        (JObj [("done", JBool (negb (todo_done t)))]) id) in *.
  cbn [handle].
  pose proof (patch_todo_hit st req auth j t Hareq Ef) as Hp.
  cbv zeta in Hp. fold old in Hp.
  change (prop "done" (body req)) with (JBool (negb (todo_done t))) in Hp.
  cbv iota in Hp. rewrite Hp. cbn [resp].
  change (Client.request (reply 200 ?v)) with (Client.Parsed v). cbv iota.
  rewrite commit_quiet.
  apply find_at_Some in Ef as (Hj & Hid & _).
  rewrite todoObj_id in Hid. apply seq_true in Hid. subst id.
  change (prop "todo" (JObj [("todo", ?v)])) with v.
  rewrite (replace_one old j t _ Hids Hj).
  eexists _, _. split; [reflexivity|].
  eapply mirrors_after_save; [reflexivity|exact Hf|exact Ha|reflexivity].
Qed.

(** X20. [removeTodo] keeps the board in step with the server: on 204 both
    drop every task with the id, on an error (404 for an id that is not
    in the list) both keep their list. *)
Theorem removeTodo_mirrors `{Ext : Externals}
    (id : string) (b : Client.Board) (st : State) (e : Env) :
  Client.mirrors b st ->
  exists b' st',
    Client.removeTodo id b st e = Some (b', st') /\ Client.mirrors b' st'.
Proof.
  intros Hm. pose proof Hm as (token & profile & req0 & auth & Hs & Hf & Ha & Ht).
  set (old := or_empty (acc_todos (auth_user auth))) in *.
  unfold Client.removeTodo. rewrite Hs. cbv zeta.
  unfold Client.deleteTodoRemote.
  rewrite <- (headers_token token (mirrored_token st token req0 auth Hf Ha)).
  destruct (mirrored_request st token req0 auth DeleteTodo JUndef id e Hf Ha)
    as [-> Hareq].
  set (req := mkRequest (authorization req0) JUndef id) in *.
  cbn [handle].
  unfold delete_todo. rewrite Hareq. cbv zeta. fold old.
  change (param_id req) with id.
  destruct (bool_decide _).
  - cbn [resp respond].
    change (Client.request_delete (reply 404 (message "not-found")))
      with (Client.Failed "not-found").
    cbv iota. rewrite commit_respond.
    eexists _, _. split; [reflexivity|]. by exists token, profile, req0, auth.
  - cbn [resp].
    change (Client.request_delete (mkResponse 204 None)) with (Client.Parsed JUndef).
    cbv iota. rewrite commit_quiet.
    eexists _, _. split; [reflexivity|].
    eapply mirrors_after_save; [reflexivity|exact Hf|exact Ha|].
    cbn [Client.todos]. rewrite Ht, filter_map. done.
Qed.

Lemma demo_board_mirrors : Client.mirrors Demo.board Sample.ada_state.
Proof.
  exists "tok-1", (profile Sample.ada), (mkRequest (Some "Bearer tok-1") JUndef ""),
         (mkAuth 0 Sample.ada [Sample.ada] writeUsers "tok-1" RUser).
  split; [reflexivity|]. split; [vm_compute; reflexivity|]. split; [|reflexivity].
  vm_compute. reflexivity.
Qed.

Lemma demo_milk_board_mirrors : Client.mirrors Demo.milk_board Sample.milk_state.
Proof.
  exists "tok-1", (profile Sample.ada), (mkRequest (Some "Bearer tok-1") JUndef ""),
         Sample.ada_auth.
  split; [reflexivity|]. split; [vm_compute; reflexivity|]. split; [|reflexivity].
  vm_compute. reflexivity.
Qed.

Lemma addTodo_mirrors_witness :
  Client.addTodo (Ext := Sample.externals) Demo.board Sample.ada_state (Sample.env "2" 102)
  = Some (Demo.milk_board, Sample.milk_state)
  /\ Client.mirrors Demo.milk_board Sample.milk_state.
Proof.
  destruct (addTodo_mirrors (Ext := Sample.externals) Demo.board Sample.ada_state
              (Sample.env "2" 102) demo_board_mirrors) as (b' & st' & Hadd & Hm & _).
  assert (Hrun : Client.addTodo (Ext := Sample.externals) Demo.board Sample.ada_state
                   (Sample.env "2" 102)
                 = Some (Demo.milk_board, Sample.milk_state)) by (vm_compute; reflexivity).
  split; [exact Hrun|].
  rewrite Hrun in Hadd. injection Hadd as <- <-. exact Hm.
Defined.

Lemma toggleTodo_mirrors_witness :
  exists b' st',
    Client.toggleTodo (Ext := Sample.externals) "id-2" Demo.milk_board
                      Sample.milk_state (Sample.env "3" 103) = Some (b', st')
    /\ Client.mirrors b' st'.
Proof.
  apply (toggleTodo_mirrors (Ext := Sample.externals) "id-2" Demo.milk_board
           Sample.milk_state (Sample.env "3" 103) demo_milk_board_mirrors).
  vm_compute. apply NoDup_cons. split; [apply not_elem_of_nil|apply NoDup_nil_2].
Defined.

Lemma removeTodo_mirrors_witness :
  exists b' st',
    Client.removeTodo (Ext := Sample.externals) "id-2" Demo.milk_board
                      Sample.milk_state (Sample.env "3" 103) = Some (b', st')
    /\ Client.mirrors b' st'.
Proof.
  exact (removeTodo_mirrors (Ext := Sample.externals) "id-2" Demo.milk_board
           Sample.milk_state (Sample.env "3" 103) demo_milk_board_mirrors).
Defined.

(** ** The filters of the board *)

Lemma filter_split_length {A} (f : A -> bool) (l : list A) :
  (length (List.filter (fun x => negb (f x)) l) + length (List.filter f l)
   = length l)%nat.
Proof.
  induction l as [|a l IH]; [done|]. simpl.
  destruct (f a); simpl; lia.
Qed.

Lemma filter_split_perm {A} (f : A -> bool) (l : list A) :
  List.filter (fun x => negb (f x)) l ++ List.filter f l ≡ₚ l.
Proof.
  induction l as [|a l IH]; [done|]. simpl.
  destruct (f a); simpl.
  - rewrite <- Permutation_middle. by constructor.
  - by constructor.
Qed.

(** X21. Every task of the board is shown under exactly one of the filters
    [active] and [done], and under [all]: the two filtered lists
    together are a rearrangement of the whole list, a task is under
    [active] exactly when its [done] is falsy, and the counter
    [remaining] is the length of the [active] list. *)
Theorem board_filters (ts : list JVal) :
  Client.filteredTodos Client.all ts = ts
  /\ Client.filteredTodos Client.open ts ++ Client.filteredTodos Client.done ts ≡ₚ ts
  /\ Client.remaining ts = length (Client.filteredTodos Client.open ts)
  /\ (Client.remaining ts + length (Client.filteredTodos Client.done ts)
      = length ts)%nat
  /\ (forall v, v ∈ Client.filteredTodos Client.open ts
                <-> v ∈ ts /\ Client.truthy (prop "done" v) = false)
  /\ (forall v, v ∈ Client.filteredTodos Client.done ts
                <-> v ∈ ts /\ Client.truthy (prop "done" v) = true).
Proof.
  split; [done|]. split; [apply filter_split_perm|]. split; [done|].
  split; [apply filter_split_length|]. split; intros v; simpl.
  - rewrite list_elem_of_In, filter_In, negb_true_iff, <- list_elem_of_In. done.
  - rewrite list_elem_of_In, filter_In, <- list_elem_of_In. done.
Qed.

(** ** Allowed origins *)

Lemma split_nonempty sep s : Cors.split sep s <> [].
Proof.
  destruct s as [|c r]; simpl; [done|].
  destruct (bool_decide _); [done|]. by destruct (Cors.split sep r).
Qed.

Lemma split_join sep s : join sep (Cors.split sep s) = s.
Proof.
  induction s as [|c r IH]; [done|]. simpl.
  destruct (bool_decide (c = sep)) eqn:E.
  - apply bool_decide_eq_true in E as ->.
    pose proof (split_nonempty sep r).
    destruct (Cors.split sep r) as [|h t] eqn:Es; [done|].
    rewrite <- IH. reflexivity.
  - pose proof (split_nonempty sep r).
    destruct (Cors.split sep r) as [|h t] eqn:Es; [done|].
    rewrite <- IH. by destruct t.
Qed.

Lemma split_free sep s :
  Forall (fun piece => ~ occurs sep piece) (Cors.split sep s).
Proof.
  induction s as [|c r IH]; simpl; [constructor; [simpl; tauto|constructor]|].
  destruct (bool_decide (c = sep)) eqn:E.
  - constructor; [simpl; tauto|done].
  - apply bool_decide_eq_false in E.
    destruct (Cors.split sep r) as [|h t]; [constructor; [|done]|].
    + simpl. tauto.
    + inversion IH as [|? ? Hh Ht]; subst. constructor; [|done].
      simpl. tauto.
Qed.

Lemma trimStart_occurs c s : occurs c (Js.trimStart s) -> occurs c s.
Proof.
  induction s as [|a r IH]; [done|]. simpl.
  destruct (Js.is_space a); [by right; apply IH|done].
Qed.

Lemma trimEnd_occurs c s : occurs c (Js.trimEnd s) -> occurs c s.
Proof.
  induction s as [|a r IH]; [done|]. simpl.
  destruct (Js.trimEnd r) as [|b q].
  - destruct (Js.is_space a); simpl; [done|]. intros [?|[]]. by left.
  - simpl. intros [?|H]; [by left|]. right. by apply IH.
Qed.

Lemma trim_occurs c s : occurs c (Js.trim s) -> occurs c s.
Proof. intros H. by apply trimStart_occurs, trimEnd_occurs. Qed.

(** X22. The list of allowed origins, for any value of [CLIENT_ORIGINS]: an
    entry is never empty, has no white space around it and contains no
    comma; the entries are exactly the non-blank trimmed pieces between
    the commas of the variable (or of the default when it is unset or
    empty).  A request without [Origin] header is always let through, a
    request with one exactly when the header is one of the entries. *)
Theorem allowed_origins (CLIENT_ORIGINS : option string) :
  let raw := Js.or_str CLIENT_ORIGINS "http://localhost:5173,http://127.0.0.1:5173" in
  let allowed := Cors.ALLOWED_ORIGINS CLIENT_ORIGINS in
  join "," (Cors.split "," raw) = raw
  /\ (forall o, o ∈ allowed ->
                o <> EmptyString /\ Js.trim o = o /\ ~ occurs "," o)
  /\ (forall o, o ∈ allowed <->
                o <> EmptyString
                /\ exists piece, piece ∈ Cors.split "," raw /\ Js.trim piece = o)
  /\ Cors.origin allowed None = true
  /\ (forall o, o <> EmptyString ->
                (Cors.origin allowed (Some o) = true <-> o ∈ allowed)).
Proof.
  intros raw allowed.
  assert (Hchar : forall o, o ∈ allowed <->
            o <> EmptyString
            /\ exists piece, piece ∈ Cors.split "," raw /\ Js.trim piece = o).
  { intros o. unfold allowed, Cors.ALLOWED_ORIGINS. fold raw.
    rewrite list_elem_of_In, filter_In, negb_true_iff, in_map_iff.
    split.
    - intros [(piece & Hp & Hin) Hne]. split; [by apply seq_false|].
      exists piece. split; [by apply list_elem_of_In|done].
    - intros [Hne (piece & Hin & Hp)]. split; [|by apply seq_false].
      exists piece. split; [done|by apply list_elem_of_In]. }
  split; [apply split_join|]. split; [|split; [exact Hchar|split; [done|]]].
  - intros o Ho. apply Hchar in Ho as [Hne (piece & Hin & <-)].
    split; [done|]. split; [apply trim_idem|].
    intros Hc. apply trim_occurs in Hc.
    pose proof (split_free "," raw) as Hfree. rewrite Forall_forall in Hfree.
    by apply (Hfree piece Hin).
  - intros o Hne. unfold Cors.origin. destruct o as [|c r]; [done|].
    apply bool_decide_eq_true.
Qed.

Example allowed_origins_spaced :
  Cors.ALLOWED_ORIGINS (Some " https://a.example , ,https://b.example,")
  = ["https://a.example"; "https://b.example"].
Proof. vm_compute. reflexivity. Qed.

Lemma allowed_origins_witness :
  "http://localhost:5173" ∈ Cors.ALLOWED_ORIGINS None
  /\ Cors.origin (Cors.ALLOWED_ORIGINS None) (Some "http://localhost:5173") = true
  /\ Cors.origin (Cors.ALLOWED_ORIGINS None) (Some "http://localhost:5173 ") = false.
Proof.
  destruct (allowed_origins None) as (_ & _ & Hin & _ & Hor).
  assert (H : "http://localhost:5173" ∈ Cors.ALLOWED_ORIGINS None).
  { apply Hin. split; [discriminate|].
    exists "http://localhost:5173".
    split; [vm_compute; apply list_elem_of_here|vm_compute; reflexivity]. }
  split; [exact H|]. split; [by apply Hor|vm_compute; reflexivity].
Defined.

(** ** Hydrating the board *)

(** X23. [hydrate] sets the board up in step with the server, for a
    stored token whose requests reach the handler.  When [requireAuth]
    accepts the request, which it does as the session of the token
    without the white space at its end, the board gets that caller's
    profile and exactly the stored task list, and the token is kept as
    it was stored; when it turns the request away, the board is signed
    out with an empty list, the stored token is removed and the message
    shown is that of the server's 401. *)
Theorem hydrate_mirrors `{Ext : Externals}
    (token : string) (b : Client.Board) (st : State) (e : Env) (req : Request) :
  Client.fetch (Client.headers (Some token)) JUndef "" = Some req ->
  (forall auth,
     requireAuth st req false = inr auth ->
     exists b',
       App.hydrate token b st e = Some (b', Some token)
       /\ Client.session b' = Some (token, profile (auth_user auth))
       /\ auth_token auth = Http.strip_end token
       /\ Client.mirrors b' st)
  /\ (forall r,
        requireAuth st req false = inl r ->
        exists m,
          (401, m) ∈ error_answers
          /\ App.hydrate token b st e
             = Some (Client.mkBoard None [] (Client.draft b) (Client.toError m)
                                    (Client.todoBusy b), None)).
Proof.
  intros Hf. unfold App.hydrate. cbv zeta.
  unfold Client.answer, Client.fetchSession, Client.fetchTodos.
  cbn [fst snd]. rewrite Hf. cbn [handle].
  unfold get_session, get_todos. split.
  - intros auth Ha. rewrite Ha. cbn [resp respond].
    change (Client.request (reply 200 ?v)) with (Client.Parsed v). cbv iota.
    change (prop "todos" (JObj [("todos", ?v)])) with v.
    unfold todosArr. cbv iota.
    eexists. split; [reflexivity|]. split; [reflexivity|]. split.
    + assert (Hne : token <> EmptyString) by (by eapply mirrored_token).
      pose proof (fetch_bearer token JUndef "" req Hne Hf) as Hreq.
      pose proof (requireAuth_inr _ _ _ _ Ha)
        as (s & u & _ & _ & _ & _ & _ & _ & Ht & _).
      rewrite Ht. rewrite Hreq in Ha |- *. cbn [authorization].
      destruct (Http.strip_end token) as [|c t']; [|apply bearer_header].
      by rewrite (proj2 (requireAuth_no_bearer st JUndef "" false)) in Ha.
    + by exists token, (profile (auth_user auth)), req, auth.
  - intros r Ha. rewrite Ha. cbn [resp respond].
    unfold requireAuth in Ha.
    destruct (Js.startsWith _ _); simpl negb in Ha; cbv iota in Ha.
    + destruct (getSession st _) as [s|].
      * cbv zeta in Ha. destruct (find_at _ _) as [[i a]|]; [done|].
        injection Ha as <-. exists "invalid-token".
        split; [unfold error_answers; set_solver|reflexivity].
      * injection Ha as <-. exists "invalid-token".
        split; [unfold error_answers; set_solver|reflexivity].
    + injection Ha as <-. exists "missing-token".
      split; [unfold error_answers; set_solver|reflexivity].
Qed.

(** With Ada's token stored with a blank at its end, the board is signed
    in as Ada, shows her task, and the token stays stored as it was. *)
Lemma hydrate_mirrors_witness :
  exists b',
    App.hydrate (Ext := Sample.externals) Demo.padded_token Demo.board
                Sample.milk_state (Sample.env "5" 105)
    = Some (b', Some Demo.padded_token)
    /\ Client.session b' = Some (Demo.padded_token,
                                 profile (set_todos Sample.ada [Sample.milk]))
    /\ Client.todos b' = [todoObj Sample.milk].
Proof.
  destruct (hydrate_mirrors (Ext := Sample.externals) Demo.padded_token Demo.board
              Sample.milk_state (Sample.env "5" 105)
              (mkRequest (Some "Bearer tok-1") JUndef "")) as [H _];
    [vm_compute; reflexivity|].
  destruct (H Sample.ada_auth) as (b' & Hh & Hs & _ & Hm); [vm_compute; reflexivity|].
  exists b'. split; [exact Hh|]. split; [exact Hs|].
  vm_compute in Hh. injection Hh as <-. reflexivity.
Defined.
